(** * BettingHub: the signal server (supabase/functions/server/signals.tsx)

    A shallow embedding of the signal generator, the mock scoring formula,
    the market initialiser and the HTTP handlers that read and write the
    key-value store, followed by the properties the specification states
    about them.

    JavaScript numbers are IEEE-754 binary64 values; they are modelled by
    Rocq's primitive floats, so that [NaN], the two zeros and the rounding
    of every operation are the ones the program sees. [Math.random] and
    [Date.now] read an explicit environment. *)

From Stdlib Require Import ZArith Lia Bool List String Ascii Floats Uint63 Sorted Permutation.
From stdpp Require Import gmap strings list fin_maps pretty.

Set Warnings "-inexact-float".
Local Open Scope Z_scope.

(** ** JavaScript numbers *)

Abbreviation number := float.

(** An integer as a Number (exact below [2^53]). *)
Definition number_of_Z (z : Z) : number :=
  match z with
  | Z0 => PrimFloat.zero
  | Zpos _ => PrimFloat.of_uint63 (Uint63.of_Z z)
  | Zneg p => PrimFloat.opp (PrimFloat.of_uint63 (Uint63.of_Z (Zpos p)))
  end.

Definition number_of_nat (n : nat) : number := number_of_Z (Z.of_nat n).

Definition signed_zero (s : bool) : number :=
  if s then PrimFloat.neg_zero else PrimFloat.zero.

(** [Math.max(a, b)] and [Math.min(a, b)]: [NaN] if either argument is
    [NaN]; [+0] counts as larger than [-0]. *)
Definition Math_max (a b : number) : number :=
  if PrimFloat.is_nan a || PrimFloat.is_nan b then PrimFloat.nan
  else if PrimFloat.ltb a b then b
  else if PrimFloat.ltb b a then a
  else if PrimFloat.get_sign a then b else a.

Definition Math_min (a b : number) : number :=
  if PrimFloat.is_nan a || PrimFloat.is_nan b then PrimFloat.nan
  else if PrimFloat.ltb a b then a
  else if PrimFloat.ltb b a then b
  else if PrimFloat.get_sign a then a else b.

(** [Math.round(x)]: the integer closest to [x], ties towards [+Infinity];
    [NaN], the infinities, the zeros and the integers are returned as they
    are; a result of zero keeps the sign of [x]. A finite [x] is
    [(-1)^s * m * 2^e]; when [e < 0] the integer is computed exactly. *)
Definition Math_round (x : number) : number :=
  match Prim2SF x with
  | S754_finite s m e =>
      if 0 <=? e then x
      else
        let n := (2 * cond_Zopp s (Zpos m) + 2 ^ (- e)) / 2 ^ (1 - e) in
        if n =? 0 then signed_zero s else number_of_Z n
  | _ => x
  end.

(** [Math.floor(x)]. *)
Definition Math_floor (x : number) : number :=
  match Prim2SF x with
  | S754_finite s m e =>
      if 0 <=? e then x
      else
        let n := cond_Zopp s (Zpos m) / 2 ^ (- e) in
        if n =? 0 then signed_zero s else number_of_Z n
  | _ => x
  end.

(** The integer a Number denotes, when it is one. *)
Definition integer_value (x : number) : option Z :=
  match Prim2SF x with
  | S754_zero _ => Some 0
  | S754_finite s m e =>
      if 0 <=? e then Some (cond_Zopp s (Zpos m * 2 ^ e))
      else if Zpos m mod 2 ^ (- e) =? 0
           then Some (cond_Zopp s (Zpos m / 2 ^ (- e)))
           else None
  | _ => None
  end.

(** [arr[i]] for a Number [i]: the element when [i] is an integer within
    the bounds, [undefined] ([None]) otherwise. *)
Definition array_get {A : Type} (arr : list A) (i : number) : option A :=
  match integer_value i with
  | Some z =>
      if (0 <=? z) && (z <? Z.of_nat (length arr))
      then nth_error arr (Z.to_nat z) else None
  | None => None
  end.

(** [a !== b] and [a > b], [a >= b] on Numbers. *)
Definition strict_neq (a b : number) : bool := negb (PrimFloat.eqb a b).
Definition gtb (a b : number) : bool := PrimFloat.ltb b a.
Definition geb (a b : number) : bool := PrimFloat.leb b a.

(** ** The environment: [Math.random] and [Date.now]

    The values the two sources will return are fixed by the environment;
    each call takes the next one. *)
Record Env := mkEnv {
  random_values : nat -> number;
  random_calls : nat;
  time_values : nat -> Z;
  time_calls : nat
}.

Definition Gen (A : Type) : Type := Env -> A * Env.

Definition ret {A : Type} (a : A) : Gen A := fun e => (a, e).

Definition bind {A B : Type} (c : Gen A) (k : A -> Gen B) : Gen B :=
  fun e => let (a, e') := c e in k a e'.

Notation "'let!' x ':=' c 'in' k" := (bind c (fun x => k))
  (at level 10, x name, c at level 100, k at level 200).

Definition Math_random : Gen number := fun e =>
  (random_values e (random_calls e),
   mkEnv (random_values e) (S (random_calls e)) (time_values e) (time_calls e)).

Definition Date_now : Gen Z := fun e =>
  (time_values e (time_calls e),
   mkEnv (random_values e) (random_calls e) (time_values e) (S (time_calls e))).

(** [Math.random] returns a Number in [[0, 1)]. *)
Definition unit_interval (r : number) : Prop :=
  PrimFloat.leb 0 r = true /\ PrimFloat.ltb r 1 = true.

Definition random_contract (e : Env) : Prop :=
  forall n, unit_interval (random_values e n).

(** ** The data model *)

Inductive Level := Low | Medium | High.
Inductive VolatilityLabel := Stable | Normal | Volatile | Extreme.

Module MarketState.
Record t := mk {
  marketId : string;
  eventId : string;
  eventName : string;
  sport : string;
  marketType : option string;
  lastOdds : list (string * number);
  impliedProbability : number;
  volatility : number;
  momentum : number;
  lastUpdate : number;
  pollingCadence : number
}.
End MarketState.

Record BestLine := mkBestLine {
  book : option string;
  odds : number;
  price : string
}.

Record Consensus := mkConsensus {
  implied : number;
  consensus_odds : number
}.

Record OddsMovement := mkOddsMovement {
  from : number;
  to : number;
  timeWindow : string
}.

Module Signal.
Record t := mk {
  id : string;
  eventId : string;
  eventName : string;
  sport : string;
  marketType : option string;
  triggeredAt : number;
  signalScore : number;
  edge : number;
  confidence : Level;
  bestLine : BestLine;
  consensus : Consensus;
  aiProbability : number;
  trigger : option string;
  explanation : option string;
  whatChanged : string;
  riskLabel : Level;
  oddsMovement : OddsMovement;
  volatility : VolatilityLabel;
  timeToStart : number
}.
End Signal.

Definition books : list string :=
  ["DraftKings"; "FanDuel"; "BetMGM"; "Caesars"; "PointsBet"]%string.

Definition triggers : list string :=
  ["Odds movement over 15 points in 5 minutes";
   "AI probability divergence from market consensus exceeds 8%";
   "Cross-book arbitrage opportunity detected";
   "Sharp money indicators across 3+ books";
   "Historical pattern match with 73% win rate"]%string.

Definition explanations : list string :=
  ["Market overreaction to public sentiment. Our AI model shows the line has moved too far.";
   "Early sharp action from known professional groups. This typically precedes additional movement.";
   "Weather conditions favor the under. Public is heavily on the over, creating value.";
   "Injury news not fully priced in by the market. Model adjusts for lineup impact.";
   "Historical matchup data suggests current line is inefficient by ~6%."]%string.

(** [arr[Math.floor(Math.random() * arr.length)]] for the draw [r]. *)
Definition pick {A : Type} (arr : list A) (r : number) : option A :=
  array_get arr (Math_floor (r * number_of_nat (length arr))%float).

(** The confidence bucket of a score. *)
Definition confidence_of (signalScore : number) : Level :=
  if gtb signalScore 75 then High
  else if gtb signalScore 55 then Medium
  else Low.

(** ** [computeSignalScore] *)

Record ScoreParams := mkScoreParams {
  edgeSize : number;
  speed : number;
  persistence : number;
  marketStability : number;
  historicalPerformance : number
}.

Definition weighted_score (params : ScoreParams) : number :=
  ((edgeSize params * 0.3) + (speed params * 0.2) + (persistence params * 0.2)
   + (marketStability params * 0.1) + (historicalPerformance params * 0.2))%float.

Definition computeSignalScore (params : ScoreParams) : number :=
  let score := weighted_score params in
  Math_min 100 (Math_max 0 (Math_round score)).

(** ** [Array.prototype.sort]

    The sort is stable, and a comparator result that is positive puts its
    first argument after its second; [NaN] and results that are not
    positive leave the two in their order. For a consistent comparator
    this insertion sort returns what every conforming engine returns. *)
Section ArraySort.
Context {A : Type}.
Variable comparefn : A -> A -> number.

Definition sorts_after (x y : A) : bool := PrimFloat.ltb 0 (comparefn x y).

Fixpoint sort_insert (x : A) (l : list A) : list A :=
  match l with
  | [] => [x]
  | y :: l' => if sorts_after x y then y :: sort_insert x l' else x :: y :: l'
  end.

Definition Array_sort (l : list A) : list A := foldr sort_insert [] l.
End ArraySort.

(** ** The key-value store *)

Record Alert := mkAlert {
  alert_id : string;
  alert_body : string;
  createdAt : number
}.

(** The values of the store are JSON texts; the model keeps the value a
    text was serialised from, [JSON.parse (JSON.stringify v)] being [v]
    for the records whose numbers are finite. *)
Inductive json :=
  | JMarketState (m : MarketState.t)
  | JSignal (s : Signal.t)
  | JAlerts (l : list Alert).

Abbreviation Store := (gmap string json).

Record kv_row := mk_row { key : string; value : json }.

(** Modelled from the spec: kv_store.tsx is not among the sources; the
    specification describes it as a key-value accessor used as a JSON blob
    store. [set] writes the value of one key, [get] reads it, and
    [getByPrefix] returns the rows whose key starts with the prefix. *)
Definition kv_set (k : string) (v : json) (s : Store) : Store := <[k := v]> s.

Definition kv_get (k : string) (s : Store) : option json := s !! k.

Definition kv_getByPrefix (p : string) (s : Store) : list kv_row :=
  List.map (fun kv => mk_row kv.1 kv.2)
    (List.filter (fun kv => String.prefix p kv.1) (map_to_list s)).

(** [JSON.parse(k.value) as MarketState] and [as Signal]: the cast is
    unchecked in the program; a value of another shape is outside the
    model ([None]). *)
Definition as_MarketState (v : json) : option MarketState.t :=
  match v with JMarketState m => Some m | _ => None end.

Definition as_Signal (v : json) : option Signal.t :=
  match v with JSignal s => Some s | _ => None end.

(** ** Programs over the environment and the store *)

Record World := mkWorld { env : Env; kv : Store }.

(** A call returns, throws, or does not finish within the fuel of its
    [while] loops. *)
Inductive outcome (A : Type) :=
  | Returned (a : A) (w : World)
  | Thrown (w : World)
  | Diverged.
Arguments Returned {A} a w.
Arguments Thrown {A} w.
Arguments Diverged {A}.

Definition Prog (A : Type) : Type := World -> outcome A.

Definition pret {A : Type} (a : A) : Prog A := fun w => Returned a w.

Definition pbind {A B : Type} (c : Prog A) (k : A -> Prog B) : Prog B :=
  fun w =>
    match c w with
    | Returned a w' => k a w'
    | Thrown w' => Thrown w'
    | Diverged => Diverged
    end.

Notation "'do!' x ':=' c 'in' k" := (pbind c (fun x => k))
  (at level 10, x name, c at level 100, k at level 200).

Definition throw {A : Type} : Prog A := fun w => Thrown w.

Definition lift {A : Type} (c : Gen A) : Prog A := fun w =>
  let (a, e) := c (env w) in Returned a (mkWorld e (kv w)).

Definition set (k : string) (v : json) : Prog unit := fun w =>
  Returned tt (mkWorld (env w) (kv_set k v (kv w))).

Definition get (k : string) : Prog (option json) := fun w =>
  Returned (kv_get k (kv w)) w.

Definition getByPrefix (p : string) : Prog (list kv_row) := fun w =>
  Returned (kv_getByPrefix p (kv w)) w.

(** [rows.map(k => JSON.parse(k.value) as T)]. *)
Fixpoint parse_rows {T : Type} (cast : json -> option T) (rows : list kv_row)
  : Prog (list T) :=
  match rows with
  | [] => pret []
  | k :: rows' =>
      match cast (value k) with
      | Some x => do! xs := parse_rows cast rows' in pret (x :: xs)
      | None => throw
      end
  end.

(** ** [initializeMockMarkets] *)

Definition sports : list string :=
  ["NFL"; "NBA"; "MLB"; "NHL"; "NCAAF"; "NCAAB"]%string.

Definition marketTypes : list string :=
  ["Moneyline"; "Spread"; "Total"; "Player Props"]%string.

Definition teams : list (string * list string) :=
  [("NFL", ["Chiefs"; "Bills"; "49ers"; "Cowboys"; "Eagles"; "Ravens"]);
   ("NBA", ["Lakers"; "Celtics"; "Warriors"; "Nets"; "Bucks"; "Nuggets"]);
   ("MLB", ["Yankees"; "Dodgers"; "Astros"; "Braves"; "Red Sox"; "Mets"]);
   ("NHL", ["Maple Leafs"; "Lightning"; "Avalanche"; "Rangers"; "Bruins"; "Oilers"]);
   ("NCAAF", ["Alabama"; "Georgia"; "Ohio State"; "Michigan"; "Texas"; "USC"]);
   ("NCAAB", ["Duke"; "Kansas"; "UNC"; "Kentucky"; "Gonzaga"; "Villanova"])]%string.

(** [teams[sport]]. *)
Fixpoint teams_get (table : list (string * list string)) (sport : string)
  : option (list string) :=
  match table with
  | [] => None
  | (k, v) :: table' => if String.eqb k sport then Some v else teams_get table' sport
  end.

(** A string or [undefined] inside a template literal. *)
Definition template (o : option string) : string :=
  match o with Some s => s | None => "undefined" end.

Definition same_team (a b : option string) : bool :=
  match a, b with
  | Some x, Some y => String.eqb x y
  | None, None => true
  | _, _ => false
  end.

(** [while (team2 === team1) team2 = sportTeams[...]]. *)
Fixpoint redraw_team2 (fuel : nat) (sportTeams : list string)
    (team1 team2 : option string) : Prog (option string) :=
  if same_team team2 team1 then
    match fuel with
    | O => fun _ => Diverged
    | S fuel' =>
        do! r := lift Math_random in
        redraw_team2 fuel' sportTeams team1 (pick sportTeams r)
    end
  else pret team2.

(** [sportTeams[Math.floor(Math.random() * sportTeams.length)]] when
    [sportTeams] is [undefined]: the draw is made, then reading [length]
    throws a [TypeError]. *)
Definition index_undefined {A : Type} : Prog A :=
  do! _ := lift Math_random in throw.

(** The body of the loop of [initializeMockMarkets] up to the market it
    builds, for the index [i]. [teams[sport]] is [undefined] when [sport]
    is [undefined] or is no key of [teams]. *)
Definition mockMarket (fuel : nat) (i : nat) : Prog MarketState.t :=
  do! r_sport := lift Math_random in
  match pick sports r_sport with
  | None => index_undefined
  | Some sport =>
      match teams_get teams sport with
      | None => index_undefined
      | Some sportTeams =>
          do! r_team1 := lift Math_random in
          let team1 := pick sportTeams r_team1 in
          do! r_team2 := lift Math_random in
          do! team2 := redraw_team2 fuel sportTeams team1 (pick sportTeams r_team2) in
          do! r_type := lift Math_random in
          do! r_implied := lift Math_random in
          do! r_volatility := lift Math_random in
          do! r_momentum := lift Math_random in
          do! now := lift Date_now in
          do! r_update := lift Math_random in
          pret {|
            MarketState.marketId := "market-" +:+ pretty i;
            MarketState.eventId := "event-" +:+ pretty i;
            MarketState.eventName := template team1 +:+ " @ " +:+ template team2;
            MarketState.sport := sport;
            MarketState.marketType := pick marketTypes r_type;
            MarketState.lastOdds :=
              [("DraftKings", -110); ("FanDuel", -108); ("BetMGM", -112)]%float;
            MarketState.impliedProbability := (0.5 + (r_implied - 0.5) * 0.2)%float;
            MarketState.volatility := r_volatility;
            MarketState.momentum := (r_momentum * 2 - 1)%float;
            MarketState.lastUpdate :=
              (number_of_Z now - Math_floor (r_update * 300000))%float;
            MarketState.pollingCadence := 10000%float
          |}
      end
  end.

(** [for (let i = ...; i < ...; i++)] with [n] rounds left. *)
Fixpoint marketLoop (fuel n i : nat) (markets : list MarketState.t)
  : Prog (list MarketState.t) :=
  match n with
  | O => pret markets
  | S n' =>
      do! marketState := mockMarket fuel i in
      do! _ := set ("market:" +:+ MarketState.marketId marketState)
                   (JMarketState marketState) in
      marketLoop fuel n' (S i) (markets ++ [marketState])
  end.

Definition initializeMockMarkets (fuel : nat) : Prog (list MarketState.t) :=
  marketLoop fuel 25 0 [].

Section Engine.

(** The decimal and the radix-36 renderings of a Number
    ([Number.prototype.toString]) are left to the engine. *)
Variable toString10 : number -> string.
Variable toString36 : number -> string.

(** [generateSignal(marketState)]; [None] is [null]. *)
Definition generateSignal (marketState : MarketState.t) : Gen (option Signal.t) :=
  let! now := Date_now in
  let timeSinceUpdate :=
    (number_of_Z now - MarketState.lastUpdate marketState)%float in
  if PrimFloat.ltb (MarketState.volatility marketState) 0.3 then ret None
  else
    let! r_edge := Math_random in
    let edge := (r_edge * 8 + 2)%float in
    let! r_score := Math_random in
    let signalScore :=
      Math_min 100 (Math_round
        ((MarketState.volatility marketState * 40) + (edge * 5)
         + (r_score * 20))%float) in
    let! r_book := Math_random in
    let bestBook := pick books r_book in
    let! r_odds := Math_random in
    let bestOdds := (-110 + Math_floor (r_odds * 40))%float in
    let! r_ai := Math_random in
    let aiProb := (0.5 + (r_ai - 0.5) * 0.3)%float in
    let! r_consensus := Math_random in
    let consensus := (0.5 + (r_consensus - 0.5) * 0.2)%float in
    let! id_now := Date_now in
    let! r_id := Math_random in
    let! r_trigger := Math_random in
    let! r_explanation := Math_random in
    let! r_start := Math_random in
    ret (Some {|
      Signal.id :=
        "signal-" +:+ pretty id_now +:+ "-"
        +:+ String.substring 2 9 (toString36 r_id);
      Signal.eventId := MarketState.eventId marketState;
      Signal.eventName := MarketState.eventName marketState;
      Signal.sport := MarketState.sport marketState;
      Signal.marketType := MarketState.marketType marketState;
      Signal.triggeredAt := number_of_Z now;
      Signal.signalScore := signalScore;
      Signal.edge := edge;
      Signal.confidence :=
        if gtb signalScore 75 then High
        else if gtb signalScore 55 then Medium else Low;
      Signal.bestLine := {|
        book := bestBook;
        odds := bestOdds;
        price := if gtb bestOdds 0 then "+" +:+ toString10 bestOdds
                 else toString10 bestOdds |};
      Signal.consensus := {|
        implied := consensus;
        consensus_odds := Math_round (-110 + (consensus - 0.5) * 100)%float |};
      Signal.aiProbability := aiProb;
      Signal.trigger := pick triggers r_trigger;
      Signal.explanation := pick explanations r_explanation;
      Signal.whatChanged :=
        "Line moved from " +:+ toString10 (bestOdds - 15)%float +:+ " to "
        +:+ toString10 bestOdds
        +:+ " across majority of books in last "
        +:+ toString10 (Math_floor (timeSinceUpdate / 60000)%float)
        +:+ " minutes";
      Signal.riskLabel :=
        if gtb (MarketState.volatility marketState) 0.7 then High
        else if gtb (MarketState.volatility marketState) 0.4 then Medium
        else Low;
      Signal.oddsMovement := {|
        from := (bestOdds - 15)%float;
        to := bestOdds;
        timeWindow := "5m" |};
      Signal.volatility :=
        if gtb (MarketState.volatility marketState) 0.7 then Extreme
        else if gtb (MarketState.volatility marketState) 0.5 then Volatile
        else Normal;
      Signal.timeToStart := (Math_floor (r_start * 180) + 30)%float
    |}).

(** The loop of [generateActiveSignals]: [i] is the index of the first of
    the markets left, [bound] is [Math.min(count, sortedMarkets.length)]. *)
Fixpoint signalLoop (bound : number) (i : nat) (rest : list MarketState.t)
    (signals : list Signal.t) : Prog (list Signal.t) :=
  match rest with
  | [] => pret signals
  | marketState :: rest' =>
      if PrimFloat.ltb (number_of_nat i) bound then
        do! signal := lift (generateSignal marketState) in
        match signal with
        | Some signal =>
            do! _ := set ("signal:" +:+ Signal.id signal) (JSignal signal) in
            signalLoop bound (S i) rest' (signals ++ [signal])
        | None => signalLoop bound (S i) rest' signals
        end
      else pret signals
  end.

Definition by_volatility (a b : MarketState.t) : number :=
  (MarketState.volatility b - MarketState.volatility a)%float.

Definition generateActiveSignals (count : number) : Prog (list Signal.t) :=
  do! marketKeys := getByPrefix "market:" in
  do! markets := parse_rows as_MarketState marketKeys in
  let sortedMarkets := Array_sort by_volatility markets in
  signalLoop (Math_min count (number_of_nat (length sortedMarkets))) 0
    sortedMarkets [].

(** ** The handlers *)

(** [try { ... } catch (error) { ... }]. *)
Definition try_catch {A : Type} (body : Prog A) (handler : Prog A) : Prog A :=
  fun w =>
    match body w with
    | Thrown w' => handler w'
    | r => r
    end.

Inductive InitResponse :=
  | InitOk (markets signals : nat)
  | InitError.

(** [POST /init]. *)
Definition post_init (fuel : nat) : Prog InitResponse :=
  try_catch
    (do! _ := initializeMockMarkets fuel in
     do! activeSignals := generateActiveSignals 15 in
     pret (InitOk 25 (length activeSignals)))
    (pret InitError).

(** A query parameter in a condition: absent and empty are falsy. *)
Definition given (q : option string) : option string :=
  match q with
  | Some EmptyString => None
  | q => q
  end.

Definition is_string (o : option string) (q : string) : bool :=
  match o with Some s => String.eqb s q | None => false end.

Definition minScore_of (minConfidence : string) : number :=
  if String.eqb minConfidence "high" then 75%float
  else if String.eqb minConfidence "medium" then 55%float
  else 0%float.

Definition apply_filters (sport marketType minConfidence : option string)
    (allSignals : list Signal.t) : list Signal.t :=
  let allSignals :=
    match given sport with
    | Some sport => List.filter (fun s => String.eqb (Signal.sport s) sport) allSignals
    | None => allSignals
    end in
  let allSignals :=
    match given marketType with
    | Some marketType =>
        List.filter (fun s => is_string (Signal.marketType s) marketType) allSignals
    | None => allSignals
    end in
  match given minConfidence with
  | Some minConfidence =>
      let minScore := minScore_of minConfidence in
      List.filter (fun s => geb (Signal.signalScore s) minScore) allSignals
  | None => allSignals
  end.

(** Sort by score desc, then time. *)
Definition by_score_then_time (a b : Signal.t) : number :=
  if strict_neq (Signal.signalScore b) (Signal.signalScore a)
  then (Signal.signalScore b - Signal.signalScore a)%float
  else (Signal.triggeredAt b - Signal.triggeredAt a)%float.

Inductive SignalsResponse :=
  | SignalsOk (signals : list Signal.t)
  | SignalsError.

(** [GET /signals]. *)
Definition get_signals (sport marketType minConfidence : option string)
  : Prog SignalsResponse :=
  try_catch
    (do! signalKeys := getByPrefix "signal:" in
     do! allSignals := parse_rows as_Signal signalKeys in
     let allSignals := apply_filters sport marketType minConfidence allSignals in
     pret (SignalsOk (Array_sort by_score_then_time allSignals)))
    (pret SignalsError).

(** [POST /signals/generate]; [requested] is [Number(c.req.query("count"))]. *)
Definition post_signals_generate (requested : number) : Prog SignalsResponse :=
  let count :=
    if PrimFloat.is_nan requested || PrimFloat.is_zero requested
    then 5%float else requested in
  try_catch
    (do! newSignals := generateActiveSignals count in pret (SignalsOk newSignals))
    (pret SignalsError).

Inductive AlertResponse :=
  | AlertOk (alert : Alert)
  | AlertError.

(** [POST /alerts/:userId]; the body is kept as the text it arrived as.
    A stored value that is not an array has no [push], which throws. *)
Definition post_alerts (userId : string) (body : string) : Prog AlertResponse :=
  try_catch
    (do! alertsData := get ("user:" +:+ userId +:+ ":alerts") in
     do! id_now := lift Date_now in
     do! created := lift Date_now in
     let newAlert := {|
       alert_id := "alert-" +:+ pretty id_now;
       alert_body := body;
       createdAt := number_of_Z created |} in
     match alertsData with
     | Some (JAlerts alerts) =>
         do! _ := set ("user:" +:+ userId +:+ ":alerts")
                      (JAlerts (alerts ++ [newAlert])) in
         pret (AlertOk newAlert)
     | None =>
         do! _ := set ("user:" +:+ userId +:+ ":alerts") (JAlerts [newAlert]) in
         pret (AlertOk newAlert)
     | Some _ => throw
     end)
    (pret AlertError).

(** One request served: the three handlers that write to the store, or
    one of the others, which only read it (and may call [Math.random]
    and [Date.now]). *)
Inductive step : World -> World -> Prop :=
  | step_init fuel w r w' :
      post_init fuel w = Returned r w' -> step w w'
  | step_generate requested w r w' :
      post_signals_generate requested w = Returned r w' -> step w w'
  | step_alerts userId body w r w' :
      post_alerts userId body w = Returned r w' -> step w w'
  | step_read w e' :
      random_values e' = random_values (env w) ->
      time_values e' = time_values (env w) ->
      step w (mkWorld e' (kv w)).

End Engine.

(** A call of [computeSignalScore] as a program over the environment and
    the store: the function names neither. *)
Definition call_computeSignalScore (params : ScoreParams) : Prog number :=
  pret (computeSignalScore params).

(** ** Reference definitions *)

(** [r] is [x] clamped into [[lo, hi]]: the bound that [x] is beyond,
    else [x] itself (as a Number: [-0] and [+0] are the same); [NaN]
    is carried through by [Math.max] and [Math.min]. *)
Definition clamped_into (lo hi x r : number) : Prop :=
  (PrimFloat.ltb x lo = true -> r = lo) /\
  (PrimFloat.ltb hi x = true -> r = hi) /\
  (PrimFloat.leb lo x = true -> PrimFloat.leb x hi = true ->
   PrimFloat.eqb r x = true) /\
  (PrimFloat.is_nan x = true -> PrimFloat.is_nan r = true).

(** [lo <= x <= hi] on Numbers. *)
Definition in_range (lo hi x : number) : Prop :=
  PrimFloat.leb lo x = true /\ PrimFloat.leb x hi = true.

(** The volatility of a market is in [[0, 1]]. *)
Definition volatility_in_unit (m : MarketState.t) : Prop :=
  in_range 0 1 (MarketState.volatility m).

(** Every market in the store has a volatility in [[0, 1]]. *)
Definition markets_bounded (s : Store) : Prop :=
  forall k m, s !! k = Some (JMarketState m) -> volatility_in_unit m.

(** The score and the time of a Signal are not [NaN]. *)
Definition numbers_defined (s : Signal.t) : Prop :=
  PrimFloat.is_nan (Signal.signalScore s) = false /\
  PrimFloat.is_nan (Signal.triggeredAt s) = false.

(** Score descending, ties by time descending. *)
Definition score_desc_then_time (a b : Signal.t) : Prop :=
  gtb (Signal.signalScore a) (Signal.signalScore b) = true \/
  (PrimFloat.eqb (Signal.signalScore a) (Signal.signalScore b) = true /\
   geb (Signal.triggeredAt a) (Signal.triggeredAt b) = true).

(** [s] is stored under a key that starts with [signal:]. *)
Definition stored_signal (w : World) (s : Signal.t) : Prop :=
  exists k, String.prefix "signal:" k = true /\ kv w !! k = Some (JSignal s).

(** A filter of [GET /signals] lets the field through. *)
Definition passes_sport (sport : option string) (s : Signal.t) : bool :=
  match given sport with
  | Some sport => String.eqb (Signal.sport s) sport
  | None => true
  end.

Definition passes_marketType (marketType : option string) (s : Signal.t) : bool :=
  match given marketType with
  | Some marketType => is_string (Signal.marketType s) marketType
  | None => true
  end.

Definition passes_minConfidence (minConfidence : option string) (s : Signal.t) : bool :=
  match given minConfidence with
  | Some minConfidence => geb (Signal.signalScore s) (minScore_of minConfidence)
  | None => true
  end.

(** The prefix of a key tells the shape of its value: the handlers write
    markets under [market:], Signals under [signal:] and alert lists
    under [user:]. *)
Definition key_fits (k : string) (v : json) : bool :=
  match v with
  | JMarketState _ => String.prefix "market:" k
  | JSignal _ => String.prefix "signal:" k
  | JAlerts _ => String.prefix "user:" k
  end.

(** Every value of the store sits under a key of its shape. *)
Definition store_typed (s : Store) : Prop :=
  forall k v, s !! k = Some v -> key_fits k v = true.

(** [kv.set] of one market, of one Signal. *)
Definition write_market (s : Store) (m : MarketState.t) : Store :=
  kv_set ("market:" +:+ MarketState.marketId m) (JMarketState m) s.

Definition write_signal (s : Store) (g : Signal.t) : Store :=
  kv_set ("signal:" +:+ Signal.id g) (JSignal g) s.

(** The key of the [i]-th market of [initializeMockMarkets]. *)
Definition market_key (i : nat) : string := "market:market-" +:+ pretty i.

(** Both environments read the same sources. *)
Definition same_sources (e e' : Env) : Prop :=
  random_values e' = random_values e /\ time_values e' = time_values e.

(** The redraws of [team2] end: after every draw, one of the next
    [fuel + 1] draws picks another team, whatever the sport is. *)
Definition redraws_end (fuel : nat) (e : Env) : Prop :=
  forall sport sportTeams n,
    teams_get teams sport = Some sportTeams ->
    exists k, (k <= fuel)%nat /\
      same_team (pick sportTeams (random_values e (S n + k)))
                (pick sportTeams (random_values e n)) = false.

(** The value of a call that returns. *)
Definition returned_value {A : Type} (r : outcome A) : option A :=
  match r with
  | Returned a _ => Some a
  | _ => None
  end.

(** The list in the response of [GET /signals]. *)
Definition returned_signals (r : outcome SignalsResponse) : option (list Signal.t) :=
  match r with
  | Returned (SignalsOk l) _ => Some l
  | _ => None
  end.

(** The two counts in the response of the init handler. *)
Definition init_counts (r : outcome InitResponse) : option (nat * nat) :=
  match r with
  | Returned (InitOk nm ns) _ => Some (nm, ns)
  | _ => None
  end.

(** ** Binary64 representations *)

(** The sign of a Number of the model; [NaN] has none. *)
Definition has_sign (s : bool) (x : spec_float) : Prop :=
  match x with
  | S754_zero s' | S754_infinity s' | S754_finite s' _ _ => s' = s
  | S754_nan => False
  end.

(** Zero of either sign, or a Number above zero. *)
Definition nonneg (x : spec_float) : Prop :=
  match x with
  | S754_zero _ => True
  | S754_infinity s | S754_finite s _ _ => s = false
  | S754_nan => False
  end.

(** The sign of a Number that is neither zero nor [NaN]. *)
Definition strict_sign (s : bool) (x : spec_float) : Prop :=
  match x with
  | S754_finite s' _ _ | S754_infinity s' => s' = s
  | _ => False
  end.

(** A finite Number above zero. *)
Definition positive_finite (y : number) : bool :=
  match Prim2SF y with
  | S754_finite false _ _ => true
  | _ => false
  end.

(** The signed mantissa of [(-1)^s * m * 2^e] at the exponent
    [min e ez]. *)
Definition aligned (s : bool) (m : positive) (e ez : Z) : Z :=
  cond_Zopp s (Z.pos (fst (shl_align m e ez))).

(** ** Sample inputs *)

(** A sample engine: [toString(10)] on the integers that the program
    prints, and one base-36 text. *)
Definition sample_toString10 (x : number) : string :=
  match integer_value x with
  | Some z => pretty z
  | None => "NaN"
  end.

Definition sample_toString36 (x : number) : string := "0.4fzyo82mvyr".

(** A sample environment: the draws 0.11, 0.48, 0.85, ... and a clock
    that advances by a second at each read. *)
Definition sample_random (n : nat) : number :=
  (number_of_nat ((n * 37 + 11) mod 100) / 100)%float.

Definition sample_time (n : nat) : Z := 1700000000000 + 1000 * Z.of_nat n.

Definition sample_env : Env := mkEnv sample_random 0 sample_time 0.

(** A market in the shape of [initializeMockMarkets], with the given
    volatility. *)
Definition sample_market (volatility : number) : MarketState.t := {|
  MarketState.marketId := "market-0";
  MarketState.eventId := "event-0";
  MarketState.eventName := "Chiefs @ Bills";
  MarketState.sport := "NFL";
  MarketState.marketType := Some "Spread"%string;
  MarketState.lastOdds :=
    [("DraftKings", -110); ("FanDuel", -108); ("BetMGM", -112)]%float;
  MarketState.impliedProbability := 0.5%float;
  MarketState.volatility := volatility;
  MarketState.momentum := 0.25%float;
  MarketState.lastUpdate := 1699999940000%float;
  MarketState.pollingCadence := 10000%float
|}.

(** The draws of [sample_env] never pick the same team twice in a row. *)
Definition sample_redraw_check : bool :=
  forallb (fun sportTeams =>
    forallb (fun a =>
      negb (same_team
              (pick sportTeams (number_of_nat ((a + 37) mod 100) / 100)%float)
              (pick sportTeams (number_of_nat a / 100)%float)))
      (seq 0 100))
    (List.map snd teams).

(** A sample store: three Signals written by the loop of
    [generateActiveSignals]. *)
Definition sample_world : World :=
  match signalLoop sample_toString10 sample_toString36 3 0
          [sample_market 0.665; sample_market 0.9; sample_market 0.35] []
          (mkWorld (mkEnv sample_random 2 sample_time 0) ∅) with
  | Returned _ w => w
  | _ => mkWorld sample_env ∅
  end.

(** The first Signal of [sample_world], as [generateSignal] returns it. *)
Definition sample_generated : option Signal.t :=
  fst (generateSignal sample_toString10 sample_toString36
         (sample_market 0.665) (mkEnv sample_random 2 sample_time 0)).

(** The key of the Signal of [sample_generated] in [sample_world]. *)
Definition stale_key : string := "signal:signal-1700000001000-4fzyo82mv".

Definition Level_eqb (a b : Level) : bool :=
  match a, b with
  | Low, Low | Medium, Medium | High, High => true
  | _, _ => false
  end.

(** A stored value, when it is a Signal, has a score and a time that are
    not [NaN] and the confidence of its score. *)
Definition signal_checked (v : json) : bool :=
  match v with
  | JSignal s =>
      negb (PrimFloat.is_nan (Signal.signalScore s))
      && negb (PrimFloat.is_nan (Signal.triggeredAt s))
      && Level_eqb (Signal.confidence s) (confidence_of (Signal.signalScore s))
  | _ => true
  end.

(** ** The other handlers of the server *)

Inductive SignalByIdResponse :=
  | SignalFound (signal : json)
  | SignalNotFound
  | SignalByIdError.

(** [GET /signals/:id]. *)
Definition get_signal_by_id (id : string) : Prog SignalByIdResponse :=
  try_catch
    (do! signalData := get ("signal:" +:+ id) in
     match signalData with
     | None => pret SignalNotFound
     | Some signal => pret (SignalFound signal)
     end)
    (pret SignalByIdError).

Record HistoryPoint := mkHistoryPoint {
  timestamp : number;
  history_consensus : number;
  history_aiProbability : number;
  history_best : number
}.

Record BookOdds := mkBookOdds {
  book_name : string;
  book_odds : number;
  updated : number
}.

Inductive MarketResponse :=
  | MarketFound (market : json) (history : list HistoryPoint)
      (books : list BookOdds)
  | MarketNotFound
  | MarketError.

Section MarketDetail.

(** [Math.sin] and [Math.cos] are left to the engine. *)
Variable Math_sin : number -> number.
Variable Math_cos : number -> number.

(** One point of the chart, for the loop index [i]. *)
Definition historyPoint (now : number) (i : nat) : Gen HistoryPoint :=
  let i := number_of_nat i in
  let! r_consensus := Math_random in
  let! r_ai := Math_random in
  let! r_best := Math_random in
  ret {|
    timestamp := (now - (i * 60000))%float;
    history_consensus :=
      (-110 + Math_sin (i / 10) * 5 + (r_consensus - 0.5) * 2)%float;
    history_aiProbability :=
      (-108 + Math_cos (i / 8) * 4 + (r_ai - 0.5) * 2)%float;
    history_best :=
      (-112 + Math_sin (i / 12) * 6 + (r_best - 0.5) * 2)%float
  |}.

(** [for (let i = 60; i >= 0; i--) history.push(...)], from the index [i]. *)
Fixpoint historyLoop (now : number) (i : nat) (history : list HistoryPoint)
  : Gen (list HistoryPoint) :=
  let! point := historyPoint now i in
  match i with
  | O => ret (history ++ [point])
  | S i' => historyLoop now i' (history ++ [point])
  end.

(** [GET /markets/:id]. *)
Definition get_market (id : string) : Prog MarketResponse :=
  try_catch
    (do! marketData := get ("market:" +:+ id) in
     match marketData with
     | None => pret MarketNotFound
     | Some market =>
         do! now := lift Date_now in
         let now := number_of_Z now in
         do! history := lift (historyLoop now 60 []) in
         pret (MarketFound market history
                 [ mkBookOdds "DraftKings" (-110) (now - 120000);
                   mkBookOdds "FanDuel" (-108) (now - 90000);
                   mkBookOdds "BetMGM" (-112) (now - 180000);
                   mkBookOdds "Caesars" (-109) (now - 150000);
                   mkBookOdds "PointsBet" (-115) (now - 240000) ]%float)
     end)
    (pret MarketError).

End MarketDetail.

Inductive AlertsResponse :=
  | AlertsOk (alerts : json)
  | AlertsError.

(** [GET /alerts/:userId]: the stored value, or [[]] when there is none. *)
Definition get_alerts (userId : string) : Prog AlertsResponse :=
  try_catch
    (do! alertsData := get ("user:" +:+ userId +:+ ":alerts") in
     pret (AlertsOk match alertsData with
                    | Some alerts => alerts
                    | None => JAlerts []
                    end))
    (pret AlertsError).

(** [POST /alerts/:userId] from the request: [c.req.json()] rejects a body
    that is not a JSON text ([None]) before the store is read. *)
Definition post_alerts_request (userId : string) (body : option string)
  : Prog AlertResponse :=
  match body with
  | Some body => post_alerts userId body
  | None => try_catch throw (pret AlertError)
  end.

Record PerformancePoint := mkPerformancePoint {
  date : number;
  point_winRate : number;
  point_avgCLV : number;
  signalCount : number
}.

Record ByConfidence := mkByConfidence {
  count_high : nat;
  count_medium : nat;
  count_low : nat
}.

(** A value of [bySport]: a count, or the text that [+ 1] makes of a
    value that is no number. Counts are natural numbers (a Number counts
    exactly below [2^53]). *)
Inductive tally :=
  | Count (n : nat)
  | Text (s : string).

(** What [{}] inherits from [Object.prototype] under a property name: a
    function such as [constructor] or [toString], with the text that the
    function is converted to, or the accessor [__proto__], which reads
    as the prototype object and whose setter drops a value that is no
    object. *)
Inductive inherited :=
  | Method (text : string)
  | Accessor.

Record AnalyticsData := mkAnalyticsData {
  totalSignals : nat;
  bySport : gmap string tally;
  byConfidence : ByConfidence;
  performanceHistory : list PerformancePoint;
  avgSignalScore : number;
  winRate : number;
  avgCLV : number;
  roi : number
}.

Inductive AnalyticsResponse :=
  | AnalyticsOk (data : AnalyticsData)
  | AnalyticsError.

Section Analytics.
(** The properties that the runtime's [Object.prototype] has, by name. *)
Variable Object_prototype : string -> option inherited.

(** [(acc[sport] || 0) + 1] for the own property [own] of [acc], if there
    is one: zero and the empty text count as no value; a text, and a
    value inherited from [Object.prototype], gets the text [1] appended. *)
Definition bump (own : option tally) (proto : option inherited) : tally :=
  match own with
  | Some (Count n) => Count (S n)
  | Some (Text "") => Count 1
  | Some (Text s) => Text (s +:+ "1")
  | None =>
      match proto with
      | Some (Method text) => Text (text +:+ "1")
      | Some Accessor => Text "[object Object]1"
      | None => Count 1
      end
  end.

(** [acc[signal.sport] = (acc[signal.sport] || 0) + 1; return acc], where
    [acc] is an object that started as [{}]: a name that [acc] does not
    own is read from [Object.prototype], and a write to an inherited
    accessor goes to its setter, which drops the value. *)
Definition count_sport (acc : gmap string tally) (signal : Signal.t)
  : gmap string tally :=
  let sport := Signal.sport signal in
  let value := bump (acc !! sport) (Object_prototype sport) in
  match acc !! sport, Object_prototype sport with
  | None, Some Accessor => acc
  | _, _ => <[sport := value]> acc
  end.

Definition has_confidence (c : Level) (s : Signal.t) : bool :=
  Level_eqb (Signal.confidence s) c.

(** One point of the performance chart, for the loop index [i]. *)
Definition performancePoint (i : nat) : Gen PerformancePoint :=
  let! now := Date_now in
  let! r_win := Math_random in
  let! r_clv := Math_random in
  let! r_count := Math_random in
  ret {|
    date := (number_of_Z now - (number_of_nat i * 86400000))%float;
    point_winRate := (0.55 + r_win * 0.15)%float;
    point_avgCLV := (2 + r_clv * 3)%float;
    signalCount := (Math_floor (r_count * 20) + 5)%float
  |}.

(** [for (let i = 30; i >= 0; i--) performanceHistory.push(...)]. *)
Fixpoint performanceLoop (i : nat) (performanceHistory : list PerformancePoint)
  : Gen (list PerformancePoint) :=
  let! point := performancePoint i in
  match i with
  | O => ret (performanceHistory ++ [point])
  | S i' => performanceLoop i' (performanceHistory ++ [point])
  end.

(** [GET /analytics]. *)
Definition get_analytics : Prog AnalyticsResponse :=
  try_catch
    (do! signalKeys := getByPrefix "signal:" in
     do! allSignals := parse_rows as_Signal signalKeys in
     let bySport := fold_left count_sport allSignals ∅ in
     let byConfidence := {|
       count_high := length (List.filter (has_confidence High) allSignals);
       count_medium := length (List.filter (has_confidence Medium) allSignals);
       count_low := length (List.filter (has_confidence Low) allSignals) |} in
     do! performanceHistory := lift (performanceLoop 30 []) in
     pret (AnalyticsOk {|
       totalSignals := length allSignals;
       bySport := bySport;
       byConfidence := byConfidence;
       performanceHistory := performanceHistory;
       avgSignalScore :=
         (fold_left (fun sum s => sum + Signal.signalScore s) allSignals 0
          / number_of_nat (length allSignals))%float;
       winRate := 0.582%float;
       avgCLV := 3.2%float;
       roi := 8.7%float |}))
    (pret AnalyticsError).

End Analytics.

(** ** The client (LiveSignalFeed.tsx, MarketDetail.tsx) *)

(** [getScoreColor(score)]. *)
Definition getScoreColor (score : number) : string :=
  if geb score 75 then "bg-green-500"
  else if geb score 55 then "bg-yellow-500"
  else "bg-gray-500".

Fixpoint string_skip (n : nat) (s : string) : string :=
  match n, s with
  | S n', String _ s' => string_skip n' s'
  | _, _ => s
  end.

(** [s.replace(pattern, replacement)] for a string pattern: the first
    occurrence is replaced ([replacement] holds no [$]). *)
Fixpoint String_replace (pattern replacement s : string) : string :=
  if String.prefix pattern s
  then replacement +:+ string_skip (String.length pattern) s
  else match s with
       | EmptyString => s
       | String a s' => String a (String_replace pattern replacement s')
       end.

(** The market that a click on a signal card opens:
    [onMarketClick(signal.eventId.replace('event-', 'market-'))], then
    [fetch(`${apiUrl}/markets/${marketId}`)]. *)
Definition marketId_of_signal (signal : Signal.t) : string :=
  String_replace "event-" "market-" (Signal.eventId signal).

(** [books.reduce((best, book) => book.odds > best.odds ? book : best,
    books[0])]; [None] is [undefined]. *)
Definition bestBook (books : list BookOdds) : option BookOdds :=
  match books with
  | [] => None
  | first :: _ =>
      Some (fold_left
              (fun best book =>
                 if gtb (book_odds book) (book_odds best) then book else best)
              books first)
  end.

(** The store after [POST /init] on the empty store, in the sample
    environment. *)
Definition sample_init_world : World :=
  match post_init sample_toString10 sample_toString36 10
          (mkWorld sample_env ∅) with
  | Returned _ w => w
  | _ => mkWorld sample_env ∅
  end.

(** A stand-in for [Math.sin] and [Math.cos] in the samples. *)
Definition sample_wave (x : number) : number := 0%float.

(** A table of [Object.prototype] for the examples: the text of
    [constructor] as V8 prints it, and the accessor [__proto__]. *)
Definition sample_prototype (name : string) : option inherited :=
  if String.eqb name "constructor" then
    Some (Method "function Object() { [native code] }")
  else if String.eqb name "__proto__" then Some Accessor
  else None.

(** ** Reference definitions for the further properties *)

(** What [initializeMockMarkets] writes into a market besides the draws. *)
Definition market_labelled (i : nat) (m : MarketState.t) : Prop :=
  MarketState.marketId m = ("market-" +:+ pretty i)%string /\
  MarketState.eventId m = ("event-" +:+ pretty i)%string /\
  MarketState.lastOdds m
    = [("DraftKings", -110); ("FanDuel", -108); ("BetMGM", -112)]%float%string /\
  MarketState.pollingCadence m = 10000%float.

(** The event of a market: two different teams of its sport. *)
Definition market_matchup (m : MarketState.t) : Prop :=
  exists sportTeams team1 team2,
    In (MarketState.sport m) sports /\
    teams_get teams (MarketState.sport m) = Some sportTeams /\
    In team1 sportTeams /\ In team2 sportTeams /\ team1 <> team2 /\
    MarketState.eventName m = (team1 +:+ " @ " +:+ team2)%string.

(** Every stored market sits under the key of its [marketId] and names
    the event of the same index. *)
Definition markets_keyed (s : Store) : Prop :=
  forall k m, s !! k = Some (JMarketState m) ->
    exists i, market_labelled i m /\ k = market_key i.

(** The feed is linked: the stored markets are keyed, and every stored
    Signal names the event of a stored market. *)
Definition feed_linked (s : Store) : Prop :=
  markets_keyed s /\
  forall k g, s !! k = Some (JSignal g) ->
    exists i m, Signal.eventId g = ("event-" +:+ pretty i)%string /\
      s !! market_key i = Some (JMarketState m).

Definition holds_market (s : Store) (k : string) : Prop :=
  exists m, s !! k = Some (JMarketState m).

(** The text of [k] signs [1]. *)
Fixpoint ones (k : nat) : string :=
  match k with
  | O => ""
  | S k' => "1" +:+ ones k'
  end.

(** The entry of [bySport] for a sport with [k] stored Signals, where
    [proto] is what [{}] inherits under the sport's name. *)
Definition sport_entry (proto : option inherited) (k : nat) : option tally :=
  match k, proto with
  | O, _ => None
  | _, None => Some (Count k)
  | _, Some (Method text) => Some (Text (text +:+ ones k))
  | _, Some Accessor => None
  end.

(** The own property of [acc] under a sport after one more Signal of
    that sport. *)
Definition next_entry (proto : option inherited) (own : option tally)
  : option tally :=
  match own, proto with
  | None, Some Accessor => None
  | _, _ => Some (bump own proto)
  end.

(** A Number that is not [NaN] as a multiple of [2^-1074]; the
    infinities lie beyond every finite Number. *)
Definition ordinal (x : spec_float) : Z :=
  match x with
  | S754_zero _ => 0
  | S754_infinity s => cond_Zopp s (2 ^ 2100)
  | S754_nan => 0
  | S754_finite s m e => cond_Zopp s (Z.pos m * 2 ^ (e + 1074))
  end.

Definition ord (x : number) : Z := ordinal (Prim2SF x).

Definition better_book (best book : BookOdds) : BookOdds :=
  if gtb (book_odds book) (book_odds best) then book else best.

(** [best] is the first book of [books] with the highest odds. *)
Definition first_best (books : list BookOdds) (best : BookOdds) : Prop :=
  exists before after,
    books = before ++ best :: after /\
    (forall b, In b before ->
       PrimFloat.ltb (book_odds b) (book_odds best) = true) /\
    (forall b, In b after ->
       PrimFloat.leb (book_odds b) (book_odds best) = true).

Definition volatility_rank (l : VolatilityLabel) : nat :=
  match l with Stable => 0 | Normal => 1 | Volatile => 2 | Extreme => 3 end.

Definition risk_rank (l : Level) : nat :=
  match l with Low => 0 | Medium => 1 | High => 2 end.

(** The Signal [b] is of a market that is no more volatile than the
    market of [a], as far as the two labels tell. *)
Definition calmer (a b : Signal.t) : Prop :=
  (volatility_rank (Signal.volatility b) <= volatility_rank (Signal.volatility a))%nat /\
  (risk_rank (Signal.riskLabel b) <= risk_rank (Signal.riskLabel a))%nat.

(** Volatility descending. *)
Definition volatility_desc (a b : MarketState.t) : Prop :=
  PrimFloat.leb (MarketState.volatility b) (MarketState.volatility a) = true.

(** A Number that is normal and above zero. *)
Definition normal_factor (cf : number) : Prop :=
  exists C ec, Prim2SF cf = S754_finite false C ec /\
    2 ^ 52 <= Z.pos C /\ -1074 < ec.

(** [x] is the whole number [k], with [-0] for one of the zeros. *)
Definition whole (x : number) (k : Z) : Prop :=
  x = number_of_Z k \/ (k = 0 /\ x = PrimFloat.neg_zero).

(** [P] holds of [0], ..., [n - 1]. *)
Definition all_below (n : nat) (P : Z -> bool) : bool :=
  forallb (fun k => P (Z.of_nat k)) (seq 0 n).

(** The odds [-110 + k] of a best line, the odds 15 points before, and
    their order; the odds are not above zero. *)
Definition odds_check (k : Z) : bool :=
  let x := (-110 + number_of_Z k)%float in
  PrimFloat.Leibniz.eqb x (number_of_Z (-110 + k))
  && PrimFloat.Leibniz.eqb (x - 15)%float (number_of_Z (-110 + k - 15))
  && negb (PrimFloat.ltb 0 x)
  && PrimFloat.ltb (x - 15)%float x.

Definition start_check (k : Z) : bool :=
  PrimFloat.Leibniz.eqb (number_of_Z k + 30)%float (number_of_Z (k + 30)).

Definition count_check (k : Z) : bool :=
  PrimFloat.Leibniz.eqb (number_of_Z k + 5)%float (number_of_Z (k + 5)).

(** * Properties *)

(** ** Comparisons of Numbers *)

Lemma SFcompare_antisym x y c :
  SFcompare x y = Some c -> SFcompare y x = Some (CompOpp c).
Proof.
  destruct x as [sx|sx| |sx mx ex], y as [sy|sy| |sy my ey]; simpl;
    intros H; inversion H; subst; clear H;
    try (destruct sx; reflexivity); try (destruct sy; reflexivity);
    try (destruct sx, sy; reflexivity).
  destruct sx, sy; try reflexivity; f_equal;
    rewrite (Z.compare_antisym ex ey);
    destruct (ex ?= ey); simpl; try reflexivity;
    try apply (f_equal CompOpp);
    symmetry; exact (Pos.compare_cont_antisym mx my Eq).
Qed.

Lemma SFcompare_refl x : x <> S754_nan -> SFcompare x x = Some Eq.
Proof.
  destruct x as [s|s| |s m e]; simpl; intros H; try congruence;
    try (destruct s; reflexivity).
  destruct s; rewrite Z.compare_refl, Pos.compare_cont_refl; reflexivity.
Qed.

Lemma SFcompare_None x y :
  SFcompare x y = None <-> x = S754_nan \/ y = S754_nan.
Proof.
  destruct x as [sx|sx| |sx mx ex], y as [sy|sy| |sy my ey]; simpl;
    split; intros H; try discriminate; auto;
    destruct H as [H|H]; discriminate.
Qed.

Lemma is_nan_SF x : PrimFloat.is_nan x = true <-> Prim2SF x = S754_nan.
Proof.
  unfold PrimFloat.is_nan. rewrite FloatAxioms.eqb_spec. unfold SFeqb. split.
  - intros H. destruct (Prim2SF x) as [s|s| |s m e] eqn:E; auto;
      rewrite SFcompare_refl in H by discriminate; discriminate.
  - intros ->. reflexivity.
Qed.

Lemma is_nan_false_SF x : PrimFloat.is_nan x = false <-> Prim2SF x <> S754_nan.
Proof.
  rewrite <- is_nan_SF. destruct (PrimFloat.is_nan x); split; congruence.
Qed.

Lemma num_ltb_SF x y :
  PrimFloat.ltb x y = true <-> SFcompare (Prim2SF x) (Prim2SF y) = Some Lt.
Proof.
  rewrite FloatAxioms.ltb_spec. unfold SFltb.
  destruct (SFcompare _ _) as [[]|]; split; congruence.
Qed.

Lemma num_leb_SF x y :
  PrimFloat.leb x y = true <->
  SFcompare (Prim2SF x) (Prim2SF y) = Some Lt \/
  SFcompare (Prim2SF x) (Prim2SF y) = Some Eq.
Proof.
  rewrite FloatAxioms.leb_spec. unfold SFleb.
  destruct (SFcompare _ _) as [[]|]; split; intros H; auto; try discriminate;
    destruct H; discriminate.
Qed.

Lemma num_eqb_SF x y :
  PrimFloat.eqb x y = true <-> SFcompare (Prim2SF x) (Prim2SF y) = Some Eq.
Proof.
  rewrite FloatAxioms.eqb_spec. unfold SFeqb.
  destruct (SFcompare _ _) as [[]|]; split; congruence.
Qed.

Lemma num_ltb_not_nan x y :
  PrimFloat.ltb x y = true -> PrimFloat.is_nan x = false /\ PrimFloat.is_nan y = false.
Proof.
  rewrite num_ltb_SF, !is_nan_false_SF. intros H.
  split; intros E; rewrite E in H; simpl in H; try discriminate.
  destruct (Prim2SF x); discriminate.
Qed.

Lemma num_leb_not_nan x y :
  PrimFloat.leb x y = true -> PrimFloat.is_nan x = false /\ PrimFloat.is_nan y = false.
Proof.
  rewrite num_leb_SF, !is_nan_false_SF. intros H.
  split; intros E; rewrite E in H; simpl in H;
    try (destruct H; discriminate).
  destruct (Prim2SF x); destruct H; discriminate.
Qed.

Lemma num_ltb_asym x y : PrimFloat.ltb x y = true -> PrimFloat.ltb y x = false.
Proof.
  rewrite num_ltb_SF. intros H. apply SFcompare_antisym in H.
  rewrite FloatAxioms.ltb_spec. unfold SFltb. rewrite H. reflexivity.
Qed.

Lemma num_ltb_leb x y : PrimFloat.ltb x y = true -> PrimFloat.leb x y = true.
Proof. rewrite num_ltb_SF, num_leb_SF. auto. Qed.

Lemma num_leb_not_ltb x y : PrimFloat.leb x y = true -> PrimFloat.ltb y x = false.
Proof.
  rewrite num_leb_SF. intros [H|H]; apply SFcompare_antisym in H;
    rewrite FloatAxioms.ltb_spec; unfold SFltb; rewrite H; reflexivity.
Qed.

Lemma num_eqb_leb x y : PrimFloat.eqb x y = true -> PrimFloat.leb x y = true.
Proof. rewrite num_eqb_SF, num_leb_SF. auto. Qed.

Lemma num_eqb_sym x y : PrimFloat.eqb x y = true -> PrimFloat.eqb y x = true.
Proof. rewrite !num_eqb_SF. intros H. apply SFcompare_antisym in H. exact H. Qed.

Lemma num_eqb_refl x : PrimFloat.is_nan x = false -> PrimFloat.eqb x x = true.
Proof.
  rewrite is_nan_false_SF, num_eqb_SF. apply SFcompare_refl.
Qed.

(** Two Numbers that are not [NaN] are ordered one way or the other. *)
Lemma num_not_ltb_leb x y :
  PrimFloat.is_nan x = false -> PrimFloat.is_nan y = false ->
  PrimFloat.ltb x y = false -> PrimFloat.leb y x = true.
Proof.
  rewrite !is_nan_false_SF, FloatAxioms.ltb_spec, num_leb_SF. unfold SFltb. intros Hx Hy H.
  destruct (SFcompare (Prim2SF x) (Prim2SF y)) as [c|] eqn:E.
  - apply SFcompare_antisym in E. rewrite E.
    destruct c; simpl; auto; discriminate.
  - apply SFcompare_None in E. tauto.
Qed.

Lemma num_not_ltb_both_eqb x y :
  PrimFloat.is_nan x = false -> PrimFloat.is_nan y = false ->
  PrimFloat.ltb x y = false -> PrimFloat.ltb y x = false ->
  PrimFloat.eqb x y = true.
Proof.
  rewrite !is_nan_false_SF, !FloatAxioms.ltb_spec, num_eqb_SF. unfold SFltb. intros Hx Hy H1 H2.
  destruct (SFcompare (Prim2SF x) (Prim2SF y)) as [c|] eqn:E.
  - pose proof (SFcompare_antisym _ _ _ E) as E'. rewrite E' in H2.
    destruct c; simpl in *; auto; discriminate.
  - apply SFcompare_None in E. tauto.
Qed.

Lemma num_ltb_not_eqb x y : PrimFloat.ltb x y = true -> PrimFloat.eqb x y = false.
Proof.
  rewrite num_ltb_SF, FloatAxioms.eqb_spec. unfold SFeqb. intros ->. reflexivity.
Qed.

Lemma num_eqb_comm x y : PrimFloat.eqb x y = PrimFloat.eqb y x.
Proof.
  destruct (PrimFloat.eqb x y) eqn:E.
  - symmetry. apply num_eqb_sym, E.
  - destruct (PrimFloat.eqb y x) eqn:E'; [|reflexivity].
    apply num_eqb_sym in E'. congruence.
Qed.

Lemma num_leb_cases x y :
  PrimFloat.leb x y = true -> PrimFloat.ltb x y = true \/ PrimFloat.eqb x y = true.
Proof. rewrite num_leb_SF, num_ltb_SF, num_eqb_SF. auto. Qed.

Lemma SFcompare_Eq_finite x s m e :
  SFcompare x (S754_finite s m e) = Some Eq -> x = S754_finite s m e.
Proof.
  destruct x as [sx|sx| |sx mx ex]; simpl; try discriminate;
    try (destruct sx; discriminate); try (destruct s; discriminate).
  destruct sx, s; try discriminate;
    destruct (Z.compare_spec ex e) as [->|?|?]; try discriminate;
    intros H; injection H as H;
    rewrite Pos.compare_cont_spec in H;
    destruct (Pos.compare_spec mx m) as [->|?|?]; try discriminate;
    reflexivity.
Qed.

Lemma eqb_75 x : PrimFloat.eqb x 75 = true -> x = 75%float.
Proof.
  rewrite num_eqb_SF. intros H. apply Prim2SF_inj.
  change (Prim2SF 75) with (S754_finite false 5277655813324800 (-46)) in *.
  apply SFcompare_Eq_finite, H.
Qed.

Lemma confidence_of_75 : confidence_of 75 = Medium.
Proof. vm_compute. reflexivity. Qed.

(** ** [Math.min(100, Math.max(0, x))] *)

Lemma above_100_positive x :
  PrimFloat.ltb 100 x = true -> PrimFloat.ltb 0 x = true.
Proof.
  rewrite !num_ltb_SF.
  change (Prim2SF 100) with (S754_finite false 7036874417766400 (-46)).
  change (Prim2SF 0) with (S754_zero false).
  destruct (Prim2SF x) as [s|s| |s m e]; simpl; try discriminate;
    destruct s; auto; discriminate.
Qed.

Lemma Math_max_0_nan x :
  PrimFloat.is_nan x = true -> Math_max 0 x = PrimFloat.nan.
Proof. intros H. unfold Math_max. rewrite H, orb_true_r. reflexivity. Qed.

Lemma Math_max_0_cases x :
  PrimFloat.is_nan x = false ->
  (PrimFloat.ltb 0 x = true /\ Math_max 0 x = x) \/
  (PrimFloat.ltb 0 x = false /\ Math_max 0 x = 0%float).
Proof.
  intros H. unfold Math_max. rewrite H.
  change (PrimFloat.is_nan 0) with false. simpl.
  destruct (PrimFloat.ltb 0 x) eqn:E; [left; auto|right; split; auto].
  destruct (PrimFloat.ltb x 0); reflexivity.
Qed.

Lemma Math_min_100_cases y :
  PrimFloat.is_nan y = false ->
  (PrimFloat.ltb 100 y = true /\ Math_min 100 y = 100%float) \/
  (PrimFloat.ltb 100 y = false /\ Math_min 100 y = y).
Proof.
  intros H. unfold Math_min. rewrite H.
  change (PrimFloat.is_nan 100) with false. simpl.
  destruct (PrimFloat.ltb 100 y) eqn:E; [left; auto|right; split; auto].
  destruct (PrimFloat.ltb y 100); reflexivity.
Qed.

Lemma clamp_0_100 x : clamped_into 0 100 x (Math_min 100 (Math_max 0 x)).
Proof.
  unfold clamped_into. repeat split.
  - intros H. destruct (num_ltb_not_nan _ _ H) as [Hx _].
    destruct (Math_max_0_cases x Hx) as [[H0 _]|[_ ->]]; [|reflexivity].
    rewrite (num_ltb_asym _ _ H) in H0. discriminate.
  - intros H. destruct (num_ltb_not_nan _ _ H) as [_ Hx].
    destruct (Math_max_0_cases x Hx) as [[_ ->]|[H0 _]].
    + destruct (Math_min_100_cases x Hx) as [[_ ->]|[H1 _]]; [reflexivity|].
      congruence.
    + rewrite (above_100_positive _ H) in H0. discriminate.
  - intros Hlo Hhi. destruct (num_leb_not_nan _ _ Hlo) as [_ Hx].
    destruct (Math_max_0_cases x Hx) as [[_ ->]|[H0 ->]].
    + destruct (Math_min_100_cases x Hx) as [[H1 _]|[_ ->]].
      * rewrite (num_leb_not_ltb _ _ Hhi) in H1. discriminate.
      * apply num_eqb_refl, Hx.
    + change (Math_min 100 0) with 0%float.
      apply num_not_ltb_both_eqb; auto. apply num_leb_not_ltb, Hlo.
  - intros H. rewrite (Math_max_0_nan x H). reflexivity.
Qed.

Lemma clamp_0_100_range x :
  PrimFloat.is_nan x = false -> in_range 0 100 (Math_min 100 (Math_max 0 x)).
Proof.
  intros Hx. unfold in_range.
  destruct (Math_max_0_cases x Hx) as [[H0 ->]|[_ ->]].
  - destruct (Math_min_100_cases x Hx) as [[_ ->]|[H1 ->]].
    + split; reflexivity.
    + split; [apply num_ltb_leb, H0|].
      apply num_not_ltb_leb; auto.
  - split; reflexivity.
Qed.

Lemma Math_min_nan x y : PrimFloat.is_nan y = true -> Math_min x y = PrimFloat.nan.
Proof. intros H. unfold Math_min. rewrite H, orb_true_r. reflexivity. Qed.

(** ** Rounding: the shifts of [SpecFloat] *)

Lemma iter_pos_nat {A} (f : A -> A) (n : positive) (x : A) :
  SpecFloat.iter_pos f n x = Nat.iter (Pos.to_nat n) f x.
Proof.
  revert x. induction n as [n IH|n IH|]; intros x; cbn [SpecFloat.iter_pos].
  - rewrite !IH, Pos2Nat.inj_xI, <- Nat.iter_add, <- Nat.iter_succ_r.
    f_equal. lia.
  - rewrite !IH, Pos2Nat.inj_xO, <- Nat.iter_add. f_equal. lia.
  - reflexivity.
Qed.

Lemma shr_1_m mrs : 0 <= shr_m mrs -> shr_m (shr_1 mrs) = shr_m mrs / 2.
Proof.
  destruct mrs as [m r s]. simpl. intros H.
  destruct m as [|[p|p|]|p]; simpl; try lia; try reflexivity.
  - rewrite Pos2Z.inj_xI. apply Z.div_unique with 1; lia.
  - rewrite Pos2Z.inj_xO. apply Z.div_unique with 0; lia.
Qed.

Lemma shr_1_r mrs : 0 <= shr_m mrs -> shr_r (shr_1 mrs) = Z.odd (shr_m mrs).
Proof.
  destruct mrs as [m r s]. simpl. intros H.
  destruct m as [|[p|p|]|p]; simpl; try lia; reflexivity.
Qed.

Lemma shr_iter_m (k : nat) mrs :
  0 <= shr_m mrs ->
  shr_m (Nat.iter k shr_1 mrs) = shr_m mrs / 2 ^ Z.of_nat k.
Proof.
  intros H. induction k as [|k IH].
  - simpl. rewrite Z.div_1_r. reflexivity.
  - rewrite Nat2Z.inj_succ, Z.pow_succ_r by lia. simpl.
    rewrite shr_1_m, IH.
    + rewrite Z.div_div by lia. f_equal. lia.
    + rewrite IH. apply Z.div_pos; lia.
Qed.

Lemma shr_iter_r (k : nat) mrs :
  0 <= shr_m mrs ->
  shr_r (Nat.iter (S k) shr_1 mrs) = Z.odd (shr_m mrs / 2 ^ Z.of_nat k).
Proof.
  intros H. simpl. rewrite shr_1_r, shr_iter_m by (try rewrite shr_iter_m; try apply Z.div_pos; lia).
  reflexivity.
Qed.

Lemma shr_m_spec mrs e n :
  0 <= shr_m mrs ->
  shr_m (fst (shr mrs e n)) = shr_m mrs / 2 ^ Z.max n 0 /\
  snd (shr mrs e n) = e + Z.max n 0.
Proof.
  intros H. destruct n as [|p|p]; simpl.
  - rewrite Z.div_1_r. lia.
  - rewrite iter_pos_nat, shr_iter_m, positive_nat_Z by assumption.
    rewrite Z.max_l by lia. auto.
  - rewrite Z.div_1_r. lia.
Qed.

Lemma shr_r_spec mrs e n :
  0 <= shr_m mrs -> 0 < n ->
  shr_r (fst (shr mrs e n)) = Z.odd (shr_m mrs / 2 ^ (n - 1)).
Proof.
  intros H Hn. destruct n as [|p|p]; try lia. simpl.
  rewrite iter_pos_nat.
  destruct (Pos.to_nat p) as [|k] eqn:E; [lia|].
  rewrite shr_iter_r by assumption. do 3 f_equal. lia.
Qed.

Lemma shr_nonpos mrs e n : n <= 0 -> shr mrs e n = (mrs, e).
Proof. destruct n; simpl; auto; lia. Qed.

Lemma shr_record_of_loc_m m l : shr_m (shr_record_of_loc m l) = m.
Proof. destruct l as [|[]]; reflexivity. Qed.

Lemma round_nearest_even_bounds m l :
  m <= round_nearest_even m l <= m + 1.
Proof.
  destruct l as [|[]]; simpl; try lia. destruct (Z.even m); lia.
Qed.

Lemma round_nearest_even_up mrs :
  round_nearest_even (shr_m mrs) (loc_of_shr_record mrs) <> shr_m mrs ->
  shr_r mrs = true.
Proof.
  destruct mrs as [m [] []]; simpl; auto; congruence.
Qed.

(** The result of [binary_round_aux], step by step. *)
Lemma binary_round_aux_steps s m e l :
  binary_round_aux prec emax s m e l =
  let r1 := shr_fexp prec emax m e l in
  let m2 := round_nearest_even (shr_m (fst r1)) (loc_of_shr_record (fst r1)) in
  let r2 := shr_fexp prec emax m2 (snd r1) loc_Exact in
  match shr_m (fst r2) with
  | 0 => S754_zero s
  | Zpos p =>
      if snd r2 <=? emax - prec then S754_finite s p (snd r2)
      else S754_infinity s
  | Zneg _ => S754_nan
  end.
Proof.
  unfold binary_round_aux.
  destruct (shr_fexp prec emax m e l) as [mrs1 e1]. simpl.
  destruct (shr_fexp prec emax _ e1 loc_Exact) as [mrs2 e2]. reflexivity.
Qed.

Lemma shr_fexp_m m e l :
  0 <= m ->
  let n := Z.max (fexp prec emax (Zdigits2 m + e) - e) 0 in
  shr_m (fst (shr_fexp prec emax m e l)) = m / 2 ^ n /\
  snd (shr_fexp prec emax m e l) = e + n.
Proof.
  intros H. unfold shr_fexp.
  pose proof (shr_m_spec (shr_record_of_loc m l) e
                (fexp prec emax (Zdigits2 m + e) - e)) as Hs.
  rewrite shr_record_of_loc_m in Hs. apply Hs, H.
Qed.

Lemma shr_fexp_r m e :
  0 <= m ->
  (fexp prec emax (Zdigits2 m + e) - e <= 0 ->
   shr_r (fst (shr_fexp prec emax m e loc_Exact)) = false) /\
  (0 < fexp prec emax (Zdigits2 m + e) - e ->
   shr_r (fst (shr_fexp prec emax m e loc_Exact)) =
   Z.odd (m / 2 ^ (fexp prec emax (Zdigits2 m + e) - e - 1))).
Proof.
  intros Hm. unfold shr_fexp. split; intros Hn.
  - rewrite shr_nonpos by assumption. reflexivity.
  - rewrite shr_r_spec by (simpl; assumption). reflexivity.
Qed.

Lemma binary_round_aux_sign s m e l :
  0 <= m -> has_sign s (binary_round_aux prec emax s m e l).
Proof.
  intros H. rewrite binary_round_aux_steps. cbv zeta.
  destruct (shr_fexp_m m e l H) as [H1 _].
  set (r1 := shr_fexp prec emax m e l) in *.
  set (m2 := round_nearest_even _ _).
  assert (H2 : 0 <= m2).
  { pose proof (round_nearest_even_bounds (shr_m (fst r1)) (loc_of_shr_record (fst r1))).
    assert (0 <= shr_m (fst r1)) by (rewrite H1; apply Z.div_pos; lia).
    unfold m2. lia. }
  destruct (shr_fexp_m m2 (snd r1) loc_Exact H2) as [H3 _].
  assert (H4 : 0 <= shr_m (fst (shr_fexp prec emax m2 (snd r1) loc_Exact)))
    by (rewrite H3; apply Z.div_pos; lia).
  destruct (shr_m (fst (shr_fexp prec emax m2 (snd r1) loc_Exact))); try lia.
  - reflexivity.
  - destruct (_ <=? _); reflexivity.
Qed.

(** ** Numbers that are not negative *)

Lemma leb_0_nonneg x : PrimFloat.leb 0 x = true <-> nonneg (Prim2SF x).
Proof.
  rewrite num_leb_SF. change (Prim2SF 0) with (S754_zero false).
  destruct (Prim2SF x) as [s|s| |s m e]; simpl; split; intros H;
    try tauto; try (destruct H; discriminate); try (destruct s; auto);
    try (destruct H; discriminate); try discriminate; auto.
Qed.

Lemma has_sign_nonneg x : has_sign false x -> nonneg x.
Proof. destruct x; simpl; auto. Qed.

Lemma binary_normalize_nonneg m e :
  0 <= m -> nonneg (binary_normalize prec emax m e false).
Proof.
  intros H. destruct m as [|p|p]; try lia; simpl; auto.
  unfold binary_round. destruct (shl_align _ _ _) as [mz ez].
  apply has_sign_nonneg, binary_round_aux_sign. lia.
Qed.

Lemma SFadd_nonneg x y :
  nonneg x -> nonneg y -> nonneg (SFadd prec emax x y).
Proof.
  destruct x as [sx|sx| |sx mx ex], y as [sy|sy| |sy my ey];
    intros Hx Hy; simpl in Hx, Hy; try tauto; subst;
    try (unfold SFadd; apply binary_normalize_nonneg; simpl; lia);
    simpl; auto.
  destruct sx, sy; simpl; auto.
Qed.

Lemma SFmul_nonneg x my ey :
  nonneg x -> nonneg (SFmul prec emax x (S754_finite false my ey)).
Proof.
  destruct x as [sx|sx| |sx mx ex]; simpl; try tauto; intros Hx; subst; auto.
  apply has_sign_nonneg, binary_round_aux_sign. lia.
Qed.

Lemma add_nonneg x y :
  PrimFloat.leb 0 x = true -> PrimFloat.leb 0 y = true ->
  PrimFloat.leb 0 (x + y) = true.
Proof.
  rewrite !leb_0_nonneg, FloatAxioms.add_spec. apply SFadd_nonneg.
Qed.

Lemma mul_nonneg x y :
  PrimFloat.leb 0 x = true -> positive_finite y = true ->
  PrimFloat.leb 0 (x * y) = true.
Proof.
  rewrite !leb_0_nonneg, FloatAxioms.mul_spec. unfold positive_finite.
  destruct (Prim2SF y) as [s|s| |[] m e]; try discriminate.
  intros H _. apply SFmul_nonneg, H.
Qed.

Lemma of_uint63_nonneg n : nonneg (Prim2SF (PrimFloat.of_uint63 n)).
Proof.
  rewrite FloatAxioms.of_uint63_spec. apply binary_normalize_nonneg.
  apply Uint63.to_Z_bounded.
Qed.

Lemma number_of_Z_not_nan z : Prim2SF (number_of_Z z) <> S754_nan.
Proof.
  destruct z as [|p|p]; unfold number_of_Z.
  - discriminate.
  - pose proof (of_uint63_nonneg (Uint63.of_Z (Z.pos p))) as H.
    intros E. rewrite E in H. exact H.
  - rewrite FloatAxioms.opp_spec.
    pose proof (of_uint63_nonneg (Uint63.of_Z (Z.pos p))) as H.
    destruct (Prim2SF _); simpl in *; try discriminate. tauto.
Qed.

Lemma number_of_Z_nonneg z : 0 <= z -> nonneg (Prim2SF (number_of_Z z)).
Proof.
  destruct z as [|p|p]; try lia; intros _; unfold number_of_Z.
  - exact I.
  - apply of_uint63_nonneg.
Qed.

Lemma Math_round_not_nan x :
  PrimFloat.is_nan x = false -> PrimFloat.is_nan (Math_round x) = false.
Proof.
  rewrite !is_nan_false_SF. intros H. unfold Math_round.
  destruct (Prim2SF x) as [s|s| |s m e] eqn:E; try (rewrite E; discriminate).
  - congruence.
  - destruct (0 <=? e); [rewrite E; discriminate|].
    destruct (_ =? 0).
    + destruct s; discriminate.
    + apply number_of_Z_not_nan.
Qed.

Lemma Math_round_nan x :
  PrimFloat.is_nan x = true -> Math_round x = PrimFloat.nan.
Proof.
  intros H. pose proof H as H'. rewrite is_nan_SF in H. unfold Math_round. rewrite H.
  apply Prim2SF_inj. rewrite H. reflexivity.
Qed.

Lemma Math_round_nonneg x :
  PrimFloat.leb 0 x = true -> PrimFloat.leb 0 (Math_round x) = true.
Proof.
  rewrite !leb_0_nonneg. unfold Math_round.
  destruct (Prim2SF x) as [s|s| |s m e] eqn:E; try (rewrite E; auto); try tauto.
  simpl. intros ->. destruct (0 <=? e) eqn:He; [rewrite E; reflexivity|].
  destruct (_ =? 0) eqn:Hn; [exact I|].
  apply number_of_Z_nonneg. simpl. apply Z.div_pos.
  - assert (0 < 2 ^ (- e)) by (apply Z.pow_pos_nonneg; lia). lia.
  - apply Z.pow_pos_nonneg; lia.
Qed.

(** A Number that is at least 0.3 is not negative. *)
Lemma at_least_03_nonneg v :
  PrimFloat.is_nan v = false -> PrimFloat.ltb v 0.3 = false ->
  PrimFloat.leb 0 v = true.
Proof.
  intros Hn Hv. apply num_not_ltb_leb in Hv; auto.
  rewrite leb_0_nonneg. rewrite num_leb_SF in Hv.
  change (Prim2SF 0.3) with (S754_finite false 5404319552844595 (-54)) in Hv.
  destruct (Prim2SF v) as [s|[]| |[] m e]; simpl in *; auto;
    destruct Hv; discriminate.
Qed.

Lemma unit_interval_nonneg r : unit_interval r -> PrimFloat.leb 0 r = true.
Proof. intros [H _]. exact H. Qed.

Lemma SFmul_nan_l y : SFmul prec emax S754_nan y = S754_nan.
Proof. reflexivity. Qed.

Lemma nan_mul x y : PrimFloat.is_nan x = true -> PrimFloat.is_nan (x * y) = true.
Proof. rewrite !is_nan_SF, FloatAxioms.mul_spec. intros ->. reflexivity. Qed.

Lemma nan_add_l x y : PrimFloat.is_nan x = true -> PrimFloat.is_nan (x + y) = true.
Proof. rewrite !is_nan_SF, FloatAxioms.add_spec. intros ->. reflexivity. Qed.

(** ** Canonical representations *)

Lemma digits2_pos_bounds (m : positive) :
  2 ^ (Z.pos (digits2_pos m) - 1) <= Z.pos m < 2 ^ Z.pos (digits2_pos m).
Proof.
  induction m as [p IH|p IH|]; cbn [digits2_pos].
  - rewrite Pos2Z.inj_succ. change (Z.pos p~1) with (2 * Z.pos p + 1).
    replace (Z.succ (Z.pos (digits2_pos p)) - 1)
      with (Z.succ (Z.pos (digits2_pos p) - 1)) by lia.
    rewrite !Z.pow_succ_r by lia. revert IH.
    generalize (2 ^ (Z.pos (digits2_pos p) - 1)) (2 ^ Z.pos (digits2_pos p)).
    intros; lia.
  - rewrite Pos2Z.inj_succ. change (Z.pos p~0) with (2 * Z.pos p).
    replace (Z.succ (Z.pos (digits2_pos p)) - 1)
      with (Z.succ (Z.pos (digits2_pos p) - 1)) by lia.
    rewrite !Z.pow_succ_r by lia. revert IH.
    generalize (2 ^ (Z.pos (digits2_pos p) - 1)) (2 ^ Z.pos (digits2_pos p)).
    intros; lia.
  - simpl. lia.
Qed.

Lemma valid_finite s m e :
  valid_binary (S754_finite s m e) = true ->
  Z.pos m < 2 ^ 53 /\ -1074 <= e <= 971 /\ (2 ^ 52 <= Z.pos m \/ e = -1074).
Proof.
  unfold valid_binary, bounded, canonical_mantissa, fexp, SpecFloat.emin.
  change prec with 53. change emax with 1024.
  rewrite andb_true_iff, Z.eqb_eq, Z.leb_le. intros [Hc He].
  pose proof (digits2_pos_bounds m) as [Hlo Hhi].
  assert (Hd : Z.pos (digits2_pos m) <= 53) by lia.
  split; [|split].
  - eapply Z.lt_le_trans; [exact Hhi|]. apply Z.pow_le_mono_r; lia.
  - lia.
  - destruct (Z.eq_dec e (-1074)) as [|Hne]; [auto|left].
    assert (Z.pos (digits2_pos m) = 53) as Hd53 by lia.
    rewrite Hd53 in Hlo. exact Hlo.
Qed.

Lemma iter_xO_value (m d : positive) :
  Z.pos (Pos.iter xO m d) = Z.pos m * 2 ^ Z.pos d.
Proof.
  induction d as [|d IH] using Pos.peano_ind.
  - simpl. lia.
  - rewrite Pos.iter_succ.
    change (Z.pos (Pos.iter xO m d)~0) with (2 * Z.pos (Pos.iter xO m d)).
    rewrite IH, Pos2Z.inj_succ, Z.pow_succ_r by lia. lia.
Qed.

(** The mantissa of a Number at the exponent [ez], which is not above
    its own. *)
Lemma shl_align_value m e ez :
  ez <= e -> Z.pos (fst (shl_align m e ez)) = Z.pos m * 2 ^ (e - ez).
Proof.
  intros H. unfold shl_align.
  destruct (ez - e) as [|d|d] eqn:E; simpl.
  - replace (e - ez) with 0 by lia. lia.
  - lia.
  - rewrite iter_xO_value. f_equal. f_equal. lia.
Qed.

Lemma aligned_value s m e ez :
  ez <= e -> aligned s m e ez = cond_Zopp s (Z.pos m * 2 ^ (e - ez)).
Proof. intros H. unfold aligned. rewrite shl_align_value by assumption. reflexivity. Qed.

(** On canonical representations the comparison of [SpecFloat] is the
    comparison of the mantissas at a common exponent. *)
Lemma SFcompare_aligned s1 m1 e1 s2 m2 e2 :
  valid_binary (S754_finite s1 m1 e1) = true ->
  valid_binary (S754_finite s2 m2 e2) = true ->
  SFcompare (S754_finite s1 m1 e1) (S754_finite s2 m2 e2) =
  Some (aligned s1 m1 e1 (Z.min e1 e2) ?= aligned s2 m2 e2 (Z.min e1 e2)).
Proof.
  intros V1 V2.
  apply valid_finite in V1 as (B1 & R1 & N1).
  apply valid_finite in V2 as (B2 & R2 & N2).
  rewrite !aligned_value by lia.
  assert (P1 : 0 < 2 ^ (e1 - Z.min e1 e2)) by (apply Z.pow_pos_nonneg; lia).
  assert (P2 : 0 < 2 ^ (e2 - Z.min e1 e2)) by (apply Z.pow_pos_nonneg; lia).
  assert (Hlt : forall ma ea mb eb,
    Z.pos ma < 2 ^ 53 -> (2 ^ 52 <= Z.pos mb \/ eb = -1074) ->
    -1074 <= ea -> ea < eb ->
    Z.pos ma * 2 ^ (ea - Z.min ea eb) < Z.pos mb * 2 ^ (eb - Z.min ea eb)).
  { clear. intros ma ea mb eb Ba Nb Ra Hlt.
    rewrite Z.min_l, Z.sub_diag, Z.pow_0_r, Z.mul_1_r by lia.
    destruct Nb as [Nb|Nb]; [|lia].
    assert (2 ^ 1 <= 2 ^ (eb - ea)) by (apply Z.pow_le_mono_r; lia).
    change (2 ^ 1) with 2 in *. change (2 ^ 53) with (2 * 2 ^ 52) in Ba. nia. }
  simpl. f_equal.
  destruct (Z.compare_spec e1 e2) as [He|He|He].
  - subst e2. rewrite Z.min_id, Z.sub_diag, Z.pow_0_r, !Z.mul_1_r.
    rewrite Pos.compare_cont_spec. simpl.
    destruct s1, s2; simpl; try reflexivity;
      destruct (m1 ?= m2)%positive; reflexivity.
  - pose proof (Hlt m1 e1 m2 e2 B1 N2 ltac:(lia) He) as Hv.
    destruct s1, s2; simpl; symmetry.
    + apply Z.compare_gt_iff. lia.
    + apply Z.compare_lt_iff. lia.
    + apply Z.compare_gt_iff. lia.
    + apply Z.compare_lt_iff. lia.
  - pose proof (Hlt m2 e2 m1 e1 B2 N1 ltac:(lia) He) as Hv.
    rewrite (Z.min_comm e2 e1) in Hv.
    destruct s1, s2; simpl; symmetry.
    + apply Z.compare_lt_iff. lia.
    + apply Z.compare_lt_iff. lia.
    + apply Z.compare_gt_iff. lia.
    + apply Z.compare_gt_iff. lia.
Qed.

(** ** The sign of a difference *)

Lemma fexp_above_emin k : -1074 <= fexp prec emax k.
Proof. unfold fexp, SpecFloat.emin. change prec with 53. change emax with 1024. lia. Qed.

Lemma shr_fexp_pos m e l :
  0 < m -> -1074 <= e ->
  0 < shr_m (fst (shr_fexp prec emax m e l)) /\
  -1074 <= snd (shr_fexp prec emax m e l).
Proof.
  intros Hm He.
  destruct (shr_fexp_m m e l ltac:(lia)) as [-> ->].
  destruct m as [|p|p]; try lia. cbn [Zdigits2].
  pose proof (digits2_pos_bounds p) as [Hlo _].
  set (d := Z.pos (digits2_pos p)) in *.
  assert (Hn : Z.max (fexp prec emax (d + e) - e) 0 = Z.max (d - 53) 0).
  { unfold fexp, SpecFloat.emin. change prec with 53. change emax with 1024. lia. }
  rewrite Hn. split; [|lia].
  apply Z.div_str_pos. split; [apply Z.pow_pos_nonneg; lia|].
  eapply Z.le_trans; [|exact Hlo].
  apply Z.pow_le_mono_r; unfold d; lia.
Qed.

Lemma binary_round_aux_nonzero s m e l :
  0 < m -> -1074 <= e -> strict_sign s (binary_round_aux prec emax s m e l).
Proof.
  intros Hm He. rewrite binary_round_aux_steps. cbv zeta.
  destruct (shr_fexp_pos m e l Hm He) as [H1 H1e].
  set (r1 := shr_fexp prec emax m e l) in *.
  set (m2 := round_nearest_even _ _).
  assert (H2 : 0 < m2).
  { pose proof (round_nearest_even_bounds (shr_m (fst r1)) (loc_of_shr_record (fst r1))).
    unfold m2. lia. }
  destruct (shr_fexp_pos m2 (snd r1) loc_Exact H2 H1e) as [H3 _].
  destruct (shr_m (fst (shr_fexp prec emax m2 (snd r1) loc_Exact))); try lia.
  destruct (_ <=? _); reflexivity.
Qed.

Lemma binary_round_nonzero s m e :
  -1074 <= e -> strict_sign s (binary_round prec emax s m e).
Proof.
  intros He. unfold binary_round.
  pose proof (fexp_above_emin (Z.pos (digits2_pos m) + e)) as Hf.
  destruct (shl_align m e _) as [mz ez] eqn:E.
  apply binary_round_aux_nonzero; [lia|].
  unfold shl_align in E. destruct (_ - e); injection E as <- <-; lia.
Qed.

Lemma binary_normalize_sign d e :
  -1074 <= e ->
  match d ?= 0 with
  | Gt => strict_sign false (binary_normalize prec emax d e false)
  | Eq => binary_normalize prec emax d e false = S754_zero false
  | Lt => strict_sign true (binary_normalize prec emax d e false)
  end.
Proof.
  intros He. destruct d as [|p|p]; simpl; auto using binary_round_nonzero.
Qed.

(** [0 < x - y] exactly when [y < x], for all Numbers. *)
Lemma SFsub_positive x y :
  valid_binary x = true -> valid_binary y = true ->
  SFltb (S754_zero false) (SFsub prec emax x y) = SFltb y x.
Proof.
  intros Vx Vy. unfold SFltb.
  destruct x as [sx|sx| |sx mx ex], y as [sy|sy| |sy my ey];
    try (destruct sx; reflexivity); try (destruct sy; reflexivity);
    try (destruct sx, sy; reflexivity); try reflexivity.
  rewrite (SFcompare_aligned _ _ _ _ _ _ Vy Vx).
  apply valid_finite in Vx as (_ & Rx & _).
  apply valid_finite in Vy as (_ & Ry & _).
  unfold SFsub. fold (aligned sx mx ex (Z.min ex ey)).
  fold (aligned sy my ey (Z.min ex ey)). rewrite (Z.min_comm ey ex).
  set (a := aligned sx mx ex (Z.min ex ey)).
  set (b := aligned sy my ey (Z.min ex ey)).
  pose proof (binary_normalize_sign (a - b) (Z.min ex ey) ltac:(lia)) as H.
  destruct (Z.compare_spec (a - b) 0) as [E|E|E];
    destruct (Z.compare_spec b a) as [E'|E'|E']; try lia.
  - rewrite H. reflexivity.
  - destruct (binary_normalize _ _ _ _ _) as [?|[]| |[] ? ?]; simpl in H;
      try tauto; try discriminate; reflexivity.
  - destruct (binary_normalize _ _ _ _ _) as [?|[]| |[] ? ?]; simpl in H;
      try tauto; try discriminate; reflexivity.
Qed.

Lemma sub_positive x y : PrimFloat.ltb 0 (x - y) = PrimFloat.ltb y x.
Proof.
  rewrite !FloatAxioms.ltb_spec, FloatAxioms.sub_spec.
  apply SFsub_positive; apply Prim2SF_valid.
Qed.

(** ** A product with a draw stays below the factor *)

Lemma pow2_pos k : 0 <= k -> 0 < 2 ^ k.
Proof. intros H. apply Z.pow_pos_nonneg; lia. Qed.

Lemma odd_div_lower q h m :
  0 < h -> 0 <= m -> q = m / h -> Z.odd q = true ->
  (2 * (q / 2) + 1) * h <= m /\ q / 2 = m / (2 * h).
Proof.
  intros Hh Hm -> Hodd.
  pose proof (Z.div_mod (m / h) 2 ltac:(lia)) as Hq.
  rewrite Zmod_odd, Hodd in Hq.
  pose proof (Z.mul_div_le m h Hh) as Hle.
  split.
  - rewrite <- Hq. lia.
  - rewrite Z.div_div by lia. f_equal. lia.
Qed.

(** Rounding to nearest at the step [2^n1]: a value that is at most
    [c * (1 - 2^-53)], in units of [2^-(a+53)], is not rounded up to [c]
    when the step is at most [2^-50]. *)
Lemma round_step_below c a n1 M m2 :
  4 < c -> 0 <= a -> 0 <= n1 <= a + 3 ->
  0 <= M <= c * (2 ^ 53 - 1) * 2 ^ a ->
  (m2 = M / 2 ^ n1 \/
   (m2 = M / 2 ^ n1 + 1 /\ 0 < n1 /\ Z.odd (M / 2 ^ (n1 - 1)) = true)) ->
  m2 * 2 ^ n1 < c * 2 ^ 53 * 2 ^ a.
Proof.
  intros Hc Ha Hn HM Hm2.
  pose proof (pow2_pos a Ha) as Pa.
  pose proof (pow2_pos n1 ltac:(lia)) as Pn.
  destruct Hm2 as [->|(-> & Hn0 & Hodd)].
  - pose proof (Z.mul_div_le M (2 ^ n1) Pn). nia.
  - pose proof (pow2_pos (n1 - 1) ltac:(lia)) as Ph.
    assert (E2 : 2 ^ n1 = 2 * 2 ^ (n1 - 1)).
    { replace n1 with (Z.succ (n1 - 1)) at 1 by lia.
      rewrite Z.pow_succ_r by lia. reflexivity. }
    destruct (odd_div_lower (M / 2 ^ (n1 - 1)) (2 ^ (n1 - 1)) M Ph ltac:(lia)
                eq_refl Hodd) as [Hlow Hdiv].
    rewrite <- E2 in Hdiv. rewrite <- Hdiv.
    assert (Hh : 2 ^ (n1 - 1) <= 4 * 2 ^ a).
    { change 4 with (2 ^ 2). rewrite <- Z.pow_add_r by lia.
      apply Z.pow_le_mono_r; lia. }
    rewrite E2. nia.
Qed.

Lemma digits_le m k :
  0 < m -> 0 <= k -> m < 2 ^ k -> Zdigits2 m <= k.
Proof.
  intros Hm Hk Hlt. destruct m as [|p|p]; try lia. cbn [Zdigits2].
  pose proof (digits2_pos_bounds p) as [Hlo _].
  assert (2 ^ (Z.pos (digits2_pos p) - 1) < 2 ^ k) by lia.
  apply Z.pow_lt_mono_r_iff in H; lia.
Qed.

(** The mantissa after the first shift and the rounding. *)
Lemma round_first_stage M E :
  0 <= M ->
  let n1 := Z.max (fexp prec emax (Zdigits2 M + E) - E) 0 in
  let r1 := shr_fexp prec emax M E loc_Exact in
  let m2 := round_nearest_even (shr_m (fst r1)) (loc_of_shr_record (fst r1)) in
  snd r1 = E + n1 /\
  (m2 = M / 2 ^ n1 \/
   (m2 = M / 2 ^ n1 + 1 /\ 0 < n1 /\ Z.odd (M / 2 ^ (n1 - 1)) = true)).
Proof.
  intros HM n1 r1 m2.
  destruct (shr_fexp_m M E loc_Exact HM) as [Hm1 He1].
  fold n1 r1 in Hm1, He1. split; [exact He1|].
  pose proof (round_nearest_even_bounds (shr_m (fst r1)) (loc_of_shr_record (fst r1))) as Hb.
  fold m2 in Hb.
  destruct (Z.eq_dec m2 (shr_m (fst r1))) as [E0|Hne].
  - left. congruence.
  - right. pose proof (round_nearest_even_up (fst r1) Hne) as Hr.
    destruct (shr_fexp_r M E HM) as [Hr0 Hr1]. fold r1 in Hr0, Hr1.
    destruct (Z_le_gt_dec (fexp prec emax (Zdigits2 M + E) - E) 0) as [Hle|Hgt].
    + rewrite Hr0 in Hr by assumption. discriminate.
    + rewrite Hr1 in Hr by lia.
      assert (n1 = fexp prec emax (Zdigits2 M + E) - E) as En by (unfold n1; lia).
      rewrite <- En in Hr. split; [lia|split; [lia|exact Hr]].
Qed.

Lemma fexp_le k b :
  -1074 <= b -> k - 53 <= b -> fexp prec emax k <= b.
Proof.
  unfold fexp, SpecFloat.emin. change prec with 53. change emax with 1024. lia.
Qed.

(** The rounded product: below [c], at an exponent of at most [-50]. *)
Lemma round_aux_below c M E :
  4 < c <= 8 -> 0 < M -> E <= -103 ->
  M <= c * (2 ^ 53 - 1) * 2 ^ (- E - 53) ->
  match binary_round_aux prec emax false M E loc_Exact with
  | S754_zero false => True
  | S754_finite false m3 e3 => e3 <= -50 /\ Z.pos m3 < c * 2 ^ (- e3)
  | _ => False
  end.
Proof.
  intros Hc HM HE Hbound.
  rewrite binary_round_aux_steps. cbv zeta.
  destruct (round_first_stage M E ltac:(lia)) as [He1 Hm2].
  set (n1 := Z.max (fexp prec emax (Zdigits2 M + E) - E) 0) in *.
  set (r1 := shr_fexp prec emax M E loc_Exact) in *.
  set (m2 := round_nearest_even _ _) in *.
  set (a := - E - 53) in *.
  pose proof (pow2_pos a ltac:(unfold a; lia)) as Pa.
  assert (E56 : 2 ^ (3 - E) = 8 * 2 ^ 53 * 2 ^ a).
  { replace (3 - E) with (3 + 53 + a) by (unfold a; lia).
    rewrite !Z.pow_add_r by (unfold a; lia). reflexivity. }
  assert (Hd : Zdigits2 M <= 3 - E).
  { apply digits_le; [lia|lia|]. rewrite E56. nia. }
  assert (Hf : fexp prec emax (Zdigits2 M + E) <= -50)
    by (apply fexp_le; lia).
  pose proof (fexp_above_emin (Zdigits2 M + E)) as Hf'.
  assert (Hn1 : 0 <= n1 <= a + 3) by (unfold n1, a; lia).
  assert (He1' : -1074 <= snd r1 <= -50) by (rewrite He1; unfold n1; lia).
  pose proof (pow2_pos n1 ltac:(lia)) as Pn1.
  pose proof (round_step_below c a n1 M m2 ltac:(lia) ltac:(unfold a; lia)
                Hn1 ltac:(lia) Hm2) as Hm2lt.
  assert (Hm2pos : 0 <= m2).
  { assert (0 <= M / 2 ^ n1) by (apply Z.div_pos; lia).
    destruct Hm2 as [->|[-> _]]; lia. }
  destruct (shr_fexp_m m2 (snd r1) loc_Exact Hm2pos) as [Hm3 He3].
  set (n2 := Z.max (fexp prec emax (Zdigits2 m2 + snd r1) - snd r1) 0) in *.
  set (r2 := shr_fexp prec emax m2 (snd r1) loc_Exact) in *.
  assert (Hn2 : 0 <= n2) by (unfold n2; lia).
  pose proof (pow2_pos n2 Hn2) as Pn2.
  assert (Hm3pos : 0 <= shr_m (fst r2)) by (rewrite Hm3; apply Z.div_pos; lia).
  destruct (Z.eq_dec m2 0) as [Hz|Hnz].
  { rewrite Hm3, Hz, Z.div_0_l by lia. exact I. }
  assert (E1 : 2 ^ (3 - E) = 2 ^ (3 - snd r1) * 2 ^ n1).
  { rewrite <- Z.pow_add_r by lia. f_equal. lia. }
  assert (Hd2 : Zdigits2 m2 <= 3 - snd r1).
  { apply digits_le; [lia|lia|].
    pose proof (pow2_pos (3 - snd r1) ltac:(lia)). nia. }
  assert (He3' : snd r2 <= -50).
  { rewrite He3. unfold n2.
    assert (fexp prec emax (Zdigits2 m2 + snd r1) <= -50)
      by (apply fexp_le; lia).
    lia. }
  assert (E3 : 2 ^ (- E) = 2 ^ (- snd r2) * (2 ^ n2 * 2 ^ n1)).
  { rewrite <- !Z.pow_add_r by lia. f_equal. lia. }
  assert (E53 : 2 ^ (- E) = 2 ^ 53 * 2 ^ a).
  { rewrite <- Z.pow_add_r by (unfold a; lia). f_equal. unfold a. lia. }
  pose proof (pow2_pos (- snd r2) ltac:(lia)) as Pe3.
  pose proof (Z.mul_div_le m2 (2 ^ n2) Pn2) as Hdiv.
  rewrite <- Hm3 in Hdiv.
  assert (Hlt : shr_m (fst r2) < c * 2 ^ (- snd r2)).
  { apply Z.mul_lt_mono_pos_r with (2 ^ n2 * 2 ^ n1); [nia|].
    rewrite <- Z.mul_assoc, <- E3, E53. nia. }
  destruct (shr_m (fst r2)) as [|p|p]; try lia.
  destruct (snd r2 <=? emax - prec) eqn:Hle.
  - split; assumption.
  - apply Z.leb_gt in Hle. change (emax - prec) with 971 in Hle. lia.
Qed.

(** A draw of [Math.random], as a canonical representation. *)
Lemma unit_interval_SF r :
  unit_interval r ->
  (exists s, Prim2SF r = S754_zero s) \/
  (exists m e, Prim2SF r = S754_finite false m e /\ e <= -53 /\ Z.pos m < 2 ^ 53).
Proof.
  intros [H0 H1]. apply leb_0_nonneg in H0. apply num_ltb_SF in H1.
  pose proof (Prim2SF_valid r) as V.
  change (Prim2SF 1) with (S754_finite false 4503599627370496 (-52)) in H1.
  destruct (Prim2SF r) as [s|s| |s m e]; [left; eauto| | |].
  - simpl in H0. subst s. discriminate.
  - contradiction.
  - right. simpl in H0. subst s. exists m, e. split; [reflexivity|].
    apply valid_finite in V as (B & R & N).
    unfold SFcompare in H1. split; [|exact B].
    destruct (Z.compare_spec e (-52)) as [->|?|?]; try discriminate; try lia.
    rewrite Pos.compare_cont_spec in H1.
    destruct (Pos.compare_spec m 4503599627370496) as [?|Hlt|?];
      try discriminate.
    apply Pos2Z.pos_lt_pos in Hlt. change (2 ^ 52) with 4503599627370496 in N.
    lia.
Qed.

(** [r * c] for a draw [r] and a factor [c] between 5 and 8 that is
    represented at the exponent [-50]. *)
Lemma mul_unit_below (r cf : number) (c : Z) (C : positive) :
  4 < c <= 8 -> Z.pos C = c * 2 ^ 50 ->
  Prim2SF cf = S754_finite false C (-50) ->
  unit_interval r ->
  (exists s, Prim2SF (r * cf) = S754_zero s) \/
  (exists m3 e3, Prim2SF (r * cf) = S754_finite false m3 e3 /\
                 e3 <= -50 /\ Z.pos m3 < c * 2 ^ (- e3)).
Proof.
  intros Hc HC Hcf Hr. rewrite FloatAxioms.mul_spec, Hcf.
  destruct (unit_interval_SF r Hr) as [[s ->]|(m & e & -> & He & Hm)].
  - left. eexists. reflexivity.
  - unfold SF64mul, SFmul. cbn [xorb].
    pose proof (round_aux_below c (Z.pos (m * C)) (e + -50) Hc ltac:(lia)
                  ltac:(lia)) as H.
    assert (Hb : Z.pos (m * C) <= c * (2 ^ 53 - 1) * 2 ^ (- (e + -50) - 53)).
    { rewrite Pos2Z.inj_mul, HC.
      assert (2 ^ 50 <= 2 ^ (- (e + -50) - 53)) by (apply Z.pow_le_mono_r; lia).
      nia. }
    specialize (H Hb).
    destruct (binary_round_aux _ _ _ _ _ _) as [[]|[]| |[] m3 e3];
      try contradiction.
    + left. eexists. reflexivity.
    + right. exists m3, e3. split; [reflexivity|exact H].
Qed.

Lemma integer_value_small n :
  0 < n < 8 -> integer_value (number_of_Z n) = Some n.
Proof.
  intros H.
  assert (n = 1 \/ n = 2 \/ n = 3 \/ n = 4 \/ n = 5 \/ n = 6 \/ n = 7) as Hn by lia.
  repeat (destruct Hn as [->|Hn]; [vm_compute; reflexivity|]).
  subst. vm_compute. reflexivity.
Qed.

Lemma floor_product_index (r cf : number) (c : Z) (C : positive) :
  4 < c <= 8 -> Z.pos C = c * 2 ^ 50 ->
  Prim2SF cf = S754_finite false C (-50) ->
  unit_interval r ->
  exists n, 0 <= n < c /\ integer_value (Math_floor (r * cf)) = Some n.
Proof.
  intros Hc HC Hcf Hr.
  destruct (mul_unit_below r cf c C Hc HC Hcf Hr)
    as [[s Hs]|(m3 & e3 & Hs & He3 & Hm3)].
  - exists 0. split; [lia|]. unfold Math_floor. rewrite Hs.
    unfold integer_value. rewrite Hs. reflexivity.
  - unfold Math_floor. rewrite Hs.
    destruct (0 <=? e3) eqn:E0; [apply Z.leb_le in E0; lia|].
    cbn [cond_Zopp].
    pose proof (pow2_pos (- e3) ltac:(lia)) as P.
    assert (Hn : 0 <= Z.pos m3 / 2 ^ (- e3) < c).
    { split; [apply Z.div_pos; lia|].
      apply Z.div_lt_upper_bound; lia. }
    exists (Z.pos m3 / 2 ^ (- e3)). split; [exact Hn|].
    destruct (_ =? 0) eqn:En.
    + apply Z.eqb_eq in En. rewrite En. reflexivity.
    + apply Z.eqb_neq in En. apply integer_value_small. lia.
Qed.

(** [arr[Math.floor(Math.random() * arr.length)]] is an element of an
    array of five or six elements. *)
Lemma pick_defined {A} (arr : list A) (r : number) :
  length arr = 5%nat \/ length arr = 6%nat ->
  unit_interval r ->
  exists x, pick arr r = Some x /\ In x arr.
Proof.
  intros Hlen Hr. unfold pick, array_get.
  assert (exists n, 0 <= n < Z.of_nat (length arr) /\
            integer_value
              (Math_floor (r * number_of_nat (length arr))) = Some n)
    as (n & Hn & ->).
  { destruct Hlen as [->| ->].
    - apply (floor_product_index r _ 5 5629499534213120); auto; try lia;
        reflexivity.
    - apply (floor_product_index r _ 6 6755399441055744); auto; try lia;
        reflexivity. }
  assert ((0 <=? n) && (n <? Z.of_nat (length arr)) = true) as ->.
  { apply andb_true_iff. split; [apply Z.leb_le|apply Z.ltb_lt]; lia. }
  destruct (nth_error arr (Z.to_nat n)) as [x|] eqn:E.
  - exists x. split; [reflexivity|]. eapply nth_error_In, E.
  - apply nth_error_None in E. lia.
Qed.

(** ** The sample environment *)

Lemma below_100_unit (k : nat) :
  (k < 100)%nat -> unit_interval (number_of_nat k / 100)%float.
Proof.
  intros H.
  do 100 (destruct k as [|k]; [split; vm_compute; reflexivity|]). lia.
Qed.

Lemma sample_env_contract : random_contract sample_env.
Proof.
  intros n. unfold sample_env. cbn [random_values]. unfold sample_random.
  apply below_100_unit. apply Nat.mod_upper_bound. lia.
Qed.

Lemma teams_get_In sport sportTeams :
  teams_get teams sport = Some sportTeams -> In sportTeams (List.map snd teams).
Proof.
  unfold teams. cbn [teams_get List.map snd].
  repeat match goal with
  | |- context [String.eqb ?a sport] =>
      destruct (String.eqb a sport);
      [intros H; injection H as <-; cbn [In]; tauto|]
  end.
  discriminate.
Qed.

Lemma sample_redraw_checked : sample_redraw_check = true.
Proof. vm_compute. reflexivity. Qed.

Lemma sample_env_redraws fuel : redraws_end fuel sample_env.
Proof.
  intros sport sportTeams n Hs. exists 0%nat. split; [lia|].
  apply teams_get_In in Hs.
  pose proof sample_redraw_checked as H. unfold sample_redraw_check in H.
  rewrite forallb_forall in H. specialize (H _ Hs).
  rewrite forallb_forall in H.
  specialize (H ((n * 37 + 11) mod 100)%nat).
  rewrite negb_true_iff in H.
  unfold sample_env. cbn [random_values]. unfold sample_random.
  replace ((S n + 0) * 37 + 11)%nat with ((n * 37 + 11) + 37)%nat by lia.
  rewrite <- (Nat.Div0.add_mod_idemp_l (n * 37 + 11) 37 100).
  apply H. apply in_seq. split; [lia|].
  pose proof (Nat.mod_upper_bound (n * 37 + 11) 100). lia.
Qed.

(** ** [computeSignalScore] *)

(** C1: for every input record, [computeSignalScore] returns the rounded
    weighted sum [edgeSize*0.3 + speed*0.2 + persistence*0.2 +
    marketStability*0.1 + historicalPerformance*0.2] clamped into
    [[0, 100]]: 0 when the rounded sum is below 0, 100 when it is above
    100, the rounded sum itself in between ([NaN] is carried through). *)
Theorem computeSignalScore_weighted_sum (params : ScoreParams) :
  clamped_into 0 100
    (Math_round
       ((edgeSize params * 0.3) + (speed params * 0.2)
        + (persistence params * 0.2) + (marketStability params * 0.1)
        + (historicalPerformance params * 0.2))%float)
    (computeSignalScore params).
Proof. unfold computeSignalScore, weighted_score. apply clamp_0_100. Qed.

Example computeSignalScore_sample :
  computeSignalScore (mkScoreParams 80 60 70 50 90) = 73%float /\
  computeSignalScore (mkScoreParams 500 0 0 0 0) = 100%float /\
  computeSignalScore (mkScoreParams (-30) 0 0 0 0) = 0%float /\
  computeSignalScore (mkScoreParams 5 0 0 0 0) = 2%float.
Proof. repeat split; vm_compute; reflexivity. Qed.

(** C7: [computeSignalScore] is stateless and deterministic: two calls
    with the same input record return the same score whatever the
    environment and the store are, and leave both as they were. *)
Theorem computeSignalScore_stateless (params : ScoreParams) (w1 w2 : World) :
  exists score,
    call_computeSignalScore params w1 = Returned score w1 /\
    call_computeSignalScore params w2 = Returned score w2.
Proof. exists (computeSignalScore params). split; reflexivity. Qed.

(** ** [generateSignal] *)

Section GenerateSignal.
Variable toString10 toString36 : number -> string.
Variable marketState : MarketState.t.
Variable e : Env.

Let draw (k : nat) : number := random_values e (k + random_calls e).

Lemma generateSignal_null :
  PrimFloat.ltb (MarketState.volatility marketState) 0.3 = true ->
  generateSignal toString10 toString36 marketState e = (None, snd (Date_now e)).
Proof.
  intros H. unfold generateSignal, bind. simpl. rewrite H. reflexivity.
Qed.

Lemma generateSignal_some :
  PrimFloat.ltb (MarketState.volatility marketState) 0.3 = false ->
  exists s,
    generateSignal toString10 toString36 marketState e =
      (Some s, mkEnv (random_values e) (10 + random_calls e)
                 (time_values e) (2 + time_calls e)) /\
    Signal.signalScore s =
      Math_min 100 (Math_round
        ((MarketState.volatility marketState * 40) + ((draw 0 * 8 + 2) * 5)
         + (draw 1 * 20))%float) /\
    Signal.confidence s =
      (if gtb (Signal.signalScore s) 75 then High
       else if gtb (Signal.signalScore s) 55 then Medium else Low) /\
    Signal.trigger s = pick triggers (draw 7) /\
    Signal.explanation s = pick explanations (draw 8) /\
    Signal.id s =
      "signal-" +:+ pretty (time_values e (S (time_calls e))) +:+ "-"
      +:+ String.substring 2 9 (toString36 (draw 6)).
Proof.
  intros H. unfold generateSignal, bind. simpl. rewrite H.
  eexists. split; [reflexivity|]. simpl. repeat split.
Qed.

End GenerateSignal.

Lemma generateSignal_confidence_of toString10 toString36 m e s :
  fst (generateSignal toString10 toString36 m e) = Some s ->
  Signal.confidence s = confidence_of (Signal.signalScore s).
Proof.
  intros Hs.
  destruct (PrimFloat.ltb (MarketState.volatility m) 0.3) eqn:H.
  - rewrite (generateSignal_null toString10 toString36 m e H) in Hs.
    discriminate.
  - destruct (generateSignal_some toString10 toString36 m e H)
      as (s0 & E & _ & Hc & _).
    rewrite E in Hs. simpl in Hs. injection Hs as <-. exact Hc.
Qed.

(** C3: signal generation is gated by one threshold check:
    [generateSignal(m)] returns [null] if and only if
    [m.volatility < 0.3], and otherwise returns a Signal. *)
Theorem generateSignal_null_iff toString10 toString36
    (m : MarketState.t) (e : Env) :
  (fst (generateSignal toString10 toString36 m e) = None <->
   PrimFloat.ltb (MarketState.volatility m) 0.3 = true) /\
  (PrimFloat.ltb (MarketState.volatility m) 0.3 = false <->
   exists s, fst (generateSignal toString10 toString36 m e) = Some s).
Proof.
  destruct (PrimFloat.ltb (MarketState.volatility m) 0.3) eqn:H.
  - rewrite (generateSignal_null toString10 toString36 m e H). simpl.
    split; split; auto; try discriminate. intros [s Hs]. discriminate.
  - destruct (generateSignal_some toString10 toString36 m e H)
      as (s & -> & _). simpl.
    split; split; auto; try discriminate. eauto.
Qed.

Example generateSignal_gate_sample :
  fst (generateSignal sample_toString10 sample_toString36
         (sample_market 0.29) sample_env) = None /\
  fst (generateSignal sample_toString10 sample_toString36
         (sample_market 0.3) sample_env) <> None /\
  fst (generateSignal sample_toString10 sample_toString36
         (sample_market PrimFloat.nan) sample_env) <> None.
Proof. repeat split; vm_compute; congruence. Qed.

(** C2: for every Signal produced by [generateSignal], the confidence is
    derived from the score alone by fixed thresholds: high above 75,
    medium above 55 (and not above 75), low otherwise; two Signals with
    the same score, whatever market and environment produced them, have
    the same confidence. *)
Theorem generateSignal_confidence toString10 toString36
    (m m' : MarketState.t) (e e' : Env) (s s' : Signal.t) :
  fst (generateSignal toString10 toString36 m e) = Some s ->
  fst (generateSignal toString10 toString36 m' e') = Some s' ->
  Signal.confidence s = confidence_of (Signal.signalScore s) /\
  (Signal.confidence s = High <-> gtb (Signal.signalScore s) 75 = true) /\
  (Signal.confidence s = Medium <->
   gtb (Signal.signalScore s) 75 = false /\ gtb (Signal.signalScore s) 55 = true) /\
  (Signal.confidence s = Low <->
   gtb (Signal.signalScore s) 75 = false /\ gtb (Signal.signalScore s) 55 = false) /\
  (Signal.signalScore s = Signal.signalScore s' ->
   Signal.confidence s = Signal.confidence s').
Proof.
  intros Hs Hs'.
  pose proof (generateSignal_confidence_of toString10 toString36) as Hconf.
  rewrite (Hconf _ _ _ Hs), (Hconf _ _ _ Hs'). unfold confidence_of.
  split; [reflexivity|].
  split; [|split; [|split]]; try (intros ->; reflexivity);
    destruct (gtb (Signal.signalScore s) 75), (gtb (Signal.signalScore s) 55);
    split; try congruence; try tauto; intros [? ?]; congruence.
Qed.

Lemma generateSignal_confidence_witness :
  exists s,
    fst (generateSignal sample_toString10 sample_toString36
           (sample_market 0.9) sample_env) = Some s /\
    Signal.confidence s = confidence_of (Signal.signalScore s).
Proof.
  eexists. split; [vm_compute; reflexivity|].
  refine (proj1 (generateSignal_confidence sample_toString10 sample_toString36
            (sample_market 0.9) (sample_market 0.9) sample_env sample_env
            _ _ _ _));
    vm_compute; reflexivity.
Defined.

Lemma signalScore_range v r_edge r_score :
  PrimFloat.is_nan v = false -> PrimFloat.ltb v 0.3 = false ->
  unit_interval r_edge -> unit_interval r_score ->
  in_range 0 100
    (Math_min 100 (Math_round ((v * 40) + ((r_edge * 8 + 2) * 5) + (r_score * 20))%float)).
Proof.
  intros Hn Hv [He _] [Hs _].
  set (x := ((v * 40) + ((r_edge * 8 + 2) * 5) + (r_score * 20))%float).
  assert (Hx : PrimFloat.leb 0 x = true).
  { unfold x. repeat first
      [ apply add_nonneg | apply mul_nonneg | reflexivity | assumption
      | apply at_least_03_nonneg; assumption ]. }
  apply Math_round_nonneg in Hx.
  destruct (num_leb_not_nan _ _ Hx) as [_ Hy].
  destruct (Math_min_100_cases _ Hy) as [[_ ->]|[H1 ->]].
  - split; reflexivity.
  - split; [exact Hx|]. apply num_not_ltb_leb; auto.
Qed.

(** C4, as the code has it: the score of every Signal that
    [generateSignal] returns for a market whose volatility is not [NaN]
    lies in [[0, 100]] (the lower bound follows from the guard and from
    [Math.random() >= 0]), and so does the result of [computeSignalScore]
    for every input whose weighted sum is not [NaN]; a volatility,
    respectively a weighted sum, that is [NaN] gives the score [NaN]. *)
Theorem signalScore_in_range toString10 toString36
    (m : MarketState.t) (e : Env) (s : Signal.t) (params : ScoreParams) :
  (random_contract e ->
   fst (generateSignal toString10 toString36 m e) = Some s ->
   (PrimFloat.is_nan (MarketState.volatility m) = false ->
    in_range 0 100 (Signal.signalScore s)) /\
   (PrimFloat.is_nan (MarketState.volatility m) = true ->
    PrimFloat.is_nan (Signal.signalScore s) = true)) /\
  (PrimFloat.is_nan (weighted_score params) = false ->
   in_range 0 100 (computeSignalScore params)) /\
  (PrimFloat.is_nan (weighted_score params) = true ->
   PrimFloat.is_nan (computeSignalScore params) = true).
Proof.
  split; [|split].
  - intros Hr Hs.
    destruct (PrimFloat.ltb (MarketState.volatility m) 0.3) eqn:Hv.
    { rewrite (generateSignal_null toString10 toString36 m e Hv) in Hs.
      discriminate. }
    destruct (generateSignal_some toString10 toString36 m e Hv)
      as (s0 & E & Hscore & _).
    rewrite E in Hs. simpl in Hs. injection Hs as <-. rewrite Hscore.
    split; intros Hn.
    + apply signalScore_range; auto; apply Hr.
    + rewrite Math_min_nan; [reflexivity|].
      rewrite Math_round_nan; [reflexivity|].
      do 2 apply nan_add_l. apply nan_mul, Hn.
  - intros Hn. unfold computeSignalScore.
    apply clamp_0_100_range, Math_round_not_nan, Hn.
  - intros Hn. unfold computeSignalScore.
    rewrite (Math_round_nan _ Hn). reflexivity.
Qed.

Lemma signalScore_in_range_witness :
  exists s,
    random_contract sample_env /\
    fst (generateSignal sample_toString10 sample_toString36
           (sample_market 0.9) sample_env) = Some s /\
    PrimFloat.is_nan (MarketState.volatility (sample_market 0.9)) = false /\
    PrimFloat.is_nan (weighted_score (mkScoreParams 80 60 70 50 90)) = false /\
    in_range 0 100 (Signal.signalScore s) /\
    in_range 0 100 (computeSignalScore (mkScoreParams 80 60 70 50 90)).
Proof.
  eexists. split; [exact sample_env_contract|].
  split; [vm_compute; reflexivity|].
  split; [reflexivity|]. split; [reflexivity|].
  match goal with
  | |- in_range _ _ (Signal.signalScore ?s) /\ _ =>
      destruct (signalScore_in_range sample_toString10 sample_toString36
                  (sample_market 0.9) sample_env s
                  (mkScoreParams 80 60 70 50 90)) as (H1 & H2 & _)
  end.
  split.
  - apply H1; [exact sample_env_contract|vm_compute; reflexivity|reflexivity].
  - apply H2. reflexivity.
Defined.

(** C4 as stated fails: a market whose volatility is [NaN] passes the
    guard and gets the score [NaN], and [computeSignalScore] returns
    [NaN] for an input that is [NaN]; [NaN] is not within [[0, 100]]. *)
Lemma signalScore_nan_counterexample :
  (exists s,
     fst (generateSignal sample_toString10 sample_toString36
            (sample_market PrimFloat.nan) sample_env) = Some s /\
     ~ in_range 0 100 (Signal.signalScore s)) /\
  ~ in_range 0 100 (computeSignalScore (mkScoreParams PrimFloat.nan 60 70 50 90)).
Proof.
  split.
  - eexists. split; [vm_compute; reflexivity|].
    intros [H _]. vm_compute in H. discriminate.
  - intros [H _]. vm_compute in H. discriminate.
Qed.

(** C8: for every Signal returned by [generateSignal], the trigger is one
    of the five fixed triggers and the explanation is one of the five
    fixed explanations ([Math.random] returning values in [[0, 1)], the
    index [Math.floor(Math.random() * 5)] is always within the list). *)
Theorem generateSignal_free_text toString10 toString36
    (m : MarketState.t) (e : Env) (s : Signal.t) :
  random_contract e ->
  fst (generateSignal toString10 toString36 m e) = Some s ->
  length triggers = 5%nat /\ length explanations = 5%nat /\
  (exists t, Signal.trigger s = Some t /\ In t triggers) /\
  (exists x, Signal.explanation s = Some x /\ In x explanations).
Proof.
  intros Hr Hs.
  destruct (PrimFloat.ltb (MarketState.volatility m) 0.3) eqn:Hv.
  { rewrite (generateSignal_null toString10 toString36 m e Hv) in Hs.
    discriminate. }
  destruct (generateSignal_some toString10 toString36 m e Hv)
    as (s0 & E & _ & _ & Ht & Hx & _).
  rewrite E in Hs. simpl in Hs. injection Hs as <-.
  rewrite Ht, Hx.
  split; [reflexivity|]. split; [reflexivity|].
  split; apply pick_defined; auto; apply Hr.
Qed.

Lemma generateSignal_free_text_witness :
  exists s,
    random_contract sample_env /\
    fst (generateSignal sample_toString10 sample_toString36
           (sample_market 0.9) sample_env) = Some s /\
    Signal.trigger s = Some "Sharp money indicators across 3+ books"%string /\
    (exists t, Signal.trigger s = Some t /\ In t triggers) /\
    (exists x, Signal.explanation s = Some x /\ In x explanations).
Proof.
  eexists. split; [exact sample_env_contract|].
  split; [vm_compute; reflexivity|]. split; [reflexivity|].
  match goal with
  | |- (exists t, Signal.trigger ?s = _ /\ _) /\ _ =>
      apply (generateSignal_free_text sample_toString10 sample_toString36
               (sample_market 0.9) sample_env s)
  end.
  - exact sample_env_contract.
  - vm_compute; reflexivity.
Defined.

(** ** [Array.prototype.sort] *)

Section ArraySortFacts.
Context {A : Type}.
Variable comparefn : A -> A -> number.

(** The comparator never puts two elements each after the other. *)
Hypothesis asymmetric :
  forall x y, sorts_after comparefn x y = true -> sorts_after comparefn y x = false.

Lemma sort_insert_Permutation x (l : list A) :
  Permutation (sort_insert comparefn x l) (x :: l).
Proof.
  induction l as [|y l IH]; simpl; [reflexivity|].
  destruct (sorts_after comparefn x y); [|reflexivity].
  rewrite IH. apply perm_swap.
Qed.

Lemma Array_sort_Permutation (l : list A) :
  Permutation (Array_sort comparefn l) l.
Proof.
  induction l as [|x l IH]; simpl; [reflexivity|].
  rewrite sort_insert_Permutation. constructor. exact IH.
Qed.

Lemma sort_insert_Sorted x (l : list A) :
  Sorted (fun a b => sorts_after comparefn a b = false) l ->
  Sorted (fun a b => sorts_after comparefn a b = false) (sort_insert comparefn x l).
Proof.
  induction 1 as [|y l Hl IH Hhd]; simpl.
  - repeat constructor.
  - destruct (sorts_after comparefn x y) eqn:E.
    + constructor; [exact IH|].
      destruct Hhd as [|z l' Hz]; simpl.
      * constructor. apply asymmetric, E.
      * destruct (sorts_after comparefn x z); constructor; auto.
    + repeat constructor; auto.
Qed.

Lemma Array_sort_Sorted (l : list A) :
  Sorted (fun a b => sorts_after comparefn a b = false) (Array_sort comparefn l).
Proof.
  induction l as [|x l IH]; simpl; [constructor|].
  apply sort_insert_Sorted, IH.
Qed.

End ArraySortFacts.

Lemma Sorted_adjacent {A} (R : A -> A -> Prop) (l : list A) i a b :
  Sorted R l -> l !! i = Some a -> l !! S i = Some b -> R a b.
Proof.
  intros H. revert i. induction H as [|x l Hl IH Hhd]; intros i Ha Hb.
  - discriminate.
  - destruct i as [|i]; simpl in *.
    + injection Ha as ->. destruct Hhd as [|y l' Hy]; [discriminate|].
      simpl in Hb. injection Hb as ->. exact Hy.
    + eapply IH; eauto.
Qed.

Lemma Array_sort_In {A} (comparefn : A -> A -> number) l x :
  In x (Array_sort comparefn l) <-> In x l.
Proof.
  split; apply Permutation_in;
    [|symmetry]; apply Array_sort_Permutation.
Qed.

(** ** The comparator of [GET /signals] *)

Lemma by_score_then_time_after a b :
  sorts_after by_score_then_time a b =
  if strict_neq (Signal.signalScore b) (Signal.signalScore a)
  then PrimFloat.ltb (Signal.signalScore a) (Signal.signalScore b)
  else PrimFloat.ltb (Signal.triggeredAt a) (Signal.triggeredAt b).
Proof.
  unfold sorts_after, by_score_then_time.
  destruct (strict_neq _ _); apply sub_positive.
Qed.

Lemma by_score_then_time_asymmetric a b :
  sorts_after by_score_then_time a b = true ->
  sorts_after by_score_then_time b a = false.
Proof.
  rewrite !by_score_then_time_after. unfold strict_neq.
  rewrite (num_eqb_comm (Signal.signalScore a)).
  destruct (PrimFloat.eqb (Signal.signalScore b) (Signal.signalScore a)) eqn:E;
    simpl; intros H.
  - apply num_ltb_asym, H.
  - apply num_ltb_asym, H.
Qed.

Lemma not_after_ordered a b :
  numbers_defined a -> numbers_defined b ->
  sorts_after by_score_then_time a b = false -> score_desc_then_time a b.
Proof.
  intros [Hsa Hta] [Hsb Htb]. rewrite by_score_then_time_after.
  unfold strict_neq, score_desc_then_time, gtb, geb.
  destruct (PrimFloat.eqb (Signal.signalScore b) (Signal.signalScore a)) eqn:E;
    simpl; intros H.
  - right. split; [apply num_eqb_sym, E|]. apply num_not_ltb_leb; auto.
  - left. apply num_not_ltb_leb in H; auto.
    destruct (num_leb_cases _ _ H) as [Hlt|Heq]; [exact Hlt|congruence].
Qed.

(** ** Well-formed stores *)

Lemma prefix_append p x : String.prefix p (p +:+ x) = true.
Proof.
  induction p as [|a p IH]; simpl.
  - destruct x; reflexivity.
  - destruct (ascii_dec a a); [exact IH|congruence].
Qed.

Lemma prefix_head a p k :
  String.prefix (String a p) k = true -> exists k', k = String a k'.
Proof.
  destruct k as [|b k]; simpl; [discriminate|].
  destruct (ascii_dec a b) as [->|]; [eauto|discriminate].
Qed.

Lemma store_typed_set k v (s : Store) :
  key_fits k v = true -> store_typed s -> store_typed (kv_set k v s).
Proof.
  intros Hk Hs k' v' H. unfold kv_set in H.
  apply lookup_insert_Some in H as [[<- <-]|[_ H]]; [exact Hk|exact (Hs _ _ H)].
Qed.

Lemma store_typed_markets markets : forall s,
  store_typed s -> store_typed (fold_left write_market markets s).
Proof.
  induction markets as [|m markets IH]; intros s Hs; simpl; [exact Hs|].
  apply IH, store_typed_set; [apply prefix_append|exact Hs].
Qed.

Lemma store_typed_signals signals : forall s,
  store_typed s -> store_typed (fold_left write_signal signals s).
Proof.
  induction signals as [|g signals IH]; intros s Hs; simpl; [exact Hs|].
  apply IH, store_typed_set; [apply prefix_append|exact Hs].
Qed.

Lemma store_typed_check (s : Store) :
  forallb (fun kv => key_fits kv.1 kv.2) (map_to_list s) = true ->
  store_typed s.
Proof.
  intros H k v Hk. rewrite forallb_forall in H.
  apply elem_of_map_to_list, list_elem_of_In in Hk. exact (H _ Hk).
Qed.

Lemma kv_getByPrefix_In p (s : Store) r :
  In r (kv_getByPrefix p s) <->
  String.prefix p (key r) = true /\ s !! key r = Some (value r).
Proof.
  unfold kv_getByPrefix. rewrite in_map_iff. split.
  - intros ([k v] & <- & H). apply filter_In in H as [H Hp]. simpl in *.
    split; [exact Hp|].
    apply list_elem_of_In, elem_of_map_to_list in H. exact H.
  - intros [Hp H]. exists (key r, value r). split; [destruct r; reflexivity|].
    apply filter_In. split; [|exact Hp].
    apply list_elem_of_In, elem_of_map_to_list. exact H.
Qed.

Lemma typed_market_row (s : Store) r :
  store_typed s -> In r (kv_getByPrefix "market:" s) ->
  exists m, as_MarketState (value r) = Some m.
Proof.
  intros Hs Hr. apply kv_getByPrefix_In in Hr as [Hp Hk].
  apply Hs in Hk. destruct (value r) as [m|g|l]; [eauto| |];
    simpl in Hk; apply prefix_head in Hp as [k1 E1];
    apply prefix_head in Hk as [k2 E2]; congruence.
Qed.

Lemma typed_signal_row (s : Store) r :
  store_typed s -> In r (kv_getByPrefix "signal:" s) ->
  exists g, as_Signal (value r) = Some g.
Proof.
  intros Hs Hr. apply kv_getByPrefix_In in Hr as [Hp Hk].
  apply Hs in Hk. destruct (value r) as [m|g|l]; [|eauto|];
    simpl in Hk; apply prefix_head in Hp as [k1 E1];
    apply prefix_head in Hk as [k2 E2]; congruence.
Qed.

Lemma parse_rows_Returned {T} (cast : json -> option T) rows w xs w' :
  parse_rows cast rows w = Returned xs w' ->
  w' = w /\ List.map (fun r => cast (value r)) rows = List.map Some xs.
Proof.
  revert xs. induction rows as [|r rows IH]; intros xs; simpl.
  - unfold pret. intros H. injection H as <- <-. auto.
  - destruct (cast (value r)) as [x|] eqn:E; [|discriminate].
    unfold pbind. destruct (parse_rows cast rows w) as [ys w1| |] eqn:E';
      try discriminate.
    unfold pret. intros H. injection H as <- <-.
    destruct (IH ys eq_refl) as [-> Hm]. split; [reflexivity|].
    simpl. rewrite Hm. reflexivity.
Qed.

Lemma parsed_In {T} (cast : json -> option T) rows xs x :
  List.map (fun r => cast (value r)) rows = List.map Some xs ->
  In x xs <-> exists r, In r rows /\ cast (value r) = Some x.
Proof.
  revert xs. induction rows as [|r rows IH]; intros [|y xs] H; simpl in *;
    try discriminate.
  - split; [tauto|]. intros (r & [] & _).
  - injection H as Hy H. rewrite (IH xs H). split.
    + intros [->|(r' & Hr' & Hx)]; eauto.
    + intros (r' & [->|Hr'] & Hx); [left; congruence|right; eauto].
Qed.

Lemma parse_rows_total {T} (cast : json -> option T) rows w :
  (forall r, In r rows -> exists x, cast (value r) = Some x) ->
  exists xs, parse_rows cast rows w = Returned xs w.
Proof.
  induction rows as [|r rows IH]; intros H; simpl.
  - exists []. reflexivity.
  - destruct (H r (or_introl eq_refl)) as [x ->].
    destruct IH as [xs Hxs]; [intros r' Hr'; apply H; right; exact Hr'|].
    unfold pbind. rewrite Hxs. eexists. reflexivity.
Qed.

Lemma parse_rows_final {T} (cast : json -> option T) rows w :
  match parse_rows cast rows w with
  | Returned _ w' | Thrown w' => w' = w
  | Diverged => False
  end.
Proof.
  induction rows as [|r rows IH]; simpl; [reflexivity|].
  destruct (cast (value r)); [|reflexivity].
  unfold pbind. destruct (parse_rows cast rows w); auto.
Qed.

(** ** [GET /signals] *)

Lemma apply_filters_In sport marketType minConfidence all s :
  In s (apply_filters sport marketType minConfidence all) <->
  In s all /\ passes_sport sport s = true /\
  passes_marketType marketType s = true /\
  passes_minConfidence minConfidence s = true.
Proof.
  unfold apply_filters, passes_sport, passes_marketType, passes_minConfidence.
  destruct (given sport), (given marketType), (given minConfidence);
    rewrite ?filter_In; tauto.
Qed.

(** What [GET /signals] returns. *)
Lemma get_signals_Returned sport marketType minConfidence w w' l :
  get_signals sport marketType minConfidence w = Returned (SignalsOk l) w' ->
  exists all,
    (forall s, In s all <-> stored_signal w s) /\
    l = Array_sort by_score_then_time
          (apply_filters sport marketType minConfidence all).
Proof.
  unfold get_signals, try_catch, pbind, getByPrefix.
  destruct (parse_rows as_Signal _ w) as [all w1| |] eqn:E; try discriminate.
  unfold pret. intros H. injection H as <- <-.
  apply parse_rows_Returned in E as [-> Hm].
  exists all. split; [|reflexivity].
  intros s. rewrite (parsed_In _ _ _ s Hm). unfold stored_signal. split.
  - intros (r & Hr & Hs). apply kv_getByPrefix_In in Hr as [Hp Hk].
    exists (key r). split; [exact Hp|].
    destruct (value r); try discriminate. simpl in Hs. congruence.
  - intros (k & Hp & Hk). exists (mk_row k (JSignal s)).
    split; [|reflexivity]. apply kv_getByPrefix_In. auto.
Qed.

(** On a well-formed store [GET /signals] answers with a list. *)
Lemma get_signals_total sport marketType minConfidence w :
  store_typed (kv w) ->
  exists l, get_signals sport marketType minConfidence w
            = Returned (SignalsOk l) w.
Proof.
  intros Hs. unfold get_signals, try_catch, pbind, getByPrefix.
  destruct (parse_rows_total as_Signal (kv_getByPrefix "signal:" (kv w)) w)
    as [all ->]; [intros r; apply typed_signal_row, Hs|].
  unfold pret. eexists. reflexivity.
Qed.

Lemma signal_checked_sound (w : World) :
  forallb (fun kv => signal_checked kv.2) (map_to_list (kv w)) = true ->
  forall s, stored_signal w s ->
    numbers_defined s /\
    Signal.confidence s = confidence_of (Signal.signalScore s).
Proof.
  intros H s (k & _ & Hk). rewrite forallb_forall in H.
  apply elem_of_map_to_list, list_elem_of_In in Hk.
  specialize (H _ Hk). simpl in H.
  apply andb_true_iff in H as [H Hc]. apply andb_true_iff in H as [Hs Ht].
  apply negb_true_iff in Hs, Ht. split; [split; assumption|].
  destruct (Signal.confidence s), (confidence_of _); simpl in Hc;
    congruence.
Qed.

Lemma sample_world_signals s :
  stored_signal sample_world s ->
  numbers_defined s /\ Signal.confidence s = confidence_of (Signal.signalScore s).
Proof.
  apply signal_checked_sound. vm_compute. reflexivity.
Qed.

Lemma sample_world_typed : store_typed (kv sample_world).
Proof. apply store_typed_check. vm_compute. reflexivity. Qed.

(** C9: [GET /signals] returns the stored Signals that pass the filters,
    sorted by descending score with ties broken by descending
    [triggeredAt]: in every adjacent pair [(a, b)] of the returned list,
    [a.signalScore > b.signalScore], or the two scores are equal and
    [a.triggeredAt >= b.triggeredAt]. The numbers of a stored Signal come
    from JSON texts, which cannot hold [NaN]. *)
Theorem get_signals_sorted sport marketType minConfidence (w : World) :
  store_typed (kv w) ->
  (forall s, stored_signal w s -> numbers_defined s) ->
  exists l,
    get_signals sport marketType minConfidence w = Returned (SignalsOk l) w /\
    (forall s, In s l <->
       stored_signal w s /\ passes_sport sport s = true /\
       passes_marketType marketType s = true /\
       passes_minConfidence minConfidence s = true) /\
    (forall i a b, l !! i = Some a -> l !! S i = Some b ->
       score_desc_then_time a b).
Proof.
  intros Ht Hnum.
  destruct (get_signals_total sport marketType minConfidence w Ht) as [l H].
  exists l. split; [exact H|].
  apply get_signals_Returned in H as (all & Hall & ->).
  assert (Hin : forall s,
    In s (Array_sort by_score_then_time
            (apply_filters sport marketType minConfidence all)) <->
    stored_signal w s /\ passes_sport sport s = true /\
    passes_marketType marketType s = true /\
    passes_minConfidence minConfidence s = true).
  { intros s. rewrite Array_sort_In, apply_filters_In, Hall. reflexivity. }
  split; [exact Hin|].
  intros i a b Ha Hb.
  apply not_after_ordered.
  - apply Hnum, Hin. apply list_elem_of_In, list_elem_of_lookup. eauto.
  - apply Hnum, Hin. apply list_elem_of_In, list_elem_of_lookup. eauto.
  - refine (Sorted_adjacent
              (fun a b => sorts_after by_score_then_time a b = false)
              _ i a b _ Ha Hb).
    apply Array_sort_Sorted, by_score_then_time_asymmetric.
Qed.

Lemma sample_world_get_signals :
  option_map (List.map Signal.signalScore)
    (returned_signals (get_signals None None None sample_world))
  = Some [86; 75; 46]%float.
Proof. vm_compute. reflexivity. Qed.

Lemma get_signals_sorted_witness :
  store_typed (kv sample_world) /\
  (forall s, stored_signal sample_world s -> numbers_defined s) /\
  exists l,
    get_signals None None None sample_world
      = Returned (SignalsOk l) sample_world /\
    List.map Signal.signalScore l = [86; 75; 46]%float /\
    (forall i a b, l !! i = Some a -> l !! S i = Some b ->
       score_desc_then_time a b).
Proof.
  assert (Hnum : forall s, stored_signal sample_world s -> numbers_defined s)
    by (intros s Hs; apply sample_world_signals, Hs).
  split; [exact sample_world_typed|]. split; [exact Hnum|].
  destruct (get_signals_sorted None None None sample_world
              sample_world_typed Hnum) as (l & Hl & _ & Hsorted).
  exists l. split; [exact Hl|]. split; [|exact Hsorted].
  pose proof sample_world_get_signals as H. rewrite Hl in H.
  cbn [returned_signals option_map] in H. injection H as H. exact H.
Defined.

(** C10: the [minConfidence] filter of [GET /signals] selects by score
    with inclusive thresholds, not by the confidence field: under
    [minConfidence = "high"] a stored Signal (that passes the other
    filters) is returned iff [signalScore >= 75], under ["medium"] iff
    [signalScore >= 55]; so a Signal that [generateSignal] gave the score
    75, whose confidence is medium, is returned under ["high"]. *)
Theorem get_signals_minConfidence toString10 toString36
    (sport marketType : option string) (w : World)
    (m : MarketState.t) (e : Env) (g : Signal.t) :
  store_typed (kv w) ->
  exists high medium,
    get_signals sport marketType (Some "high"%string) w
      = Returned (SignalsOk high) w /\
    get_signals sport marketType (Some "medium"%string) w
      = Returned (SignalsOk medium) w /\
    (forall s, In s high <->
       stored_signal w s /\ passes_sport sport s = true /\
       passes_marketType marketType s = true /\
       geb (Signal.signalScore s) 75 = true) /\
    (forall s, In s medium <->
       stored_signal w s /\ passes_sport sport s = true /\
       passes_marketType marketType s = true /\
       geb (Signal.signalScore s) 55 = true) /\
    (fst (generateSignal toString10 toString36 m e) = Some g ->
     PrimFloat.eqb (Signal.signalScore g) 75 = true ->
     Signal.confidence g = Medium /\
     (stored_signal w g -> passes_sport sport g = true ->
      passes_marketType marketType g = true -> In g high)).
Proof.
  intros Ht.
  destruct (get_signals_total sport marketType (Some "high"%string) w Ht)
    as [high Hh].
  destruct (get_signals_total sport marketType (Some "medium"%string) w Ht)
    as [medium Hm].
  exists high, medium. split; [exact Hh|]. split; [exact Hm|].
  apply get_signals_Returned in Hh as (all & Hall & ->).
  apply get_signals_Returned in Hm as (all' & Hall' & ->).
  assert (Hhigh : forall s,
    In s (Array_sort by_score_then_time
            (apply_filters sport marketType (Some "high"%string) all)) <->
    stored_signal w s /\ passes_sport sport s = true /\
    passes_marketType marketType s = true /\
    geb (Signal.signalScore s) 75 = true).
  { intros s. rewrite Array_sort_In, apply_filters_In, Hall. reflexivity. }
  split; [exact Hhigh|]. split.
  - intros s. rewrite Array_sort_In, apply_filters_In, Hall'. reflexivity.
  - intros Hg H75. apply eqb_75 in H75.
    split.
    + rewrite (generateSignal_confidence_of _ _ _ _ _ Hg), H75.
      exact confidence_of_75.
    + intros Hst Hs Hmt. apply Hhigh. repeat (split; [assumption|]).
      rewrite H75. vm_compute. reflexivity.
Qed.

Lemma sample_world_high :
  option_map (List.map Signal.signalScore)
    (returned_signals (get_signals None None (Some "high"%string) sample_world))
  = Some [86; 75]%float.
Proof. vm_compute. reflexivity. Qed.

Lemma sample_world_medium :
  option_map (List.map Signal.signalScore)
    (returned_signals (get_signals None None (Some "medium"%string) sample_world))
  = Some [86; 75]%float.
Proof. vm_compute. reflexivity. Qed.

Lemma sample_generated_stored :
  JSignal <$> sample_generated
  = kv sample_world !! "signal:signal-1700000001000-4fzyo82mv"%string.
Proof. vm_compute. reflexivity. Qed.

Lemma sample_generated_score :
  option_map Signal.signalScore sample_generated = Some 75%float.
Proof. vm_compute. reflexivity. Qed.

Lemma get_signals_minConfidence_witness :
  store_typed (kv sample_world) /\
  exists high g,
    get_signals None None (Some "high"%string) sample_world
      = Returned (SignalsOk high) sample_world /\
    List.map Signal.signalScore high = [86; 75]%float /\
    sample_generated = Some g /\
    PrimFloat.eqb (Signal.signalScore g) 75 = true /\
    stored_signal sample_world g /\
    Signal.confidence g = Medium /\ In g high.
Proof.
  split; [exact sample_world_typed|].
  pose proof sample_generated_stored as Hst.
  pose proof sample_generated_score as Hsc.
  remember sample_generated as generated eqn:Eg.
  destruct generated as [g|]; [|discriminate Hsc].
  cbn [option_map] in Hsc. injection Hsc as Hsc.
  cbn [fmap option_fmap option_map] in Hst.
  assert (H75 : PrimFloat.eqb (Signal.signalScore g) 75 = true)
    by (rewrite Hsc; reflexivity).
  assert (Hstored : stored_signal sample_world g).
  { exists stale_key. split; [reflexivity|symmetry; exact Hst]. }
  destruct (get_signals_minConfidence sample_toString10 sample_toString36
              None None sample_world (sample_market 0.665)
              (mkEnv sample_random 2 sample_time 0) g sample_world_typed)
    as (high & medium & Hh & _ & _ & _ & H).
  destruct (H (eq_sym Eg) H75) as [Hc Hin].
  exists high, g. split; [exact Hh|].
  split.
  { pose proof sample_world_high as Hs. rewrite Hh in Hs.
    cbn [returned_signals option_map] in Hs. injection Hs as Hs. exact Hs. }
  repeat (split; [first [reflexivity | assumption]|]).
  apply Hin; [exact Hstored|reflexivity|reflexivity].
Defined.

(** ** The writes of the handlers *)

Lemma same_sources_refl e : same_sources e e.
Proof. split; reflexivity. Qed.

Lemma same_sources_trans e1 e2 e3 :
  same_sources e1 e2 -> same_sources e2 e3 -> same_sources e1 e3.
Proof. intros [A B] [C D]. split; congruence. Qed.

Lemma same_sources_contract e e' :
  same_sources e e' -> random_contract e -> random_contract e'.
Proof. intros [H _] Hc n. rewrite H. apply Hc. Qed.

Lemma same_sources_redraws fuel e e' :
  same_sources e e' -> redraws_end fuel e -> redraws_end fuel e'.
Proof.
  intros [H _] Hr sport sportTeams n Hs. rewrite H. exact (Hr _ _ n Hs).
Qed.

Lemma Math_random_sources e : same_sources e (snd (Math_random e)).
Proof. split; reflexivity. Qed.

Lemma Date_now_sources e : same_sources e (snd (Date_now e)).
Proof. split; reflexivity. Qed.

Lemma generateSignal_sources toString10 toString36 m e :
  same_sources e (snd (generateSignal toString10 toString36 m e)).
Proof.
  destruct (PrimFloat.ltb (MarketState.volatility m) 0.3) eqn:H.
  - rewrite (generateSignal_null _ _ _ _ H). apply Date_now_sources.
  - destruct (generateSignal_some toString10 toString36 m e H) as (s & -> & _).
    split; reflexivity.
Qed.

Lemma redraw_team2_final fuel sportTeams team1 team2 w :
  match redraw_team2 fuel sportTeams team1 team2 w with
  | Returned _ w' => kv w' = kv w /\ same_sources (env w) (env w')
  | Thrown _ => False
  | Diverged => True
  end.
Proof.
  revert team2 w. induction fuel as [|fuel IH]; intros team2 w; simpl;
    destruct (same_team team2 team1); simpl; auto using same_sources_refl.
  exact (IH (pick sportTeams (fst (Math_random (env w))))
            (mkWorld (snd (Math_random (env w))) (kv w))).
Qed.

Lemma mockMarket_final fuel i w :
  match mockMarket fuel i w with
  | Returned m w' =>
      kv w' = kv w /\ same_sources (env w) (env w') /\
      MarketState.marketId m = ("market-" +:+ pretty i)%string /\
      (random_contract (env w) -> volatility_in_unit m)
  | Thrown w' => kv w' = kv w /\ same_sources (env w) (env w')
  | Diverged => True
  end.
Proof.
  unfold mockMarket, pbind at 1, lift at 1. cbn [Math_random env kv].
  destruct (pick sports _) as [sport|];
    [|split; [reflexivity|split; reflexivity]].
  destruct (teams_get teams sport) as [sportTeams|];
    [|split; [reflexivity|split; reflexivity]].
  unfold pbind at 1, lift at 1. cbn [Math_random env kv].
  unfold pbind at 1, lift at 1. cbn [Math_random env kv].
  unfold pbind at 1.
  match goal with
  | |- context [redraw_team2 ?f ?t ?a ?b ?w0] =>
      pose proof (redraw_team2_final f t a b w0) as Hr;
      destruct (redraw_team2 f t a b w0) as [team2 w1| |]
  end; [|contradiction|exact I].
  destruct Hr as [Hk [Hs1 Hs2]]. cbn [env kv random_values time_values] in *.
  cbv [pbind lift pret Math_random Date_now]. cbn [env kv MarketState.marketId MarketState.volatility random_values].
  split; [exact Hk|]. split; [split; assumption|]. split; [reflexivity|].
  intros Hc. unfold volatility_in_unit, in_range.
  rewrite Hs1. destruct (Hc (S (S (random_calls (env w1))))) as [H0 H1].
  split; [exact H0|apply num_ltb_leb, H1].
Qed.

Lemma marketLoop_final fuel n : forall i acc w,
  match marketLoop fuel n i acc w with
  | Returned markets w' =>
      exists new,
        markets = acc ++ new /\ length new = n /\
        kv w' = fold_left write_market new (kv w) /\
        same_sources (env w) (env w') /\
        (forall j m, new !! j = Some m ->
           MarketState.marketId m = ("market-" +:+ pretty (i + j)%nat)%string) /\
        (random_contract (env w) -> Forall volatility_in_unit new)
  | Thrown w' =>
      exists new,
        kv w' = fold_left write_market new (kv w) /\
        same_sources (env w) (env w') /\
        (random_contract (env w) -> Forall volatility_in_unit new)
  | Diverged => True
  end.
Proof.
  induction n as [|n IH]; intros i acc w; simpl.
  - exists []. rewrite app_nil_r. repeat split; auto.
    intros j m Hj. discriminate.
  - unfold pbind at 1.
    pose proof (mockMarket_final fuel i w) as Hm.
    destruct (mockMarket fuel i w) as [m w1|w1|]; [| |exact I].
    + destruct Hm as (Hk & Hs & Hid & Hv).
      unfold pbind at 1, set at 1.
      specialize (IH (S i) (acc ++ [m])
                    (mkWorld (env w1)
                       (kv_set ("market:" +:+ MarketState.marketId m)
                          (JMarketState m) (kv w1)))).
      destruct (marketLoop fuel n (S i) (acc ++ [m]) _) as [markets w'|w'|];
        [| |exact I]; cbn [env kv] in IH.
      * destruct IH as (new & -> & Hlen & Hkv & Hs' & Hids & Hvs).
        exists (m :: new). rewrite <- app_assoc. split; [reflexivity|].
        split; [simpl; congruence|]. split; [rewrite Hkv, Hk; reflexivity|].
        split; [eapply same_sources_trans; eassumption|]. split.
        -- intros [|j] m' Hj; simpl in Hj.
           ++ injection Hj as <-. rewrite Nat.add_0_r. exact Hid.
           ++ rewrite (Hids j m' Hj). do 2 f_equal. lia.
        -- intros Hc. constructor; [auto|].
           apply Hvs. eapply same_sources_contract; eassumption.
      * destruct IH as (new & Hkv & Hs' & Hvs).
        exists (m :: new). split; [rewrite Hkv, Hk; reflexivity|].
        split; [eapply same_sources_trans; eassumption|].
        intros Hc. constructor; [auto|].
        apply Hvs. eapply same_sources_contract; eassumption.
    + destruct Hm as (Hk & Hs). exists []. simpl. auto.
Qed.

Lemma teams_get_sports sport :
  In sport sports ->
  exists sportTeams,
    teams_get teams sport = Some sportTeams /\ length sportTeams = 6%nat.
Proof.
  intros H. repeat (destruct H as [<-|H]; [eexists; split; reflexivity|]).
  destruct H.
Qed.

(** With [Math.random] in [[0, 1)] no index is out of range, so that the
    loop body does not throw. *)
Lemma mockMarket_no_throw fuel i w :
  random_contract (env w) ->
  match mockMarket fuel i w with
  | Thrown _ => False
  | _ => True
  end.
Proof.
  intros Hc. unfold mockMarket, pbind at 1, lift at 1.
  cbn [Math_random env kv].
  destruct (pick_defined sports (random_values (env w) (random_calls (env w)))
              (or_intror eq_refl) (Hc _)) as (sport & -> & Hin).
  destruct (teams_get_sports sport Hin) as (sportTeams & -> & _).
  unfold pbind at 1, lift at 1. cbn [Math_random env kv].
  unfold pbind at 1, lift at 1. cbn [Math_random env kv].
  unfold pbind at 1.
  match goal with
  | |- context [redraw_team2 ?f ?t ?a ?b ?w0] =>
      pose proof (redraw_team2_final f t a b w0) as Hr;
      destruct (redraw_team2 f t a b w0) as [team2 w1| |]
  end; [|contradiction|exact I].
  cbv [pbind lift pret Math_random Date_now]. exact I.
Qed.

Lemma marketLoop_no_throw fuel n : forall i acc w,
  random_contract (env w) ->
  match marketLoop fuel n i acc w with
  | Thrown _ => False
  | _ => True
  end.
Proof.
  induction n as [|n IH]; intros i acc w Hc; simpl; [exact I|].
  unfold pbind at 1.
  pose proof (mockMarket_no_throw fuel i w Hc) as Hn.
  pose proof (mockMarket_final fuel i w) as Hm.
  destruct (mockMarket fuel i w) as [m w1|w1|]; [|contradiction|exact I].
  destruct Hm as (_ & Hs & _).
  unfold pbind at 1, set at 1.
  apply IH. cbn [env]. eapply same_sources_contract; eassumption.
Qed.

Lemma redraw_team2_returns sportTeams team1 fuel : forall team2 w,
  same_team team2 team1 = false \/
  (exists k, (k < fuel)%nat /\
     same_team (pick sportTeams
                  (random_values (env w) (random_calls (env w) + k)))
               team1 = false) ->
  exists team2' w',
    redraw_team2 fuel sportTeams team1 team2 w = Returned team2' w'.
Proof.
  induction fuel as [|fuel IH]; intros team2 w H; simpl.
  - destruct H as [->|(k & Hk & _)]; [|lia]. unfold pret. eauto.
  - destruct (same_team team2 team1) eqn:E; [|unfold pret; eauto].
    destruct H as [H|(k & Hk & H)]; [discriminate|].
    unfold pbind, lift. cbn [Math_random].
    apply IH. cbn [env random_values random_calls].
    destruct k as [|k].
    + left. rewrite Nat.add_0_r in H. exact H.
    + right. exists k. split; [lia|].
      replace (S (random_calls (env w)) + k)%nat
        with (random_calls (env w) + S k)%nat by lia.
      exact H.
Qed.

Lemma mockMarket_returns fuel i w :
  random_contract (env w) -> redraws_end fuel (env w) ->
  exists m w', mockMarket fuel i w = Returned m w'.
Proof.
  intros Hc Hr. unfold mockMarket, pbind at 1, lift at 1.
  cbn [Math_random env kv].
  destruct (pick_defined sports (random_values (env w) (random_calls (env w)))
              (or_intror eq_refl) (Hc _)) as (sport & -> & Hin).
  destruct (teams_get_sports sport Hin) as (sportTeams & Hts & _).
  rewrite Hts.
  unfold pbind at 1, lift at 1. cbn [Math_random env kv].
  unfold pbind at 1, lift at 1. cbn [Math_random env kv].
  unfold pbind at 1.
  cbn [random_values random_calls].
  match goal with
  | |- context [redraw_team2 ?f ?t ?a ?b ?w0] =>
      destruct (redraw_team2_returns t a f b w0) as (team2 & w1 & ->)
  end.
  - destruct (Hr sport sportTeams (S (random_calls (env w))) Hts)
      as (k & Hk & H).
    destruct k as [|k].
    + left. rewrite Nat.add_0_r in H. exact H.
    + right. exists k. split; [lia|]. cbn [env random_values random_calls].
      replace (S (S (S (random_calls (env w)))) + k)%nat
        with (S (S (random_calls (env w))) + S k)%nat by lia.
      exact H.
  - cbv [pbind lift pret Math_random Date_now]. eauto.
Qed.

Lemma marketLoop_returns fuel n : forall i acc w,
  random_contract (env w) -> redraws_end fuel (env w) ->
  exists markets w', marketLoop fuel n i acc w = Returned markets w'.
Proof.
  induction n as [|n IH]; intros i acc w Hc Hr; simpl.
  - unfold pret. eauto.
  - unfold pbind at 1.
    pose proof (mockMarket_final fuel i w) as Hm.
    destruct (mockMarket_returns fuel i w Hc Hr) as (m & w1 & E).
    rewrite E in Hm |- *. destruct Hm as (_ & Hs & _).
    unfold pbind at 1, set at 1.
    apply IH; cbn [env].
    + eapply same_sources_contract; eassumption.
    + eapply same_sources_redraws; eassumption.
Qed.

Section SignalWrites.
Variable toString10 toString36 : number -> string.

Lemma signalLoop_final bound rest : forall i acc w,
  exists new w',
    signalLoop toString10 toString36 bound i rest acc w
      = Returned (acc ++ new) w' /\
    kv w' = fold_left write_signal new (kv w) /\
    same_sources (env w) (env w').
Proof.
  induction rest as [|m rest IH]; intros i acc w; simpl.
  - exists [], w. rewrite app_nil_r. auto using same_sources_refl.
  - destruct (PrimFloat.ltb (number_of_nat i) bound);
      [|exists [], w; rewrite app_nil_r; auto using same_sources_refl].
    unfold pbind at 1, lift at 1.
    pose proof (generateSignal_sources toString10 toString36 m (env w)) as Hs.
    destruct (generateSignal toString10 toString36 m (env w)) as [[g|] e1];
      cbn [snd] in Hs.
    + unfold pbind at 1, set at 1. cbn [env kv].
      destruct (IH (S i) (acc ++ [g])
                  (mkWorld e1 (kv_set ("signal:" +:+ Signal.id g) (JSignal g) (kv w))))
        as (new & w' & -> & Hkv & Hs').
      exists (g :: new), w'. rewrite <- app_assoc. split; [reflexivity|].
      split; [exact Hkv|]. eapply same_sources_trans; eassumption.
    + destruct (IH (S i) acc (mkWorld e1 (kv w))) as (new & w' & -> & Hkv & Hs').
      exists new, w'. split; [reflexivity|]. split; [exact Hkv|].
      eapply same_sources_trans; eassumption.
Qed.

Lemma generateActiveSignals_final count w :
  match generateActiveSignals toString10 toString36 count w with
  | Returned signals w' =>
      kv w' = fold_left write_signal signals (kv w) /\
      same_sources (env w) (env w')
  | Thrown w' => w' = w
  | Diverged => False
  end.
Proof.
  unfold generateActiveSignals, pbind at 1, getByPrefix.
  unfold pbind at 1.
  pose proof (parse_rows_final as_MarketState (kv_getByPrefix "market:" (kv w)) w) as Hp.
  destruct (parse_rows as_MarketState _ w) as [markets w1|w1|];
    [|exact Hp|exact Hp]. subst w1.
  match goal with
  | |- context [signalLoop _ _ ?b ?i ?rest ?acc ?w0] =>
      destruct (signalLoop_final b rest i acc w0) as (new & w' & -> & Hkv & Hs)
  end.
  simpl. auto.
Qed.

(** What [POST /init] leaves in the store. *)
Lemma post_init_final fuel w :
  match post_init toString10 toString36 fuel w with
  | Returned (InitOk nm ns) w' =>
      exists markets signals,
        nm = 25%nat /\ ns = length signals /\ length markets = 25%nat /\
        (forall j m, markets !! j = Some m ->
           MarketState.marketId m = ("market-" +:+ pretty j)%string) /\
        (random_contract (env w) -> Forall volatility_in_unit markets) /\
        kv w' = fold_left write_signal signals
                  (fold_left write_market markets (kv w)) /\
        same_sources (env w) (env w')
  | Returned InitError w' =>
      exists markets,
        (random_contract (env w) -> Forall volatility_in_unit markets) /\
        kv w' = fold_left write_market markets (kv w) /\
        same_sources (env w) (env w')
  | Thrown _ => False
  | Diverged => True
  end.
Proof.
  unfold post_init, try_catch, pbind at 1, initializeMockMarkets.
  pose proof (marketLoop_final fuel 25 0 [] w) as Hm.
  destruct (marketLoop fuel 25 0 [] w) as [markets w1|w1|]; [| |exact I].
  - destruct Hm as (new & -> & Hlen & Hkv & Hs & Hids & Hvs). simpl app.
    unfold pbind at 1.
    pose proof (generateActiveSignals_final 15 w1) as Hg.
    destruct (generateActiveSignals toString10 toString36 15 w1)
      as [signals w2|w2|]; [| |contradiction].
    + destruct Hg as [Hkv2 Hs2]. unfold pret.
      exists new, signals. repeat (split; [auto; fail|]).
      split; [rewrite Hkv2, Hkv; reflexivity|].
      eapply same_sources_trans; eassumption.
    + subst w2. unfold pret. exists new. auto.
  - destruct Hm as (new & Hkv & Hs & Hvs). unfold pret. exists new. auto.
Qed.

End SignalWrites.

(** ** Lookups after the writes *)

Lemma write_signal_lookup signals : forall (s : Store) k v,
  fold_left write_signal signals s !! k = Some v ->
  s !! k = Some v \/ exists g, In g signals /\ v = JSignal g.
Proof.
  induction signals as [|g signals IH]; intros s k v H; simpl in *; [auto|].
  apply IH in H as [H|(g' & Hg & ->)]; [|right; eauto].
  unfold write_signal, kv_set in H.
  apply lookup_insert_Some in H as [[_ <-]|[_ H]]; [right; eauto|auto].
Qed.

Lemma write_market_lookup markets : forall (s : Store) k v,
  fold_left write_market markets s !! k = Some v ->
  s !! k = Some v \/ exists m, In m markets /\ v = JMarketState m.
Proof.
  induction markets as [|m markets IH]; intros s k v H; simpl in *; [auto|].
  apply IH in H as [H|(m' & Hm & ->)]; [|right; eauto].
  unfold write_market, kv_set in H.
  apply lookup_insert_Some in H as [[_ <-]|[_ H]]; [right; eauto|auto].
Qed.

Lemma write_signal_other signals : forall (s : Store) k,
  (forall g, In g signals -> k <> ("signal:" +:+ Signal.id g)%string) ->
  fold_left write_signal signals s !! k = s !! k.
Proof.
  induction signals as [|g signals IH]; intros s k H; simpl; [reflexivity|].
  rewrite IH by (intros g' Hg'; apply H; right; exact Hg').
  unfold write_signal, kv_set. apply lookup_insert_ne.
  intros E. apply (H g); [left; reflexivity|]. symmetry. exact E.
Qed.

Lemma write_market_other markets : forall (s : Store) k,
  (forall m, In m markets -> k <> ("market:" +:+ MarketState.marketId m)%string) ->
  fold_left write_market markets s !! k = s !! k.
Proof.
  induction markets as [|m markets IH]; intros s k H; simpl; [reflexivity|].
  rewrite IH by (intros m' Hm'; apply H; right; exact Hm').
  unfold write_market, kv_set. apply lookup_insert_ne.
  intros E. apply (H m); [left; reflexivity|]. symmetry. exact E.
Qed.

(** The last Signal written under an id is the one stored. *)
Lemma write_signal_key signals : forall (s : Store) g,
  In g signals ->
  exists g', In g' signals /\ Signal.id g' = Signal.id g /\
    fold_left write_signal signals s !! ("signal:" +:+ Signal.id g)%string
      = Some (JSignal g').
Proof.
  induction signals as [|g0 signals IH]; intros s g Hg; [destruct Hg|].
  simpl.
  destruct (in_dec String.string_dec (Signal.id g) (List.map Signal.id signals))
    as [Hin|Hnot].
  - apply in_map_iff in Hin as (g1 & Hid & Hg1).
    destruct (IH (write_signal s g0) g1 Hg1) as (g' & Hg' & Hid' & Hl).
    exists g'. split; [right; exact Hg'|]. split; [congruence|].
    rewrite <- Hid. exact Hl.
  - destruct Hg as [->|Hg]; [|exfalso; apply Hnot, in_map, Hg].
    exists g. split; [left; reflexivity|]. split; [reflexivity|].
    rewrite write_signal_other.
    + unfold write_signal, kv_set. apply lookup_insert_eq.
    + intros g' Hg' E. apply Hnot. apply in_map_iff. exists g'.
      split; [|exact Hg']. simpl in E. injection E as E. symmetry. exact E.
Qed.

Lemma market_key_inj i j : market_key i = market_key j -> i = j.
Proof.
  unfold market_key. simpl. intros H. injection H as H.
  exact (inj pretty i j H).
Qed.

Lemma market_key_eq m i :
  MarketState.marketId m = ("market-" +:+ pretty i)%string ->
  ("market:" +:+ MarketState.marketId m)%string = market_key i.
Proof. intros ->. reflexivity. Qed.

(** Markets written under pairwise different keys are all stored. *)
Lemma write_market_key markets : forall (s : Store) i j,
  (forall j m, markets !! j = Some m ->
     MarketState.marketId m = ("market-" +:+ pretty (i + j)%nat)%string) ->
  (j < length markets)%nat ->
  fold_left write_market markets s !! market_key (i + j)
    = JMarketState <$> markets !! j.
Proof.
  induction markets as [|m markets IH]; intros s i j Hids Hj; simpl in Hj;
    [lia|].
  simpl fold_left. destruct j as [|j].
  - rewrite write_market_other.
    + unfold write_market, kv_set.
      rewrite (market_key_eq m (i + 0) (Hids 0%nat m eq_refl)).
      rewrite lookup_insert_eq. reflexivity.
    + intros m' Hm' E.
      apply list_elem_of_In, list_elem_of_lookup in Hm' as [j' Hj'].
      rewrite (market_key_eq m' (i + S j') (Hids (S j') m' Hj')) in E.
      apply market_key_inj in E. lia.
  - replace (i + S j)%nat with (S i + j)%nat by lia.
    rewrite IH; [reflexivity| |lia].
    intros j' m' Hj'. rewrite (Hids (S j') m' Hj'). do 2 f_equal. lia.
Qed.

Lemma signal_key_not_market g j :
  market_key j <> ("signal:" +:+ Signal.id g)%string.
Proof. unfold market_key. simpl. discriminate. Qed.

(** ** The handlers on a well-formed store *)

Section StoredMarkets.
Variable toString10 toString36 : number -> string.

Lemma post_signals_generate_final requested w :
  match post_signals_generate toString10 toString36 requested w with
  | Returned _ w' =>
      (exists signals, kv w' = fold_left write_signal signals (kv w)) /\
      same_sources (env w) (env w')
  | Thrown _ => False
  | Diverged => False
  end.
Proof.
  unfold post_signals_generate, try_catch, pbind.
  match goal with
  | |- context [generateActiveSignals _ _ ?c w] =>
      pose proof (generateActiveSignals_final toString10 toString36 c w) as Hg;
      destruct (generateActiveSignals toString10 toString36 c w)
        as [signals w'|w'|]
  end; [| |contradiction].
  - destruct Hg as [Hkv Hs]. unfold pret. split; [eauto|exact Hs].
  - subst w'. unfold pret. split; [exists []; reflexivity|].
    apply same_sources_refl.
Qed.

Lemma post_alerts_final userId body w :
  match post_alerts userId body w with
  | Returned _ w' =>
      (kv w' = kv w \/
       exists alerts,
         kv w' = kv_set ("user:" +:+ userId +:+ ":alerts") (JAlerts alerts) (kv w)) /\
      same_sources (env w) (env w')
  | Thrown _ => False
  | Diverged => False
  end.
Proof.
  unfold post_alerts, try_catch, pbind, get, lift, set, pret, throw, kv_get.
  cbn [Date_now env kv fst snd].
  match goal with
  | |- context [kv w !! ?k] => destruct (kv w !! k) as [[m|s|alerts]|]
  end; cbn [env kv]; (split; [|split; reflexivity]); eauto.
Qed.

Lemma step_markets w w' :
  step toString10 toString36 w w' ->
  random_contract (env w) ->
  random_contract (env w') /\
  (forall k m, kv w' !! k = Some (JMarketState m) ->
     kv w !! k = Some (JMarketState m) \/ volatility_in_unit m).
Proof.
  intros Hstep Hc. destruct Hstep as [fuel w r w' H|requested w r w' H
                                     |userId body w r w' H|w e' Hr Ht].
  - pose proof (post_init_final toString10 toString36 fuel w) as Hf.
    rewrite H in Hf. destruct r as [nm ns|].
    + destruct Hf as (markets & signals & _ & _ & _ & _ & Hv & Hkv & Hs).
      split; [eapply same_sources_contract; eassumption|].
      intros k m Hk. rewrite Hkv in Hk.
      apply write_signal_lookup in Hk as [Hk|(g & _ & Hg)]; [|discriminate].
      apply write_market_lookup in Hk as [Hk|(m' & Hm' & Hm)]; [auto|].
      right. injection Hm as ->.
      apply (proj1 (List.Forall_forall _ _) (Hv Hc)), Hm'.
    + destruct Hf as (markets & Hv & Hkv & Hs).
      split; [eapply same_sources_contract; eassumption|].
      intros k m Hk. rewrite Hkv in Hk.
      apply write_market_lookup in Hk as [Hk|(m' & Hm' & Hm)]; [auto|].
      right. injection Hm as ->.
      apply (proj1 (List.Forall_forall _ _) (Hv Hc)), Hm'.
  - pose proof (post_signals_generate_final requested w) as Hf.
    rewrite H in Hf. destruct Hf as [[signals Hkv] Hs].
    split; [eapply same_sources_contract; eassumption|].
    intros k m Hk. rewrite Hkv in Hk.
    apply write_signal_lookup in Hk as [Hk|(g & _ & Hg)]; [auto|discriminate].
  - pose proof (post_alerts_final userId body w) as Hf.
    rewrite H in Hf. destruct Hf as [[Hkv|[alerts Hkv]] Hs];
      (split; [eapply same_sources_contract; eassumption|]);
      intros k m Hk; rewrite Hkv in Hk; [auto|].
    unfold kv_set in Hk.
    apply lookup_insert_Some in Hk as [[_ Hk]|[_ Hk]]; [discriminate|auto].
  - split; [intros n; cbn [env]; rewrite Hr; apply Hc|]. cbn [kv]. auto.
Qed.

End StoredMarkets.

Section Totality.
Variable toString10 toString36 : number -> string.

Lemma generateActiveSignals_total count w :
  store_typed (kv w) ->
  exists signals w',
    generateActiveSignals toString10 toString36 count w = Returned signals w'.
Proof.
  intros Hs. unfold generateActiveSignals, pbind at 1, getByPrefix.
  unfold pbind at 1.
  destruct (parse_rows_total as_MarketState (kv_getByPrefix "market:" (kv w)) w)
    as [markets ->]; [intros r; apply typed_market_row, Hs|].
  match goal with
  | |- context [signalLoop _ _ ?b ?i ?rest ?acc ?w0] =>
      destruct (signalLoop_final toString10 toString36 b rest i acc w0)
        as (new & w' & -> & _)
  end.
  eauto.
Qed.

(** On a well-formed store, and with [Math.random] in [[0, 1)], a call of
    the init handler that ends answers with success. *)
Lemma post_init_no_error fuel w :
  random_contract (env w) -> store_typed (kv w) ->
  match post_init toString10 toString36 fuel w with
  | Returned InitError _ | Thrown _ => False
  | _ => True
  end.
Proof.
  intros Hc Hs. unfold post_init, try_catch, pbind at 1, initializeMockMarkets.
  pose proof (marketLoop_no_throw fuel 25 0 [] w Hc) as Hn.
  pose proof (marketLoop_final fuel 25 0 [] w) as Hm.
  destruct (marketLoop fuel 25 0 [] w) as [markets w1|w1|];
    [|contradiction|exact I].
  destruct Hm as (new & _ & _ & Hkv & _).
  unfold pbind at 1.
  destruct (generateActiveSignals_total 15 w1) as (signals & w' & ->).
  { rewrite Hkv. apply store_typed_markets, Hs. }
  exact I.
Qed.

Lemma step_store_typed w w' :
  step toString10 toString36 w w' -> store_typed (kv w) -> store_typed (kv w').
Proof.
  intros Hstep Hs. destruct Hstep as [fuel w r w' H|requested w r w' H
                                     |userId body w r w' H|w e' Hr Ht].
  - pose proof (post_init_final toString10 toString36 fuel w) as Hf.
    rewrite H in Hf. destruct r as [nm ns|].
    + destruct Hf as (markets & signals & _ & _ & _ & _ & _ & -> & _).
      apply store_typed_signals, store_typed_markets, Hs.
    + destruct Hf as (markets & _ & -> & _).
      apply store_typed_markets, Hs.
  - pose proof (post_signals_generate_final toString10 toString36 requested w)
      as Hf.
    rewrite H in Hf. destruct Hf as [[signals ->] _].
    apply store_typed_signals, Hs.
  - pose proof (post_alerts_final userId body w) as Hf.
    rewrite H in Hf. destruct Hf as [[->|[alerts ->]] _]; [exact Hs|].
    apply store_typed_set; [apply prefix_append|exact Hs].
  - exact Hs.
Qed.

End Totality.

Section Returns.
Variable toString10 toString36 : number -> string.

(** On a well-formed store, with [Math.random] in [[0, 1)] and redraws
    that end within the fuel, the init handler answers with success. *)
Lemma post_init_returns fuel w :
  random_contract (env w) -> redraws_end fuel (env w) -> store_typed (kv w) ->
  exists ns w',
    post_init toString10 toString36 fuel w = Returned (InitOk 25 ns) w'.
Proof.
  intros Hc Hr Hs. unfold post_init, try_catch, pbind at 1, initializeMockMarkets.
  pose proof (marketLoop_final fuel 25 0 [] w) as Hm.
  destruct (marketLoop_returns fuel 25 0 [] w Hc Hr) as (markets & w1 & E).
  rewrite E in Hm |- *. destruct Hm as (new & _ & _ & Hkv & _).
  unfold pbind at 1.
  destruct (generateActiveSignals_total toString10 toString36 15 w1)
    as (signals & w' & ->).
  { rewrite Hkv. apply store_typed_markets, Hs. }
  unfold pret. eauto.
Qed.

End Returns.

(** ** [POST /init] *)

(** C5, as the code has it: a call of the init handler that succeeds
    rewrites the 25 keys [market:market-0] to [market:market-24] with the
    markets that [initializeMockMarkets] has just generated and stores
    each newly generated Signal under [signal:<its id>]; every other
    key, the keys of the Signals stored before the call among them,
    keeps the value it had. The call succeeds on a well-formed store
    when [Math.random] is in [[0, 1)] and the redraws of [team2] end. *)
Theorem post_init_overwrites toString10 toString36 (fuel : nat) (w : World) :
  (random_contract (env w) -> redraws_end fuel (env w) ->
   store_typed (kv w) ->
   exists ns w',
     post_init toString10 toString36 fuel w = Returned (InitOk 25 ns) w') /\
  (forall nm ns w',
   post_init toString10 toString36 fuel w = Returned (InitOk nm ns) w' ->
   exists markets w1 signals,
     initializeMockMarkets fuel w = Returned markets w1 /\
     generateActiveSignals toString10 toString36 15 w1 = Returned signals w' /\
     nm = 25%nat /\ ns = length signals /\ length markets = 25%nat /\
     (forall j, (j < 25)%nat ->
        kv w' !! market_key j = JMarketState <$> markets !! j) /\
     (forall g, In g signals ->
        exists g', In g' signals /\ Signal.id g' = Signal.id g /\
          kv w' !! ("signal:" +:+ Signal.id g)%string = Some (JSignal g')) /\
     (forall k,
        (forall j, (j < 25)%nat -> k <> market_key j) ->
        (forall g, In g signals -> k <> ("signal:" +:+ Signal.id g)%string) ->
        kv w' !! k = kv w !! k)).
Proof.
  split; [apply post_init_returns|].
  intros nm ns w'.
  unfold post_init, try_catch, pbind at 1, initializeMockMarkets.
  pose proof (marketLoop_final fuel 25 0 [] w) as Hm.
  destruct (marketLoop fuel 25 0 [] w) as [markets w1|w1|] eqn:Em;
    [|discriminate|discriminate].
  destruct Hm as (new & -> & Hlen & Hkv & Hs & Hids & Hvs). simpl app.
  unfold pbind at 1.
  pose proof (generateActiveSignals_final toString10 toString36 15 w1) as Hg.
  destruct (generateActiveSignals toString10 toString36 15 w1)
    as [signals w2|w2|] eqn:Eg; [|discriminate|discriminate].
  destruct Hg as [Hkv2 Hs2]. unfold pret. intros H.
  injection H as <- <- <-.
  exists new, w1, signals. split; [reflexivity|]. split; [exact Eg|].
  split; [reflexivity|]. split; [reflexivity|]. split; [exact Hlen|].
  rewrite Hkv2, Hkv. split; [|split].
  - intros j Hj. rewrite write_signal_other
      by (intros g _; apply signal_key_not_market).
    apply (write_market_key new (kv w) 0 j Hids). lia.
  - intros g Hg. apply write_signal_key, Hg.
  - intros k Hmk Hsk. rewrite write_signal_other by exact Hsk.
    apply write_market_other. intros m Hm E.
    apply list_elem_of_In, list_elem_of_lookup in Hm as [j Hj].
    pose proof (lookup_lt_Some _ _ _ Hj) as Hlt.
    apply (Hmk j); [lia|]. rewrite E.
    apply market_key_eq, (Hids j m Hj).
Qed.

Lemma sample_init_counts :
  init_counts (post_init sample_toString10 sample_toString36 10
                 (mkWorld sample_env ∅)) = Some (25%nat, 15%nat).
Proof. vm_compute. reflexivity. Qed.

Lemma post_init_overwrites_witness :
  random_contract sample_env /\ redraws_end 10 sample_env /\
  store_typed (∅ : Store) /\
  exists w' (markets : list MarketState.t) (signals : list Signal.t),
    post_init sample_toString10 sample_toString36 10 (mkWorld sample_env ∅)
      = Returned (InitOk 25 15) w' /\
    length markets = 25%nat /\ length signals = 15%nat /\
    (forall j, (j < 25)%nat ->
       kv w' !! market_key j = JMarketState <$> markets !! j).
Proof.
  assert (Ht : store_typed (∅ : Store))
    by (intros k v Hk; rewrite lookup_empty in Hk; discriminate Hk).
  split; [exact sample_env_contract|]. split; [apply sample_env_redraws|].
  split; [exact Ht|].
  destruct (post_init_overwrites sample_toString10 sample_toString36 10
              (mkWorld sample_env ∅)) as [Hr Hw].
  destruct (Hr sample_env_contract (sample_env_redraws 10) Ht) as (ns & w' & E).
  pose proof sample_init_counts as H. rewrite E in H.
  cbn [init_counts] in H. injection H as ->.
  destruct (Hw _ _ _ E)
    as (markets & w1 & signals & _ & _ & _ & Hns & Hlen & Hmk & _).
  exists w', markets, signals. auto.
Defined.

Lemma sample_stale_check :
  match post_init sample_toString10 sample_toString36 10 sample_world,
        kv sample_world !! stale_key with
  | Returned (InitOk _ _) w', Some (JSignal old) =>
      kv w' !! stale_key = Some (JSignal old) /\
      Signal.triggeredAt old = 1700000000000%float
  | _, _ => False
  end.
Proof. vm_compute. split; reflexivity. Qed.

(** C5 as stated fails: the Signal stored under [stale_key] before the
    call of the init handler is still stored under it, unchanged, after
    the call. *)
Lemma post_init_keeps_stale_signal :
  exists old nm ns w',
    kv sample_world !! stale_key = Some (JSignal old) /\
    post_init sample_toString10 sample_toString36 10 sample_world
      = Returned (InitOk nm ns) w' /\
    kv w' !! stale_key = Some (JSignal old).
Proof.
  pose proof sample_stale_check as H.
  remember (post_init sample_toString10 sample_toString36 10 sample_world)
    as r eqn:Er.
  remember (kv sample_world !! stale_key) as before eqn:Eb.
  destruct r as [[nm ns|] w'| |]; try (destruct H; fail).
  destruct before as [[|old|]|]; try (destruct H; fail).
  exists old, nm, ns, w'. split; [reflexivity|]. split; [reflexivity|apply H].
Qed.

(** ** Stored markets *)

(** C6, amended: every MarketState that [initializeMockMarkets] produces
    has a volatility in [[0, 1]] (there are 25 of them, each the value of
    [Math.random()]), and the bound is kept by every request: after a
    request each market in the store is the one that was stored under
    its key before or a market of [initializeMockMarkets], whose
    volatility is in [[0, 1]] again. The stored volatility itself may
    change: the init handler writes new markets under the same keys. *)
Theorem markets_volatility_in_unit toString10 toString36 (fuel : nat)
    (w0 w w' : World) :
  (random_contract (env w0) ->
   (forall markets w1,
      initializeMockMarkets fuel w0 = Returned markets w1 ->
      length markets = 25%nat /\ Forall volatility_in_unit markets /\
      (forall j, (j < 25)%nat ->
         kv w1 !! market_key j = JMarketState <$> markets !! j)) /\
   (redraws_end fuel (env w0) ->
    exists markets w1, initializeMockMarkets fuel w0 = Returned markets w1)) /\
  (random_contract (env w) -> step toString10 toString36 w w' ->
   random_contract (env w') /\
   (forall k m, kv w' !! k = Some (JMarketState m) ->
      kv w !! k = Some (JMarketState m) \/ volatility_in_unit m) /\
   (markets_bounded (kv w) -> markets_bounded (kv w'))).
Proof.
  split.
  - intros Hc. split; [|apply marketLoop_returns, Hc].
    intros markets w1 H. unfold initializeMockMarkets in H.
    pose proof (marketLoop_final fuel 25 0 [] w0) as Hm. rewrite H in Hm.
    destruct Hm as (new & -> & Hlen & Hkv & Hs & Hids & Hvs). simpl app.
    split; [exact Hlen|]. split; [auto|].
    intros j Hj. rewrite Hkv.
    apply (write_market_key new (kv w0) 0 j Hids). lia.
  - intros Hc Hstep.
    destruct (step_markets toString10 toString36 w w' Hstep Hc) as [Hc' Hk].
    split; [exact Hc'|]. split; [exact Hk|].
    intros Hb k m Hm. destruct (Hk k m Hm) as [Hold|Hnew]; [|exact Hnew].
    apply (Hb k m Hold).
Qed.

Lemma sample_markets_volatility :
  option_map (fun ms => firstn 3 (List.map MarketState.volatility ms))
    (returned_value (initializeMockMarkets 10 (mkWorld sample_env ∅)))
  = Some [0.96; 0.92; 0.88]%float.
Proof. vm_compute. reflexivity. Qed.

Lemma markets_volatility_in_unit_witness :
  exists (markets : list MarketState.t) (w1 w' : World),
    random_contract sample_env /\ redraws_end 10 sample_env /\
    initializeMockMarkets 10 (mkWorld sample_env ∅) = Returned markets w1 /\
    step sample_toString10 sample_toString36 (mkWorld sample_env ∅) w' /\
    length markets = 25%nat /\ Forall volatility_in_unit markets /\
    firstn 3 (List.map MarketState.volatility markets)
      = [0.96; 0.92; 0.88]%float /\
    markets_bounded (kv w').
Proof.
  pose proof sample_init_counts as Hi.
  remember (post_init sample_toString10 sample_toString36 10
              (mkWorld sample_env ∅)) as r eqn:Er.
  destruct r as [[nm ns|] w'| |]; try discriminate Hi.
  destruct (markets_volatility_in_unit sample_toString10 sample_toString36 10
              (mkWorld sample_env ∅) (mkWorld sample_env ∅) w')
    as [H1 H2].
  destruct (H1 sample_env_contract) as [Hall Hret].
  destruct (Hret (sample_env_redraws 10)) as (markets & w1 & Em).
  exists markets, w1, w'.
  assert (Hstep : step sample_toString10 sample_toString36
                    (mkWorld sample_env ∅) w').
  { apply (step_init _ _ 10 _ (InitOk nm ns)). symmetry. exact Er. }
  destruct (Hall markets w1 Em) as (Hlen & Hv & _).
  destruct (H2 sample_env_contract Hstep) as (_ & _ & Hb).
  split; [exact sample_env_contract|]. split; [apply sample_env_redraws|].
  split; [exact Em|]. split; [exact Hstep|]. split; [exact Hlen|].
  split; [exact Hv|]. split.
  { pose proof sample_markets_volatility as Hm. rewrite Em in Hm.
    cbn [returned_value option_map] in Hm. injection Hm as Hm. exact Hm. }
  apply Hb. intros k m Hk. cbn [kv] in Hk. rewrite lookup_empty in Hk.
  discriminate Hk.
Defined.

Lemma sample_reinit_check :
  match post_init sample_toString10 sample_toString36 10 (mkWorld sample_env ∅) with
  | Returned (InitOk _ _) w1 =>
      match post_init sample_toString10 sample_toString36 10 w1,
            kv w1 !! market_key 0 with
      | Returned (InitOk _ _) w2, Some (JMarketState m) =>
          match kv w2 !! market_key 0 with
          | Some (JMarketState m') =>
              MarketState.volatility m = 0.96%float /\
              MarketState.volatility m' = 0.46%float
          | _ => False
          end
      | _, _ => False
      end
  | _ => False
  end.
Proof. vm_compute. split; reflexivity. Qed.

(** C6 as stated fails: an operation does change the volatility of a
    stored MarketState. After one call of the init handler the market
    under [market:market-0] has the volatility 0.96; a second call of
    the handler stores a new market under the same key, and its
    volatility is 0.46. *)
Lemma post_init_changes_volatility :
  exists nm ns w1 nm' ns' w2 m m',
    post_init sample_toString10 sample_toString36 10 (mkWorld sample_env ∅)
      = Returned (InitOk nm ns) w1 /\
    post_init sample_toString10 sample_toString36 10 w1
      = Returned (InitOk nm' ns') w2 /\
    kv w1 !! market_key 0 = Some (JMarketState m) /\
    kv w2 !! market_key 0 = Some (JMarketState m') /\
    MarketState.volatility m = 0.96%float /\
    MarketState.volatility m' = 0.46%float /\
    PrimFloat.eqb (MarketState.volatility m') (MarketState.volatility m) = false.
Proof.
  pose proof sample_reinit_check as H.
  remember (post_init sample_toString10 sample_toString36 10
              (mkWorld sample_env ∅)) as r eqn:Er.
  destruct r as [[nm ns|] w1| |]; try (destruct H; fail).
  remember (post_init sample_toString10 sample_toString36 10 w1) as r2 eqn:Er2.
  remember (kv w1 !! market_key 0) as before eqn:Eb.
  destruct r2 as [[nm' ns'|] w2| |]; try (destruct H; fail).
  destruct before as [[m| |]|]; try (destruct H; fail).
  remember (kv w2 !! market_key 0) as after eqn:Ea.
  destruct after as [[m'| |]|]; try (destruct H; fail).
  destruct H as [H1 H2].
  exists nm, ns, w1, nm', ns', w2, m, m'.
  split; [reflexivity|]. split; [symmetry; exact Er2|].
  split; [symmetry; exact Eb|]. split; [symmetry; exact Ea|].
  split; [exact H1|]. split; [exact H2|].
  rewrite H1, H2. reflexivity.
Qed.

(** * Further properties *)

(** ** [GET /signals/:id] *)

Lemma get_signal_by_id_lookup id w :
  get_signal_by_id id w =
  Returned match kv w !! ("signal:" +:+ id)%string with
           | Some signal => SignalFound signal
           | None => SignalNotFound
           end w.
Proof.
  unfold get_signal_by_id, try_catch, pbind, get, kv_get.
  destruct (kv w !! _); reflexivity.
Qed.

Lemma post_signals_generate_Returned toString10 toString36 requested w l w' :
  post_signals_generate toString10 toString36 requested w
    = Returned (SignalsOk l) w' ->
  exists count,
    generateActiveSignals toString10 toString36 count w = Returned l w'.
Proof.
  unfold post_signals_generate, try_catch, pbind.
  match goal with
  | |- context [generateActiveSignals _ _ ?c w] =>
      destruct (generateActiveSignals toString10 toString36 c w)
        as [signals w1|w1|] eqn:E; [|discriminate|discriminate];
      unfold pret; intros H; injection H as <- <-; exists c
  end.
  exact E.
Qed.

(** X1: every Signal in the response of [POST /signals/generate] can be
    fetched by its id: [GET /signals/:id] finds the Signal stored last
    under that id, which is the Signal itself when the ids of the
    response are pairwise different; an id with no stored key gives
    "not found". The lookup leaves the store and the environment as
    they are. *)
Theorem generated_signal_found toString10 toString36 requested
    (w w' : World) (signals : list Signal.t) :
  post_signals_generate toString10 toString36 requested w
    = Returned (SignalsOk signals) w' ->
  (forall g, In g signals ->
     exists g', In g' signals /\ Signal.id g' = Signal.id g /\
       get_signal_by_id (Signal.id g) w' = Returned (SignalFound (JSignal g')) w') /\
  (NoDup (List.map Signal.id signals) ->
   forall g, In g signals ->
     get_signal_by_id (Signal.id g) w' = Returned (SignalFound (JSignal g)) w') /\
  (forall id, kv w' !! ("signal:" +:+ id)%string = None ->
     get_signal_by_id id w' = Returned SignalNotFound w').
Proof.
  intros H. apply post_signals_generate_Returned in H as [count H].
  pose proof (generateActiveSignals_final toString10 toString36 count w) as Hf.
  rewrite H in Hf. destruct Hf as [Hkv _].
  assert (Hfound : forall g, In g signals ->
     exists g', In g' signals /\ Signal.id g' = Signal.id g /\
       get_signal_by_id (Signal.id g) w' = Returned (SignalFound (JSignal g')) w').
  { intros g Hg.
    destruct (write_signal_key signals (kv w) g Hg) as (g' & Hg' & Hid & Hl).
    exists g'. split; [exact Hg'|]. split; [exact Hid|].
    rewrite get_signal_by_id_lookup, Hkv, Hl. reflexivity. }
  split; [exact Hfound|]. split.
  - intros Hnd g Hg. destruct (Hfound g Hg) as (g' & Hg' & Hid & ->).
    assert (g' = g) as ->; [|reflexivity].
    clear - Hnd Hg Hg' Hid.
    induction signals as [|s signals IH]; [destruct Hg|].
    simpl in Hnd. apply NoDup_cons in Hnd as [Hn Hnd].
    destruct Hg as [->|Hg], Hg' as [->|Hg']; auto.
    + exfalso. apply Hn. rewrite <- Hid. apply list_elem_of_In, in_map, Hg'.
    + exfalso. apply Hn. rewrite Hid. apply list_elem_of_In, in_map, Hg.
  - intros id Hid. rewrite get_signal_by_id_lookup, Hid. reflexivity.
Qed.

(** ** [initializeMockMarkets]: the shape of a market *)

Lemma same_team_eq a b : same_team a b = true <-> a = b.
Proof.
  destruct a as [x|], b as [y|]; simpl; split; try discriminate; try tauto.
  - intros H. apply String.eqb_eq in H. congruence.
  - intros H. injection H as ->. apply String.eqb_refl.
Qed.

(** The team that the redraws end with is not [team1]; it is the first
    [team2] or the pick of one of the later draws. *)
Lemma redraw_team2_differs fuel sportTeams team1 : forall team2 w t w',
  redraw_team2 fuel sportTeams team1 team2 w = Returned t w' ->
  same_team t team1 = false /\
  (t = team2 \/ exists n, t = pick sportTeams (random_values (env w) n)).
Proof.
  induction fuel as [|fuel IH]; intros team2 w t w'; simpl;
    destruct (same_team team2 team1) eqn:E; try discriminate.
  - unfold pret. intros H. injection H as <- <-. auto.
  - unfold pbind, lift. cbn [Math_random]. intros H.
    apply IH in H as [Hd Ht]. split; [exact Hd|]. right.
    cbn [env random_values] in Ht. destruct Ht as [->|[n ->]]; eauto.
  - unfold pret. intros H. injection H as <- <-. auto.
Qed.

Lemma mockMarket_shape fuel i w m w' :
  mockMarket fuel i w = Returned m w' ->
  market_labelled i m /\ (random_contract (env w) -> market_matchup m).
Proof.
  unfold mockMarket, pbind at 1, lift at 1. cbn [Math_random env kv].
  destruct (pick sports _) as [sport|] eqn:Esport; [|discriminate].
  destruct (teams_get teams sport) as [sportTeams|] eqn:Ets; [|discriminate].
  unfold pbind at 1, lift at 1. cbn [Math_random env kv].
  unfold pbind at 1, lift at 1. cbn [Math_random env kv].
  unfold pbind at 1.
  match goal with
  | |- context [redraw_team2 ?f ?t ?a ?b ?w0] =>
      pose proof (redraw_team2_differs f t a b w0) as Hr;
      destruct (redraw_team2 f t a b w0) as [team2 w1| |];
        [|discriminate|discriminate]
  end.
  specialize (Hr team2 w1 eq_refl). destruct Hr as [Hd Ht].
  cbn [env random_values random_calls] in Ht, Hd.
  cbv [pbind lift pret Math_random Date_now]. intros H. injection H as <- <-.
  split; [repeat split|]. intros Hc.
  unfold market_matchup. cbn [MarketState.sport MarketState.eventName].
  assert (Hin : In sport sports).
  { unfold pick, array_get in Esport.
    destruct (integer_value _); [|discriminate].
    destruct (_ && _); [|discriminate]. eapply nth_error_In, Esport. }
  destruct (teams_get_sports sport Hin) as (ts & Hts & Hlen).
  rewrite Ets in Hts. injection Hts as <-.
  assert (Hpick : forall n, exists x,
            pick sportTeams (random_values (env w) n) = Some x /\ In x sportTeams).
  { intros n. apply pick_defined; [right; exact Hlen|apply Hc]. }
  destruct (Hpick (S (random_calls (env w)))) as (team1 & E1 & Hin1).
  rewrite E1 in *.
  assert (exists t2, team2 = Some t2 /\ In t2 sportTeams) as (t2 & -> & Hin2).
  { destruct Ht as [->|[n ->]]; apply Hpick. }
  exists sportTeams, team1, t2. repeat (split; [assumption|]).
  split; [|reflexivity].
  intros ->. rewrite (proj2 (same_team_eq _ _) eq_refl) in Hd. discriminate.
Qed.

(** A property of the market of every round holds of every market of
    the loop. *)
Lemma marketLoop_Forall (P : nat -> MarketState.t -> Prop) (Q : Env -> Prop) fuel :
  (forall e e', same_sources e e' -> Q e -> Q e') ->
  (forall i w m w', mockMarket fuel i w = Returned m w' -> Q (env w) -> P i m) ->
  forall n i acc w markets w',
    marketLoop fuel n i acc w = Returned markets w' -> Q (env w) ->
    exists new, markets = acc ++ new /\
      forall j m, new !! j = Some m -> P (i + j)%nat m.
Proof.
  intros HQ HP. induction n as [|n IH]; intros i acc w markets w'; simpl.
  - unfold pret. intros H _. injection H as <- <-. exists [].
    rewrite app_nil_r. split; [reflexivity|]. intros j m Hj. discriminate.
  - unfold pbind at 1.
    pose proof (mockMarket_final fuel i w) as Hm.
    destruct (mockMarket fuel i w) as [m w1|w1|] eqn:Em; try discriminate.
    destruct Hm as (_ & Hs & _).
    unfold pbind at 1, set at 1. intros H Hq.
    apply IH in H as (new & -> & Hnew); [|cbn [env]; eapply HQ; eassumption].
    exists (m :: new). rewrite <- app_assoc. split; [reflexivity|].
    intros [|j] m' Hj; simpl in Hj.
    + injection Hj as <-. rewrite Nat.add_0_r. eapply HP; eassumption.
    + replace (i + S j)%nat with (S i + j)%nat by lia. apply Hnew, Hj.
Qed.

(** X2: in every market that [initializeMockMarkets] returns, the sport
    is one of the six sports and the event is [team1 @ team2] for two
    different teams of that sport: a team never plays itself. The
    [i]-th market is [market-i] for the event [event-i]. *)
Theorem initializeMockMarkets_matchups (fuel : nat) (w w' : World)
    (markets : list MarketState.t) :
  random_contract (env w) ->
  initializeMockMarkets fuel w = Returned markets w' ->
  forall j m, markets !! j = Some m ->
    market_labelled j m /\ market_matchup m.
Proof.
  intros Hc H j m Hj. unfold initializeMockMarkets in H.
  assert (HP : forall i w0 m0 w0', mockMarket fuel i w0 = Returned m0 w0' ->
            random_contract (env w0) -> market_labelled i m0 /\ market_matchup m0).
  { intros i w0 m0 w0' Hm Hq.
    destruct (mockMarket_shape fuel i w0 m0 w0' Hm); auto. }
  destruct (marketLoop_Forall _ random_contract fuel same_sources_contract HP
              25 0%nat [] w markets w' H Hc) as (new & -> & Hnew).
  apply (Hnew j m Hj).
Qed.

(** ** [GET /markets/:id] *)

Section MarketDetailFacts.
Variable Math_sin Math_cos : number -> number.

Lemma historyLoop_spec now i : forall history e,
  exists points,
    historyLoop Math_sin Math_cos now i history e =
      (history ++ points,
       mkEnv (random_values e) (3 * S i + random_calls e)
         (time_values e) (time_calls e)) /\
    List.map timestamp points =
      List.map (fun k => (now - number_of_nat k * 60000)%float) (rev (seq 0 (S i))).
Proof.
  induction i as [|i IH]; intros history e.
  - eexists [_]. split; reflexivity.
  - cbn [historyLoop]. unfold bind at 1.
    unfold historyPoint at 1, bind, Math_random, ret.
    cbn [random_values random_calls time_values time_calls].
    match goal with
    | |- context [historyLoop _ _ _ _ (history ++ [?p]) ?e1] =>
        destruct (IH (history ++ [p]) e1) as (points & -> & Hts);
        exists (p :: points)
    end.
    cbn [random_values random_calls time_values time_calls].
    split.
    + rewrite <- app_assoc. simpl app. do 2 f_equal. lia.
    + rewrite seq_S, rev_app_distr. simpl rev. simpl app.
      cbn [List.map timestamp]. rewrite Hts. reflexivity.
Qed.

Lemma get_market_lookup id w :
  match kv w !! ("market:" +:+ id)%string with
  | None => get_market Math_sin Math_cos id w = Returned MarketNotFound w
  | Some market =>
      exists history books,
        get_market Math_sin Math_cos id w =
          Returned (MarketFound market history books)
            (mkWorld (mkEnv (random_values (env w)) (183 + random_calls (env w))
                        (time_values (env w)) (S (time_calls (env w))))
                     (kv w)) /\
        List.map timestamp history =
          List.map (fun k => (number_of_Z (time_values (env w) (time_calls (env w)))
                              - number_of_nat k * 60000)%float)
            (rev (seq 0 61)) /\
        List.map (fun b => (book_name b, book_odds b)) books =
          [("DraftKings", -110); ("FanDuel", -108); ("BetMGM", -112);
           ("Caesars", -109); ("PointsBet", -115)]%float%string
  end.
Proof.
  destruct (kv w !! _) as [market|] eqn:E;
    unfold get_market, try_catch, pbind, get, kv_get; rewrite E;
    [|reflexivity].
  unfold lift at 1. cbn [Date_now env kv]. unfold lift at 1. cbn [env kv].
  match goal with
  | |- context [historyLoop _ _ ?now ?i ?h ?e] =>
      destruct (historyLoop_spec now i h e) as (points & -> & Hts)
  end.
  cbn [random_values random_calls time_values time_calls].
  unfold pret. eexists _, _. split; [reflexivity|]. split; [exact Hts|reflexivity].
Qed.

End MarketDetailFacts.

(** ** From a signal card to its market *)

Lemma generateSignal_copies toString10 toString36 m e g :
  fst (generateSignal toString10 toString36 m e) = Some g ->
  PrimFloat.ltb (MarketState.volatility m) 0.3 = false /\
  Signal.eventId g = MarketState.eventId m /\
  Signal.eventName g = MarketState.eventName m /\
  Signal.sport g = MarketState.sport m /\
  Signal.marketType g = MarketState.marketType m.
Proof.
  unfold generateSignal, bind. simpl.
  destruct (PrimFloat.ltb (MarketState.volatility m) 0.3); simpl;
    [discriminate|].
  intros H. injection H as <-. repeat split.
Qed.

Lemma signalLoop_origin toString10 toString36 bound rest :
  forall i acc w signals w',
    signalLoop toString10 toString36 bound i rest acc w = Returned signals w' ->
    exists new, signals = acc ++ new /\
      forall g, In g new ->
        exists m e, In m rest /\
          fst (generateSignal toString10 toString36 m e) = Some g.
Proof.
  induction rest as [|m rest IH]; intros i acc w signals w'; simpl.
  - unfold pret. intros H. injection H as <- <-. exists [].
    rewrite app_nil_r. split; [reflexivity|]. intros g [].
  - destruct (PrimFloat.ltb (number_of_nat i) bound).
    + unfold pbind at 1, lift at 1.
      destruct (generateSignal toString10 toString36 m (env w)) as [[g|] e1] eqn:Eg.
      * unfold pbind at 1, set at 1. intros H.
        apply IH in H as (new & -> & Hnew).
        exists (g :: new). rewrite <- app_assoc. split; [reflexivity|].
        intros g' [<-|Hg'].
        -- exists m, (env w). rewrite Eg. auto.
        -- destruct (Hnew g' Hg') as (m' & e' & Hm' & He'). eauto 6.
      * intros H. apply IH in H as (new & -> & Hnew).
        exists new. split; [reflexivity|].
        intros g' Hg'. destruct (Hnew g' Hg') as (m' & e' & Hm' & He'). eauto 6.
    + unfold pret. intros H. injection H as <- <-. exists [].
      rewrite app_nil_r. split; [reflexivity|]. intros g [].
Qed.

(** Every Signal of [generateActiveSignals] was generated from a stored
    market. *)
Lemma generateActiveSignals_origin toString10 toString36 count w signals w' :
  generateActiveSignals toString10 toString36 count w = Returned signals w' ->
  forall g, In g signals ->
    exists k m e,
      String.prefix "market:" k = true /\ kv w !! k = Some (JMarketState m) /\
      fst (generateSignal toString10 toString36 m e) = Some g.
Proof.
  unfold generateActiveSignals, pbind at 1, getByPrefix.
  unfold pbind at 1.
  destruct (parse_rows as_MarketState _ w) as [markets w1|w1|] eqn:Ep;
    try discriminate.
  apply parse_rows_Returned in Ep as [-> Hm].
  intros H g Hg. apply signalLoop_origin in H as (new & -> & Hnew).
  destruct (Hnew g Hg) as (m & e & Hin & He).
  apply Array_sort_In in Hin.
  apply (parsed_In _ _ _ m Hm) in Hin as (r & Hr & Hc).
  apply kv_getByPrefix_In in Hr as [Hp Hk].
  exists (key r), m, e. split; [exact Hp|]. split; [|exact He].
  destruct (value r); try discriminate. simpl in Hc. congruence.
Qed.

Lemma String_replace_unfold pattern replacement s :
  String_replace pattern replacement s =
  if String.prefix pattern s
  then (replacement +:+ string_skip (String.length pattern) s)%string
  else match s with
       | EmptyString => s
       | String a s' => String a (String_replace pattern replacement s')
       end.
Proof. destruct s; reflexivity. Qed.

Lemma String_replace_prefix pattern replacement s :
  String_replace pattern replacement (pattern +:+ s) = (replacement +:+ s)%string.
Proof.
  assert (Hs : string_skip (String.length pattern) (pattern +:+ s) = s)
    by (induction pattern as [|a p IH]; [destruct s; reflexivity|exact IH]).
  rewrite String_replace_unfold, prefix_append, Hs. reflexivity.
Qed.

Lemma markets_keyed_signals signals : forall (s : Store),
  markets_keyed s -> markets_keyed (fold_left write_signal signals s).
Proof.
  intros s Hs k m Hk.
  apply write_signal_lookup in Hk as [Hk|(g & _ & Hg)]; [eauto|discriminate].
Qed.

Lemma markets_keyed_markets markets : forall (s : Store),
  (forall m, In m markets -> exists i, market_labelled i m) ->
  markets_keyed s -> markets_keyed (fold_left write_market markets s).
Proof.
  induction markets as [|m markets IH]; intros s Hl Hs; simpl; [exact Hs|].
  apply IH; [intros m' Hm'; apply Hl; right; exact Hm'|].
  intros k m' Hk. unfold write_market, kv_set in Hk.
  apply lookup_insert_Some in Hk as [[<- Hk]|[_ Hk]]; [|eauto].
  injection Hk as <-. destruct (Hl m (or_introl eq_refl)) as [i Hi].
  exists i. split; [exact Hi|]. apply market_key_eq, Hi.
Qed.

Lemma marketLoop_writes fuel n : forall i acc w,
  match marketLoop fuel n i acc w with
  | Returned markets w' =>
      exists new, markets = acc ++ new /\
        kv w' = fold_left write_market new (kv w) /\
        forall j m, new !! j = Some m -> market_labelled (i + j) m
  | Thrown w' =>
      exists new, kv w' = fold_left write_market new (kv w) /\
        forall m, In m new -> exists j, market_labelled j m
  | Diverged => True
  end.
Proof.
  induction n as [|n IH]; intros i acc w; simpl.
  - exists []. rewrite app_nil_r. split; [reflexivity|]. split; [reflexivity|].
    intros j m Hj. discriminate.
  - unfold pbind at 1.
    pose proof (mockMarket_final fuel i w) as Hm.
    destruct (mockMarket fuel i w) as [m w1|w1|] eqn:Em; [| |exact I].
    + destruct Hm as (Hk & _).
      apply mockMarket_shape in Em as [Hl _].
      unfold pbind at 1, set at 1.
      specialize (IH (S i) (acc ++ [m])
                    (mkWorld (env w1)
                       (kv_set ("market:" +:+ MarketState.marketId m)
                          (JMarketState m) (kv w1)))).
      destruct (marketLoop fuel n (S i) (acc ++ [m]) _) as [markets w'|w'|];
        [| |exact I]; cbn [env kv] in IH.
      * destruct IH as (new & -> & Hkv & Hnew).
        exists (m :: new). rewrite <- app_assoc. split; [reflexivity|].
        split; [rewrite Hkv, Hk; reflexivity|].
        intros [|j] m' Hj; simpl in Hj.
        -- injection Hj as <-. rewrite Nat.add_0_r. exact Hl.
        -- replace (i + S j)%nat with (S i + j)%nat by lia. apply Hnew, Hj.
      * destruct IH as (new & Hkv & Hnew).
        exists (m :: new). split; [rewrite Hkv, Hk; reflexivity|].
        intros m' [<-|Hm']; eauto.
    + destruct Hm as (Hk & _). exists []. split; [exact Hk|]. intros m [].
Qed.

Lemma labelled_lookup new i :
  (forall j m, new !! j = Some m -> market_labelled (i + j) m) ->
  forall m, In m new -> exists j, market_labelled j m.
Proof.
  intros H m Hm. apply list_elem_of_In, list_elem_of_lookup in Hm as [j Hj].
  eauto.
Qed.

Lemma holds_market_markets markets : forall (s : Store) k,
  holds_market s k -> holds_market (fold_left write_market markets s) k.
Proof.
  induction markets as [|m markets IH]; intros s k Hk; simpl; [exact Hk|].
  apply IH. unfold write_market, kv_set, holds_market.
  destruct (decide (("market:" +:+ MarketState.marketId m)%string = k)) as [<-|Hne].
  - rewrite lookup_insert_eq. eauto.
  - rewrite lookup_insert_ne by exact Hne. exact Hk.
Qed.

Lemma holds_market_signals signals : forall (s : Store) i,
  holds_market s (market_key i) ->
  holds_market (fold_left write_signal signals s) (market_key i).
Proof.
  intros s i Hk. unfold holds_market.
  rewrite write_signal_other; [exact Hk|].
  intros g _. apply signal_key_not_market.
Qed.

Lemma feed_linked_markets markets (s : Store) :
  (forall m, In m markets -> exists i, market_labelled i m) ->
  feed_linked s -> feed_linked (fold_left write_market markets s).
Proof.
  intros Hl [Hk Hs]. split; [apply markets_keyed_markets; assumption|].
  intros k g Hg.
  apply write_market_lookup in Hg as [Hg|(m & _ & Hm)]; [|discriminate].
  destruct (Hs k g Hg) as (i & m & He & Hm).
  destruct (holds_market_markets markets s (market_key i)) as [m' Hm'];
    [exists m; exact Hm|]. eauto.
Qed.

Section Linked.
Variable toString10 toString36 : number -> string.

Lemma feed_linked_signals signals (s : Store) :
  (forall g, In g signals ->
     exists k m e, String.prefix "market:" k = true /\
       s !! k = Some (JMarketState m) /\
       fst (generateSignal toString10 toString36 m e) = Some g) ->
  feed_linked s -> feed_linked (fold_left write_signal signals s).
Proof.
  intros Ho [Hk Hs]. split; [apply markets_keyed_signals; assumption|].
  intros k g Hg.
  assert (exists i m, Signal.eventId g = ("event-" +:+ pretty i)%string /\
            s !! market_key i = Some (JMarketState m)) as (i & m & He & Hm).
  { apply write_signal_lookup in Hg as [Hg|(g' & Hg' & Hj)]; [eauto|].
    injection Hj as <-.
    destruct (Ho g Hg') as (k' & m & e & _ & Hm & Hgen).
    destruct (Hk k' m Hm) as (i & Hl & ->).
    apply generateSignal_copies in Hgen as (_ & -> & _).
    exists i, m. split; [apply Hl|exact Hm]. }
  destruct (holds_market_signals signals s i) as [m' Hm'];
    [exists m; exact Hm|]. eauto.
Qed.

Lemma generateActiveSignals_linked count w signals w' :
  generateActiveSignals toString10 toString36 count w = Returned signals w' ->
  feed_linked (kv w) -> feed_linked (kv w').
Proof.
  intros H Hl.
  pose proof (generateActiveSignals_final toString10 toString36 count w) as Hf.
  rewrite H in Hf. destruct Hf as [-> _].
  apply feed_linked_signals; [|exact Hl].
  apply (generateActiveSignals_origin _ _ _ _ _ _ H).
Qed.

Lemma step_feed_linked w w' :
  step toString10 toString36 w w' -> feed_linked (kv w) -> feed_linked (kv w').
Proof.
  intros Hstep Hl. destruct Hstep as [fuel w r w' H|requested w r w' H
                                     |userId body w r w' H|w e' Hr Ht].
  - revert H. unfold post_init, try_catch, pbind at 1, initializeMockMarkets.
    pose proof (marketLoop_writes fuel 25 0 [] w) as Hm.
    destruct (marketLoop fuel 25 0 [] w) as [markets w1|w1|];
      [| |discriminate].
    + destruct Hm as (new & -> & Hkv & Hnew). simpl app.
      assert (Hl1 : feed_linked (kv w1)).
      { rewrite Hkv. apply feed_linked_markets; [|exact Hl].
        apply (labelled_lookup new 0 Hnew). }
      unfold pbind at 1.
      pose proof (generateActiveSignals_final toString10 toString36 15 w1) as Hg.
      destruct (generateActiveSignals toString10 toString36 15 w1)
        as [signals w2|w2|] eqn:Eg; [| |contradiction].
      * unfold pret. intros H. injection H as _ <-.
        eapply generateActiveSignals_linked; eassumption.
      * subst w2. unfold pret. intros H. injection H as _ <-. exact Hl1.
    + destruct Hm as (new & Hkv & Hnew). unfold pret. intros H.
      injection H as _ <-. rewrite Hkv.
      apply feed_linked_markets; assumption.
  - revert H. unfold post_signals_generate, try_catch, pbind.
    match goal with
    | |- context [generateActiveSignals _ _ ?c w] =>
        pose proof (generateActiveSignals_final toString10 toString36 c w) as Hg;
        destruct (generateActiveSignals toString10 toString36 c w)
          as [signals w1|w1|] eqn:Eg
    end; [| |contradiction].
    + unfold pret. intros H. injection H as _ <-.
      eapply generateActiveSignals_linked; eassumption.
    + subst w1. unfold pret. intros H. injection H as _ <-. exact Hl.
  - pose proof (post_alerts_final userId body w) as Hf.
    rewrite H in Hf. destruct Hf as [[->|[alerts ->]] _]; [exact Hl|].
    destruct Hl as [Hk Hs]. unfold kv_set. split.
    + intros k m Hm.
      apply lookup_insert_Some in Hm as [[_ Hm]|[_ Hm]]; [discriminate|eauto].
    + intros k g Hg.
      apply lookup_insert_Some in Hg as [[_ Hg]|[_ Hg]]; [discriminate|].
      destruct (Hs k g Hg) as (i & m & He & Hm). exists i, m.
      split; [exact He|]. rewrite lookup_insert_ne; [exact Hm|].
      unfold market_key. simpl. discriminate.
  - exact Hl.
Qed.

End Linked.

Lemma market_key_id i :
  ("market:" +:+ ("market-" +:+ pretty i))%string = market_key i.
Proof. reflexivity. Qed.

(** X3: after a successful [POST /init], [GET /markets/market-j] finds
    for every [j < 25] the market of index [j] that the call generated,
    with a chart of 61 points whose timestamps run from [now - 60 * 60000]
    to [now] in steps of a minute and the five fixed books; the request
    makes 183 draws, reads the clock once and leaves the store as it is.
    An id with no stored key gives "not found", with no draw and no
    clock read. *)
Theorem get_market_after_init Math_sin Math_cos toString10 toString36
    (fuel : nat) (w w' : World) (nm ns : nat) :
  post_init toString10 toString36 fuel w = Returned (InitOk nm ns) w' ->
  (forall j, (j < 25)%nat ->
     exists m history books,
       get_market Math_sin Math_cos ("market-" +:+ pretty j) w' =
         Returned (MarketFound (JMarketState m) history books)
           (mkWorld (mkEnv (random_values (env w')) (183 + random_calls (env w'))
                       (time_values (env w')) (S (time_calls (env w'))))
                    (kv w')) /\
       market_labelled j m /\
       List.map timestamp history =
         List.map (fun k => (number_of_Z (time_values (env w') (time_calls (env w')))
                             - number_of_nat k * 60000)%float)
           (rev (seq 0 61)) /\
       List.map (fun b => (book_name b, book_odds b)) books =
         [("DraftKings", -110); ("FanDuel", -108); ("BetMGM", -112);
          ("Caesars", -109); ("PointsBet", -115)]%float%string) /\
  (forall id, kv w' !! ("market:" +:+ id)%string = None ->
     get_market Math_sin Math_cos id w' = Returned MarketNotFound w').
Proof.
  intros H. split.
  - intros j Hj. revert H.
    unfold post_init, try_catch, pbind at 1, initializeMockMarkets.
    pose proof (marketLoop_writes fuel 25 0 [] w) as Hm.
    pose proof (marketLoop_final fuel 25 0 [] w) as Hf.
    destruct (marketLoop fuel 25 0 [] w) as [markets w1|w1|];
      [|discriminate|discriminate].
    destruct Hm as (new & -> & Hkv & Hnew).
    destruct Hf as (new' & E & Hlen & _).
    apply app_inv_head in E. subst new'. simpl app.
    unfold pbind at 1.
    pose proof (generateActiveSignals_final toString10 toString36 15 w1) as Hg.
    destruct (generateActiveSignals toString10 toString36 15 w1)
      as [signals w2|w2|]; [|discriminate|discriminate].
    destruct Hg as [Hkv2 _]. unfold pret. intros H. injection H as _ _ <-.
    destruct (lookup_lt_is_Some_2 new j ltac:(lia)) as [m Hmj].
    assert (Hk : kv w2 !! market_key j = Some (JMarketState m)).
    { rewrite Hkv2, Hkv, write_signal_other
        by (intros g _; apply signal_key_not_market).
      pose proof (write_market_key new (kv w) 0 j) as Hw. cbn [Nat.add] in Hw.
      rewrite Hw, Hmj; [reflexivity| |lia].
      intros j' m' Hj'. apply (Hnew j' m' Hj'). }
    pose proof (get_market_lookup Math_sin Math_cos ("market-" +:+ pretty j) w2)
      as Hl.
    rewrite market_key_id, Hk in Hl.
    destruct Hl as (history & books & Hl & Hts & Hb).
    exists m, history, books. split; [exact Hl|].
    split; [apply (Hnew j m Hmj)|]. auto.
  - intros id Hid.
    pose proof (get_market_lookup Math_sin Math_cos id w') as Hl.
    rewrite Hid in Hl. exact Hl.
Qed.

(** X4: a click on a signal card opens its market. The stored markets
    stay keyed by their index and every stored Signal names the event of
    a stored market: this holds of the empty store and is kept by every
    request. In such a store, for every Signal [g] that [GET /signals]
    returns, [GET /markets/:id] with the id
    [g.eventId.replace('event-', 'market-')] finds a market, and this
    market has the event id of [g]. *)
Theorem signal_card_opens_market Math_sin Math_cos toString10 toString36
    (w w' : World) (sport marketType minConfidence : option string)
    (signals : list Signal.t) :
  feed_linked (∅ : Store) /\
  (step toString10 toString36 w w' -> feed_linked (kv w) ->
   feed_linked (kv w')) /\
  (feed_linked (kv w) ->
   get_signals sport marketType minConfidence w
     = Returned (SignalsOk signals) w ->
   forall g, In g signals ->
     exists m history books w1,
       get_market Math_sin Math_cos (marketId_of_signal g) w =
         Returned (MarketFound (JMarketState m) history books) w1 /\
       MarketState.eventId m = Signal.eventId g /\ kv w1 = kv w).
Proof.
  split; [|split].
  - split; intros k x Hk; rewrite lookup_empty in Hk; discriminate Hk.
  - apply step_feed_linked.
  - intros [Hk Hs] H g Hg.
    apply get_signals_Returned in H as (all & Hall & ->).
    apply Array_sort_In, apply_filters_In in Hg as [Hg _].
    apply Hall in Hg as (k & _ & Hg).
    destruct (Hs k g Hg) as (i & m & He & Hm).
    destruct (Hk _ m Hm) as (i' & Hl & E).
    apply market_key_inj in E. subst i'.
    pose proof (get_market_lookup Math_sin Math_cos (marketId_of_signal g) w)
      as Hf.
    unfold marketId_of_signal in Hf |- *.
    rewrite He, String_replace_prefix, market_key_id, Hm in Hf.
    destruct Hf as (history & books & Hf & _).
    eexists m, history, books, _.
    split; [rewrite He, String_replace_prefix; exact Hf|].
    split; [|reflexivity].
    rewrite He. apply Hl.
Qed.

(** ** User alerts *)

Lemma string_length_app (s t : string) :
  String.length (s +:+ t) = (String.length s + String.length t)%nat.
Proof. induction s as [|a s IH]; simpl; [reflexivity|]. rewrite IH. reflexivity. Qed.

Lemma string_app_inv_tail (s s' t : string) :
  (s +:+ t = s' +:+ t)%string -> s = s'.
Proof.
  intros H.
  assert (Hl : String.length s = String.length s').
  { apply (f_equal String.length) in H. rewrite !string_length_app in H. lia. }
  revert s' H Hl. induction s as [|a s IH]; intros [|a' s'] H Hl;
    simpl in Hl; try discriminate Hl; [reflexivity|].
  simpl in H. injection H as -> H. f_equal. apply IH; [exact H|lia].
Qed.

Lemma alerts_key_inj u u' :
  ("user:" +:+ u +:+ ":alerts")%string = ("user:" +:+ u' +:+ ":alerts")%string ->
  u = u'.
Proof.
  intros H. simpl in H. injection H as H.
  exact (string_app_inv_tail u u' ":alerts" H).
Qed.

Lemma get_alerts_lookup userId w :
  get_alerts userId w =
  Returned (AlertsOk match kv w !! ("user:" +:+ userId +:+ ":alerts")%string with
                     | Some alerts => alerts
                     | None => JAlerts []
                     end) w.
Proof. reflexivity. Qed.

Lemma typed_alerts_key (s : Store) userId v :
  store_typed s -> s !! ("user:" +:+ userId +:+ ":alerts")%string = Some v ->
  exists alerts, v = JAlerts alerts.
Proof.
  intros Hs Hk. apply Hs in Hk. destruct v as [m|g|alerts]; [| |eauto];
    simpl in Hk; discriminate.
Qed.

(** X5: on a well-formed store [POST /alerts/:userId] with a JSON body
    appends one alert to the alerts of that user: a following
    [GET /alerts/:userId] returns the former list followed by the new
    alert, whose [createdAt] is the second clock read of the request.
    The alerts of every other user and all other keys stay as they are,
    and the store stays well-formed. A body that is not JSON is answered
    with an error and changes nothing. *)
Theorem post_alerts_then_get (userId body : string) (w : World) :
  store_typed (kv w) ->
  exists old a w',
    get_alerts userId w = Returned (AlertsOk (JAlerts old)) w /\
    post_alerts_request userId (Some body) w = Returned (AlertOk a) w' /\
    alert_body a = body /\
    createdAt a = number_of_Z (time_values (env w) (S (time_calls (env w)))) /\
    get_alerts userId w' = Returned (AlertsOk (JAlerts (old ++ [a]))) w' /\
    (forall k, k <> ("user:" +:+ userId +:+ ":alerts")%string ->
       kv w' !! k = kv w !! k) /\
    (forall other, other <> userId ->
       kv w' !! ("user:" +:+ other +:+ ":alerts")%string
       = kv w !! ("user:" +:+ other +:+ ":alerts")%string) /\
    store_typed (kv w') /\
    post_alerts_request userId None w = Returned AlertError w.
Proof.
  intros Hs. rewrite get_alerts_lookup.
  unfold post_alerts_request, post_alerts, try_catch, pbind, get, kv_get,
    lift, set, throw, pret.
  cbn [Date_now env kv fst snd].
  set (k0 := ("user:" +:+ userId +:+ ":alerts")%string).
  set (a := {| alert_id := ("alert-" +:+ pretty (time_values (env w) (time_calls (env w))))%string;
               alert_body := body;
               createdAt := number_of_Z (time_values (env w) (S (time_calls (env w)))) |}).
  assert (Hframe : forall l k, k <> k0 ->
            kv_set k0 (JAlerts l) (kv w) !! k = kv w !! k).
  { intros l k Hk. unfold kv_set. apply lookup_insert_ne. congruence. }
  assert (Hother : forall l other, other <> userId ->
            kv_set k0 (JAlerts l) (kv w) !! ("user:" +:+ other +:+ ":alerts")%string
            = kv w !! ("user:" +:+ other +:+ ":alerts")%string).
  { intros l other Ho. apply Hframe. intros E. apply alerts_key_inj in E.
    contradiction. }
  assert (Ht : forall l, store_typed (kv_set k0 (JAlerts l) (kv w))).
  { intros l. apply store_typed_set; [apply prefix_append|exact Hs]. }
  destruct (kv w !! k0) as [v|] eqn:E.
  - destruct (typed_alerts_key (kv w) userId v Hs E) as [alerts ->].
    exists alerts, a. eexists. split; [reflexivity|]. split; [reflexivity|].
    split; [reflexivity|]. split; [reflexivity|].
    rewrite get_alerts_lookup. cbn [kv]. fold k0. unfold kv_set at 1.
    rewrite lookup_insert_eq. auto 10.
  - exists [], a. eexists. split; [reflexivity|]. split; [reflexivity|].
    split; [reflexivity|]. split; [reflexivity|].
    rewrite get_alerts_lookup. cbn [kv]. fold k0. unfold kv_set at 1.
    rewrite lookup_insert_eq. auto 10.
Qed.

Lemma post_alerts_then_get_witness :
  store_typed (kv sample_world) /\
  exists old a w',
    post_alerts_request "u1" (Some "{}"%string) sample_world
      = Returned (AlertOk a) w' /\
    alert_body a = "{}"%string /\
    get_alerts "u1" w' = Returned (AlertsOk (JAlerts (old ++ [a]))) w'.
Proof.
  split; [exact sample_world_typed|].
  destruct (post_alerts_then_get "u1" "{}" sample_world sample_world_typed)
    as (old & a & w' & _ & Hpost & Hbody & _ & Hafter & _).
  exists old, a, w'. split; [exact Hpost|]. split; [exact Hbody|exact Hafter].
Defined.

(** ** [GET /analytics] *)

Lemma performanceLoop_spec i : forall history e,
  exists points,
    performanceLoop i history e =
      (history ++ points,
       mkEnv (random_values e) (3 * S i + random_calls e)
         (time_values e) (S i + time_calls e)) /\
    length points = S i.
Proof.
  induction i as [|i IH]; intros history e.
  - eexists [_]. split; reflexivity.
  - cbn [performanceLoop]. unfold bind at 1.
    unfold performancePoint at 1, bind, Math_random, Date_now, ret.
    cbn [random_values random_calls time_values time_calls].
    match goal with
    | |- context [performanceLoop _ (history ++ [?p]) ?e1] =>
        destruct (IH (history ++ [p]) e1) as (points & -> & Hlen);
        exists (p :: points)
    end.
    cbn [random_values random_calls time_values time_calls].
    split.
    + rewrite <- app_assoc. simpl app. do 2 f_equal; lia.
    + simpl. rewrite Hlen. reflexivity.
Qed.

Lemma ones_snoc k : (ones k +:+ "1")%string = ones (S k).
Proof.
  induction k as [|k IH]; [reflexivity|].
  change (ones (S k)) with ("1" +:+ ones k)%string at 1.
  change (("1" +:+ ones k) +:+ "1")%string
    with ("1" +:+ (ones k +:+ "1"))%string.
  rewrite IH. reflexivity.
Qed.

Lemma append_assoc (a b c : string) :
  ((a +:+ b) +:+ c)%string = (a +:+ (b +:+ c))%string.
Proof.
  induction a as [|x a IH]; [reflexivity|].
  change (String x ((a +:+ b) +:+ c) = String x (a +:+ (b +:+ c))).
  rewrite IH. reflexivity.
Qed.

Lemma bump_text text k :
  bump (Some (Text (text +:+ ones (S k)))) (Some (Method text))
  = Text (text +:+ ones (S (S k))).
Proof.
  rewrite <- (ones_snoc (S k)), <- append_assoc. unfold bump.
  destruct (text +:+ ones (S k))%string eqn:E; [|reflexivity].
  destruct text; discriminate E.
Qed.

Lemma next_entry_iter proto k :
  Nat.iter k (next_entry proto) None = sport_entry proto k.
Proof.
  induction k as [|k IH]; [reflexivity|].
  rewrite Nat.iter_succ, IH.
  destruct proto as [[text|]|]; destruct k as [|k]; try reflexivity.
  cbn [sport_entry next_entry]. rewrite bump_text. reflexivity.
Qed.

Section SportCounts.
Variable Object_prototype : string -> option inherited.

Lemma count_sport_lookup acc signal sport :
  count_sport Object_prototype acc signal !! sport =
  if String.eqb (Signal.sport signal) sport
  then next_entry (Object_prototype sport) (acc !! sport)
  else acc !! sport.
Proof.
  unfold count_sport. cbv zeta.
  destruct (String.eqb (Signal.sport signal) sport) eqn:E.
  - apply String.eqb_eq in E. rewrite E. unfold next_entry.
    destruct (acc !! sport) as [t|] eqn:Ea.
    + rewrite lookup_insert_eq. reflexivity.
    + destruct (Object_prototype sport) as [[text|]|];
        [rewrite lookup_insert_eq; reflexivity|exact Ea|
         rewrite lookup_insert_eq; reflexivity].
  - apply String.eqb_neq in E.
    destruct (acc !! Signal.sport signal);
      [rewrite lookup_insert_ne by exact E; reflexivity|].
    destruct (Object_prototype (Signal.sport signal)) as [[text|]|];
      [rewrite lookup_insert_ne by exact E; reflexivity|reflexivity|
       rewrite lookup_insert_ne by exact E; reflexivity].
Qed.

Lemma count_sport_spec sport allSignals : forall acc,
  fold_left (count_sport Object_prototype) allSignals acc !! sport =
  Nat.iter
    (length (List.filter (fun s => String.eqb (Signal.sport s) sport) allSignals))
    (next_entry (Object_prototype sport)) (acc !! sport).
Proof.
  induction allSignals as [|s l IH]; intros acc; [reflexivity|].
  cbn [fold_left List.filter]. rewrite IH, count_sport_lookup.
  destruct (String.eqb (Signal.sport s) sport); [|reflexivity].
  cbn [length]. rewrite Nat.iter_succ_r. reflexivity.
Qed.

End SportCounts.

Lemma confidence_counts allSignals :
  (length (List.filter (has_confidence High) allSignals)
   + length (List.filter (has_confidence Medium) allSignals)
   + length (List.filter (has_confidence Low) allSignals))%nat
  = length allSignals.
Proof.
  induction allSignals as [|s l IH]; [reflexivity|].
  simpl. unfold has_confidence in *.
  destruct (Signal.confidence s); simpl; lia.
Qed.

Lemma parsed_signals rows (xs : list Signal.t) :
  List.map (fun r => as_Signal (value r)) rows = List.map Some xs ->
  List.map value rows = List.map JSignal xs.
Proof.
  revert xs. induction rows as [|r rows IH]; intros [|x xs] H; simpl in *;
    try discriminate; [reflexivity|].
  injection H as Hx H. rewrite (IH xs H). f_equal.
  destruct (value r); try discriminate. simpl in Hx. congruence.
Qed.

(** X6: on a well-formed store [GET /analytics] answers with the number
    of stored Signals, which is the sum of the three confidence counts.
    [bySport] starts as [{}]: for a sport that is no property name of
    [Object.prototype] it holds the number of stored Signals of that
    sport, and no entry when there is none; for a sport named as a
    function of [Object.prototype] it holds a text, the function's text
    followed by one [1] for each Signal, and for the accessor
    [__proto__] it holds no entry. The performance chart has 31 points.
    The request makes 93 draws and 31 clock reads and leaves the store
    as it is. With no stored Signal the average score is [0 / 0], that
    is [NaN]. *)
Theorem get_analytics_counts (Object_prototype : string -> option inherited)
    (w : World) :
  store_typed (kv w) ->
  exists data allSignals,
    get_analytics Object_prototype w =
      Returned (AnalyticsOk data)
        (mkWorld (mkEnv (random_values (env w)) (93 + random_calls (env w))
                    (time_values (env w)) (31 + time_calls (env w)))
                 (kv w)) /\
    List.map JSignal allSignals
      = List.map value (kv_getByPrefix "signal:" (kv w)) /\
    totalSignals data = length allSignals /\
    totalSignals data =
      (count_high (byConfidence data) + count_medium (byConfidence data)
       + count_low (byConfidence data))%nat /\
    (forall sport,
       bySport data !! sport =
       sport_entry (Object_prototype sport)
         (length (List.filter (fun s => String.eqb (Signal.sport s) sport)
                    allSignals))) /\
    length (performanceHistory data) = 31%nat /\
    (totalSignals data = 0%nat ->
     PrimFloat.is_nan (avgSignalScore data) = true).
Proof.
  intros Hs. unfold get_analytics, try_catch, pbind at 1, getByPrefix.
  unfold pbind at 1.
  destruct (parse_rows_total as_Signal (kv_getByPrefix "signal:" (kv w)) w)
    as [allSignals E]; [intros r; apply typed_signal_row, Hs|].
  rewrite E. apply parse_rows_Returned in E as [_ Hm].
  unfold pbind at 1, lift at 1.
  destruct (performanceLoop_spec 30 [] (env w)) as (points & -> & Hlen).
  unfold pret. eexists _, allSignals. split; [reflexivity|].
  cbn [totalSignals byConfidence bySport performanceHistory avgSignalScore
       count_high count_medium count_low].
  split; [symmetry; apply parsed_signals, Hm|]. split; [reflexivity|].
  split; [symmetry; apply confidence_counts|].
  split; [intros sport; rewrite count_sport_spec, lookup_empty;
          apply next_entry_iter|].
  split; [exact Hlen|].
  intros H0. destruct allSignals; [reflexivity|discriminate H0].
Qed.

Lemma get_analytics_counts_witness :
  store_typed (kv sample_world) /\
  exists data w',
    get_analytics sample_prototype sample_world
      = Returned (AnalyticsOk data) w' /\
    totalSignals data = 3%nat /\
    bySport data !! "NFL"%string = Some (Count 3) /\
    bySport data !! "constructor"%string = None.
Proof.
  split; [exact sample_world_typed|].
  destruct (get_analytics_counts sample_prototype sample_world
              sample_world_typed)
    as (data & allSignals & Hr & Hm & Ht & _ & Hsport & _).
  assert (Hall : List.map Signal.sport allSignals = ["NFL"; "NFL"; "NFL"]%string).
  { assert (H : List.map (fun v => match v with
                                   | JSignal s => Signal.sport s
                                   | _ => ""%string
                                   end)
                  (List.map value (kv_getByPrefix "signal:" (kv sample_world)))
                = ["NFL"; "NFL"; "NFL"]%string) by (vm_compute; reflexivity).
    rewrite <- Hm, List.map_map in H. exact H. }
  eexists data, _. split; [exact Hr|].
  assert (Hlen : length allSignals = 3%nat)
    by (rewrite <- (List.length_map Signal.sport), Hall; reflexivity).
  split; [rewrite Ht; exact Hlen|].
  rewrite !Hsport.
  destruct allSignals as [|a [|b [|c [|d l]]]]; try discriminate Hlen.
  simpl in Hall. injection Hall as Ha Hb Hc. simpl. rewrite Ha, Hb, Hc.
  split; reflexivity.
Defined.

Lemma sample_generate_ids :
  match post_init sample_toString10 sample_toString36 10 (mkWorld sample_env ∅) with
  | Returned _ w1 =>
      option_map (List.map Signal.id)
        (returned_signals
           (post_signals_generate sample_toString10 sample_toString36 2 w1))
  | _ => None
  end
  = Some ["signal-1700000056000-4fzyo82mv"; "signal-1700000058000-4fzyo82mv"]%string.
Proof. vm_compute. reflexivity. Qed.

Lemma generated_signal_found_witness :
  exists w1 signals w' g,
    post_signals_generate sample_toString10 sample_toString36 2 w1
      = Returned (SignalsOk signals) w' /\
    List.map Signal.id signals
      = ["signal-1700000056000-4fzyo82mv"; "signal-1700000058000-4fzyo82mv"]%string /\
    In g signals /\
    get_signal_by_id "signal-1700000056000-4fzyo82mv" w'
      = Returned (SignalFound (JSignal g)) w'.
Proof.
  pose proof sample_generate_ids as H.
  remember (post_init sample_toString10 sample_toString36 10
              (mkWorld sample_env ∅)) as r eqn:Er.
  destruct r as [r0 w1| |]; try discriminate H.
  remember (post_signals_generate sample_toString10 sample_toString36 2 w1)
    as r2 eqn:E2.
  destruct r2 as [[signals|] w'| |]; try discriminate H.
  cbn [returned_signals option_map] in H. injection H as H.
  destruct (generated_signal_found _ _ _ _ _ _ (eq_sym E2)) as (_ & Hnd & _).
  destruct signals as [|g signals]; [discriminate H|].
  exists w1, (g :: signals), w', g. split; [symmetry; exact E2|].
  split; [exact H|].
  split; [left; reflexivity|].
  assert (Hid : Signal.id g = "signal-1700000056000-4fzyo82mv"%string)
    by (simpl in H; injection H as H _; exact H).
  rewrite <- Hid. apply Hnd; [|left; reflexivity].
  rewrite H. apply (bool_decide_unpack _). vm_compute. reflexivity.
Defined.

Lemma sample_markets_names :
  option_map (fun ms => List.map MarketState.eventName (firstn 2 ms))
    (returned_value (initializeMockMarkets 10 (mkWorld sample_env ∅)))
  = Some ["49ers @ Ravens"; "49ers @ Eagles"]%string.
Proof. vm_compute. reflexivity. Qed.

Lemma initializeMockMarkets_matchups_witness :
  exists markets w' m,
    random_contract sample_env /\
    initializeMockMarkets 10 (mkWorld sample_env ∅) = Returned markets w' /\
    markets !! 0%nat = Some m /\
    MarketState.eventName m = "49ers @ Ravens"%string /\
    market_labelled 0 m /\ market_matchup m.
Proof.
  pose proof sample_markets_names as H.
  remember (initializeMockMarkets 10 (mkWorld sample_env ∅)) as r eqn:Er.
  destruct r as [markets w'| |]; try discriminate H.
  cbn [returned_value option_map] in H. injection H as H.
  destruct markets as [|m markets]; [discriminate H|].
  simpl in H. injection H as H _.
  exists (m :: markets), w', m. split; [exact sample_env_contract|].
  split; [reflexivity|]. split; [reflexivity|]. split; [exact H|].
  apply (initializeMockMarkets_matchups 10 (mkWorld sample_env ∅) w'
           (m :: markets) sample_env_contract (eq_sym Er) 0%nat m eq_refl).
Defined.

Lemma get_market_after_init_witness :
  exists w' m history books w'',
    post_init sample_toString10 sample_toString36 10 (mkWorld sample_env ∅)
      = Returned (InitOk 25 15) w' /\
    get_market sample_wave sample_wave ("market-" +:+ pretty 3%nat) w'
      = Returned (MarketFound (JMarketState m) history books) w'' /\
    market_labelled 3 m /\ length history = 61%nat.
Proof.
  pose proof sample_init_counts as H.
  remember (post_init sample_toString10 sample_toString36 10
              (mkWorld sample_env ∅)) as r eqn:Er.
  destruct r as [[nm ns|] w'| |]; try discriminate H.
  injection H as -> ->.
  destruct (get_market_after_init sample_wave sample_wave _ _ _ _ _ _ _
              (eq_sym Er)) as [Hfound _].
  destruct (Hfound 3%nat ltac:(lia)) as (m & history & books & Hg & Hl & Hts & _).
  exists w', m, history, books. eexists. split; [reflexivity|].
  split; [exact Hg|]. split; [exact Hl|].
  rewrite <- (List.length_map timestamp), Hts, List.length_map. reflexivity.
Defined.

Lemma get_signals_world sport marketType minConfidence w r w' :
  get_signals sport marketType minConfidence w = Returned r w' -> w' = w.
Proof.
  unfold get_signals, try_catch, pbind, getByPrefix.
  pose proof (parse_rows_final as_Signal (kv_getByPrefix "signal:" (kv w)) w)
    as Hp.
  destruct (parse_rows as_Signal _ w) as [all w1|w1|]; [| |contradiction];
    subst w1; unfold pret; intros H; injection H as _ <-; reflexivity.
Qed.

Lemma sample_feed_events :
  match post_init sample_toString10 sample_toString36 10 (mkWorld sample_env ∅) with
  | Returned _ w1 =>
      option_map (fun l => List.map Signal.eventId (firstn 1 l))
        (returned_signals (get_signals None None None w1))
  | _ => None
  end
  = Some ["event-5"]%string.
Proof. vm_compute. reflexivity. Qed.

Lemma signal_card_opens_market_witness :
  exists w signals g m history books w1,
    feed_linked (kv w) /\
    get_signals None None None w = Returned (SignalsOk signals) w /\
    In g signals /\ Signal.eventId g = "event-5"%string /\
    get_market sample_wave sample_wave "market-5" w
      = Returned (MarketFound (JMarketState m) history books) w1 /\
    MarketState.eventId m = "event-5"%string.
Proof.
  pose proof sample_feed_events as H.
  remember (post_init sample_toString10 sample_toString36 10
              (mkWorld sample_env ∅)) as r eqn:Er.
  destruct r as [r0 w| |]; try discriminate H.
  remember (get_signals None None None w) as r2 eqn:E2.
  destruct r2 as [[signals|] w2| |]; try discriminate H.
  pose proof (get_signals_world _ _ _ _ _ _ (eq_sym E2)) as ->.
  cbn [returned_signals option_map] in H. injection H as H.
  destruct signals as [|g signals]; [discriminate H|].
  simpl in H. injection H as H.
  destruct (signal_card_opens_market sample_wave sample_wave
              sample_toString10 sample_toString36 (mkWorld sample_env ∅) w
              None None None [])
    as (Hempty & Hstep & _).
  assert (Hl : feed_linked (kv w)).
  { apply Hstep; [|exact Hempty]. apply (step_init _ _ 10 _ r0). symmetry.
    exact Er. }
  destruct (signal_card_opens_market sample_wave sample_wave
              sample_toString10 sample_toString36 w w
              None None None (g :: signals))
    as (_ & _ & Hopen).
  destruct (Hopen Hl (eq_sym E2) g (or_introl eq_refl))
    as (m & history & books & w1 & Hg & He & _).
  unfold marketId_of_signal in Hg. rewrite H in Hg, He.
  exists w, (g :: signals), g, m, history, books, w1.
  split; [exact Hl|]. split; [symmetry; exact E2|].
  split; [left; reflexivity|].
  split; [exact H|]. split; [exact Hg|exact He].
Defined.

(** ** The order of Numbers, on the integers *)

Lemma finite_ordinal_bounds s m e :
  valid_binary (S754_finite s m e) = true ->
  0 < Z.pos m * 2 ^ (e + 1074) < 2 ^ 2100.
Proof.
  intros V. apply valid_finite in V as (B & R & _).
  pose proof (pow2_pos (e + 1074) ltac:(lia)) as P.
  split; [lia|].
  apply Z.lt_trans with (2 ^ 53 * 2 ^ (e + 1074)).
  - apply Z.mul_lt_mono_pos_r; [exact P|exact B].
  - rewrite <- Z.pow_add_r by lia. apply Z.pow_lt_mono_r; lia.
Qed.

Lemma cond_Zopp_mul s a k : cond_Zopp s a * k = cond_Zopp s (a * k).
Proof. destruct s; simpl; lia. Qed.

Lemma SFcompare_ordinal x y :
  valid_binary x = true -> valid_binary y = true ->
  x <> S754_nan -> y <> S754_nan ->
  SFcompare x y = Some (ordinal x ?= ordinal y).
Proof.
  intros Vx Vy Nx Ny.
  assert (P : 0 < 2 ^ 2100) by (apply pow2_pos; lia).
  destruct x as [sx|sx| |sx mx ex], y as [sy|sy| |sy my ey];
    try congruence;
    try pose proof (finite_ordinal_bounds _ _ _ Vx) as Bx;
    try pose proof (finite_ordinal_bounds _ _ _ Vy) as By;
    try (unfold SFcompare, ordinal; f_equal; symmetry;
         repeat match goal with s : bool |- _ => destruct s end;
         cbn [cond_Zopp];
         first [ apply Z.compare_eq_iff; lia
               | apply Z.compare_lt_iff; lia
               | apply Z.compare_gt_iff; lia ]).
  rewrite SFcompare_aligned by assumption. f_equal.
  apply valid_finite in Vx as (_ & Rx & _).
  apply valid_finite in Vy as (_ & Ry & _).
  rewrite !aligned_value by lia. unfold ordinal.
  set (ez := Z.min ex ey).
  pose proof (pow2_pos (ez + 1074) ltac:(unfold ez; lia)) as Pz.
  rewrite (Zmult_compare_compat_r _ _ (2 ^ (ez + 1074))) by lia.
  rewrite !cond_Zopp_mul, <- !Z.mul_assoc, <- !Z.pow_add_r by (unfold ez; lia).
  replace (ex - ez + (ez + 1074)) with (ex + 1074) by lia.
  replace (ey - ez + (ez + 1074)) with (ey + 1074) by lia.
  reflexivity.
Qed.

Lemma num_compare_ord x y :
  PrimFloat.is_nan x = false -> PrimFloat.is_nan y = false ->
  SFcompare (Prim2SF x) (Prim2SF y) = Some (ord x ?= ord y).
Proof.
  rewrite !is_nan_false_SF. intros Hx Hy.
  apply SFcompare_ordinal; auto using Prim2SF_valid.
Qed.

Lemma num_ltb_ord x y :
  PrimFloat.ltb x y = true <->
  PrimFloat.is_nan x = false /\ PrimFloat.is_nan y = false /\ ord x < ord y.
Proof.
  split.
  - intros H. destruct (num_ltb_not_nan _ _ H) as [Hx Hy].
    split; [exact Hx|]. split; [exact Hy|].
    apply num_ltb_SF in H. rewrite (num_compare_ord x y Hx Hy) in H.
    injection H as H. apply Z.compare_lt_iff, H.
  - intros (Hx & Hy & H). apply num_ltb_SF.
    rewrite (num_compare_ord x y Hx Hy). f_equal. apply Z.compare_lt_iff, H.
Qed.

Lemma num_leb_ord x y :
  PrimFloat.leb x y = true <->
  PrimFloat.is_nan x = false /\ PrimFloat.is_nan y = false /\ ord x <= ord y.
Proof.
  split.
  - intros H. destruct (num_leb_not_nan _ _ H) as [Hx Hy].
    split; [exact Hx|]. split; [exact Hy|].
    apply num_leb_SF in H. rewrite (num_compare_ord x y Hx Hy) in H.
    destruct H as [H|H]; injection H as H.
    + apply (proj1 (Z.compare_lt_iff _ _)) in H. lia.
    + apply (proj1 (Z.compare_eq_iff _ _)) in H. lia.
  - intros (Hx & Hy & H). apply num_leb_SF.
    rewrite (num_compare_ord x y Hx Hy).
    destruct (Z.compare_spec (ord x) (ord y)); auto; lia.
Qed.

Lemma num_eqb_ord x y :
  PrimFloat.eqb x y = true <->
  PrimFloat.is_nan x = false /\ PrimFloat.is_nan y = false /\ ord x = ord y.
Proof.
  split.
  - intros H. pose proof (num_eqb_leb _ _ H) as H1.
    pose proof (num_eqb_leb _ _ (num_eqb_sym _ _ H)) as H2.
    apply num_leb_ord in H1 as (Hx & Hy & H1).
    apply num_leb_ord in H2 as (_ & _ & H2).
    split; [exact Hx|]. split; [exact Hy|lia].
  - intros (Hx & Hy & H). apply num_eqb_SF.
    rewrite (num_compare_ord x y Hx Hy). f_equal. apply Z.compare_eq_iff, H.
Qed.

(** The order of Numbers is transitive. *)
Lemma num_ltb_leb_trans x y z :
  PrimFloat.ltb x y = true -> PrimFloat.leb y z = true -> PrimFloat.ltb x z = true.
Proof.
  rewrite !num_ltb_ord, num_leb_ord. intros (? & ? & ?) (? & ? & ?).
  repeat split; auto; lia.
Qed.

Lemma num_leb_trans x y z :
  PrimFloat.leb x y = true -> PrimFloat.leb y z = true -> PrimFloat.leb x z = true.
Proof.
  rewrite !num_leb_ord. intros (? & ? & ?) (? & ? & ?). repeat split; auto; lia.
Qed.

Lemma num_ltb_ordb x y :
  PrimFloat.is_nan x = false -> PrimFloat.is_nan y = false ->
  PrimFloat.ltb x y = (ord x <? ord y).
Proof.
  intros Hx Hy. destruct (Z.ltb_spec (ord x) (ord y)) as [H|H].
  - apply num_ltb_ord. auto.
  - destruct (PrimFloat.ltb x y) eqn:E; [|reflexivity].
    apply num_ltb_ord in E as (_ & _ & E). lia.
Qed.

Lemma num_leb_ordb x y :
  PrimFloat.is_nan x = false -> PrimFloat.is_nan y = false ->
  PrimFloat.leb x y = (ord x <=? ord y).
Proof.
  intros Hx Hy. destruct (Z.leb_spec (ord x) (ord y)) as [H|H].
  - apply num_leb_ord. auto.
  - destruct (PrimFloat.leb x y) eqn:E; [|reflexivity].
    apply num_leb_ord in E as (_ & _ & E). lia.
Qed.

Lemma nan_ltb_l x y : PrimFloat.is_nan x = true -> PrimFloat.ltb x y = false.
Proof.
  intros H. destruct (PrimFloat.ltb x y) eqn:E; [|reflexivity].
  apply num_ltb_not_nan in E as [E _]. congruence.
Qed.

Lemma nan_ltb_r x y : PrimFloat.is_nan y = true -> PrimFloat.ltb x y = false.
Proof.
  intros H. destruct (PrimFloat.ltb x y) eqn:E; [|reflexivity].
  apply num_ltb_not_nan in E as [_ E]. congruence.
Qed.

Lemma nan_leb_l x y : PrimFloat.is_nan x = true -> PrimFloat.leb x y = false.
Proof.
  intros H. destruct (PrimFloat.leb x y) eqn:E; [|reflexivity].
  apply num_leb_not_nan in E as [E _]. congruence.
Qed.

Lemma nan_leb_r x y : PrimFloat.is_nan y = true -> PrimFloat.leb x y = false.
Proof.
  intros H. destruct (PrimFloat.leb x y) eqn:E; [|reflexivity].
  apply num_leb_not_nan in E as [_ E]. congruence.
Qed.

Lemma eqb_55 x : PrimFloat.eqb x 55 = true -> x = 55%float.
Proof.
  rewrite num_eqb_SF. intros H. apply Prim2SF_inj.
  change (Prim2SF 55) with (S754_finite false 7740561859543040 (-47)) in *.
  apply SFcompare_Eq_finite, H.
Qed.

Lemma ord_55_75 : ord 55 < ord 75.
Proof. vm_compute. reflexivity. Qed.

(** ** The score badge of the client *)

(** The colour of a score and its confidence bucket, for a score that
    is not [NaN]. *)
Lemma getScoreColor_cases score :
  PrimFloat.is_nan score = false ->
  (ord 75 < ord score /\ getScoreColor score = "bg-green-500"%string /\
   confidence_of score = High) \/
  (score = 75%float /\ getScoreColor score = "bg-green-500"%string /\
   confidence_of score = Medium) \/
  (ord 55 < ord score < ord 75 /\ getScoreColor score = "bg-yellow-500"%string /\
   confidence_of score = Medium) \/
  (score = 55%float /\ getScoreColor score = "bg-yellow-500"%string /\
   confidence_of score = Low) \/
  (ord score < ord 55 /\ getScoreColor score = "bg-gray-500"%string /\
   confidence_of score = Low).
Proof.
  intros Hn. pose proof ord_55_75 as H57.
  unfold getScoreColor, confidence_of, geb, gtb.
  rewrite !num_ltb_ordb, !num_leb_ordb by (assumption || reflexivity).
  destruct (Z.lt_total (ord score) (ord 75)) as [H|[H|H]].
  - destruct (Z.lt_total (ord score) (ord 55)) as [H'|[H'|H']].
    + do 4 right.
      destruct (Z.leb_spec (ord 75) (ord score)),
        (Z.leb_spec (ord 55) (ord score)),
        (Z.ltb_spec (ord 75) (ord score)),
        (Z.ltb_spec (ord 55) (ord score)); try lia; auto.
    + do 3 right. left. split.
      { apply eqb_55, num_eqb_ord. auto. }
      destruct (Z.leb_spec (ord 75) (ord score)),
        (Z.leb_spec (ord 55) (ord score)),
        (Z.ltb_spec (ord 75) (ord score)),
        (Z.ltb_spec (ord 55) (ord score)); try lia; auto.
    + do 2 right. left.
      destruct (Z.leb_spec (ord 75) (ord score)),
        (Z.leb_spec (ord 55) (ord score)),
        (Z.ltb_spec (ord 75) (ord score)),
        (Z.ltb_spec (ord 55) (ord score)); try lia; auto.
  - right. left. split.
    { apply eqb_75, num_eqb_ord. auto. }
    destruct (Z.leb_spec (ord 75) (ord score)),
      (Z.leb_spec (ord 55) (ord score)),
      (Z.ltb_spec (ord 75) (ord score)),
      (Z.ltb_spec (ord 55) (ord score)); try lia; auto.
  - left.
    destruct (Z.leb_spec (ord 75) (ord score)),
      (Z.leb_spec (ord 55) (ord score)),
      (Z.ltb_spec (ord 75) (ord score)),
      (Z.ltb_spec (ord 55) (ord score)); try lia; auto.
Qed.

Lemma getScoreColor_nan score :
  PrimFloat.is_nan score = true ->
  getScoreColor score = "bg-gray-500"%string /\ confidence_of score = Low.
Proof.
  intros Hn. unfold getScoreColor, confidence_of, geb, gtb.
  rewrite !nan_leb_r, !nan_ltb_r by exact Hn. auto.
Qed.

(** X7: the colour of the score badge follows the [minConfidence] filter
    of the server, not the confidence bucket of the Signal: the badge of
    a generated Signal is green exactly when the Signal passes
    [minConfidence=high]. A Signal of high confidence is green, a green
    one has high confidence or the score 75; a Signal of low confidence
    is grey or has the score 55, and a grey one has low confidence. *)
Theorem score_color_confidence toString10 toString36
    (m : MarketState.t) (e : Env) (g : Signal.t) :
  fst (generateSignal toString10 toString36 m e) = Some g ->
  (getScoreColor (Signal.signalScore g) = "bg-green-500"%string <->
   passes_minConfidence (Some "high"%string) g = true) /\
  (Signal.confidence g = High ->
   getScoreColor (Signal.signalScore g) = "bg-green-500"%string) /\
  (getScoreColor (Signal.signalScore g) = "bg-green-500"%string ->
   Signal.confidence g = High \/ Signal.signalScore g = 75%float) /\
  (Signal.confidence g = Low ->
   getScoreColor (Signal.signalScore g) = "bg-gray-500"%string \/
   Signal.signalScore g = 55%float) /\
  (getScoreColor (Signal.signalScore g) = "bg-gray-500"%string ->
   Signal.confidence g = Low).
Proof.
  intros Hg. rewrite (generateSignal_confidence_of _ _ _ _ _ Hg).
  split.
  { unfold getScoreColor, passes_minConfidence. cbn [given minScore_of].
    change (minScore_of "high") with 75%float.
    destruct (geb (Signal.signalScore g) 75); [tauto|].
    destruct (geb (Signal.signalScore g) 55); split; discriminate. }
  destruct (PrimFloat.is_nan (Signal.signalScore g)) eqn:Hn.
  - destruct (getScoreColor_nan _ Hn) as [-> ->].
    repeat split; auto; discriminate.
  - destruct (getScoreColor_cases _ Hn)
      as [(_ & -> & ->)|[(E & -> & ->)|[(_ & -> & ->)|[(E & -> & ->)|(_ & -> & ->)]]]];
      repeat split; auto; try discriminate.
Qed.

Lemma sample_score_75 :
  option_map Signal.signalScore
    (fst (generateSignal sample_toString10 sample_toString36
            (sample_market 0.665) (mkEnv sample_random 2 sample_time 0)))
  = Some 75%float.
Proof. vm_compute. reflexivity. Qed.

Lemma score_color_confidence_witness :
  exists g,
    fst (generateSignal sample_toString10 sample_toString36
           (sample_market 0.665) (mkEnv sample_random 2 sample_time 0))
      = Some g /\
    Signal.signalScore g = 75%float /\
    getScoreColor (Signal.signalScore g) = "bg-green-500"%string /\
    (Signal.confidence g = High \/ Signal.signalScore g = 75%float).
Proof.
  pose proof sample_score_75 as Hsc.
  remember (fst (generateSignal sample_toString10 sample_toString36
                   (sample_market 0.665) (mkEnv sample_random 2 sample_time 0)))
    as generated eqn:Eg.
  destruct generated as [g|]; [|discriminate Hsc].
  cbn [option_map] in Hsc. injection Hsc as Hsc.
  destruct (score_color_confidence sample_toString10 sample_toString36
              (sample_market 0.665) (mkEnv sample_random 2 sample_time 0) g
              (eq_sym Eg)) as (_ & _ & Hgreen & _).
  assert (Hc : getScoreColor (Signal.signalScore g) = "bg-green-500"%string)
    by (rewrite Hsc; reflexivity).
  exists g. split; [reflexivity|]. split; [exact Hsc|]. split; [exact Hc|].
  apply Hgreen, Hc.
Defined.

(** ** The best book of the client *)

Lemma better_book_step books best x :
  PrimFloat.is_nan (book_odds x) = false ->
  (forall b, In b books -> PrimFloat.is_nan (book_odds b) = false) ->
  first_best books best -> first_best (books ++ [x]) (better_book best x).
Proof.
  intros Hx Hn (before & after & -> & Hb & Ha).
  assert (Hbest : PrimFloat.is_nan (book_odds best) = false)
    by (apply Hn, in_or_app; right; left; reflexivity).
  unfold better_book, gtb.
  destruct (PrimFloat.ltb (book_odds best) (book_odds x)) eqn:E.
  - exists (before ++ best :: after), []. split; [reflexivity|].
    split; [|intros b []].
    intros b Hin. apply in_app_or in Hin as [Hin|[<-|Hin]].
    + apply num_ltb_leb_trans with (book_odds best); [auto|].
      apply num_ltb_leb, E.
    + exact E.
    + apply num_ltb_ord. apply Ha, num_leb_ord in Hin as (Hnb & _ & Hin).
      apply num_ltb_ord in E as (_ & _ & E). repeat split; auto; lia.
  - exists before, (after ++ [x]). split; [rewrite <- app_assoc; reflexivity|].
    split; [exact Hb|].
    intros b Hin. apply in_app_or in Hin as [Hin|[<-|[]]]; [auto|].
    apply num_not_ltb_leb; assumption.
Qed.

Lemma fold_better_book rest : forall books best,
  (forall b, In b (books ++ rest) -> PrimFloat.is_nan (book_odds b) = false) ->
  first_best books best ->
  first_best (books ++ rest) (fold_left better_book rest best).
Proof.
  induction rest as [|x rest IH]; intros books best Hn Hf; simpl.
  - rewrite app_nil_r. exact Hf.
  - replace (books ++ x :: rest) with ((books ++ [x]) ++ rest) in *
      by (rewrite <- app_assoc; reflexivity).
    apply IH; [exact Hn|].
    apply better_book_step; [|intros b Hb|exact Hf].
    + apply Hn, in_or_app. left. apply in_or_app. right. left. reflexivity.
    + apply Hn, in_or_app. left. apply in_or_app. left. exact Hb.
Qed.

Lemma ltb_irrefl x : PrimFloat.ltb x x = false.
Proof.
  destruct (PrimFloat.ltb x x) eqn:E; [|reflexivity].
  apply num_ltb_ord in E as (_ & _ & E). lia.
Qed.

(** X8: the best book that the market page shows is the first book with
    the highest odds, when no odds is [NaN]; of an empty list of books
    it is [undefined]. *)
Theorem bestBook_first_best (books : list BookOdds) :
  (books = [] -> bestBook books = None) /\
  (books <> [] ->
   (forall b, In b books -> PrimFloat.is_nan (book_odds b) = false) ->
   exists best,
     bestBook books = Some best /\ In best books /\
     (forall b, In b books ->
        PrimFloat.leb (book_odds b) (book_odds best) = true) /\
     first_best books best).
Proof.
  split; [intros ->; reflexivity|].
  intros Hne Hn. destruct books as [|first rest]; [congruence|].
  unfold bestBook. fold better_book. cbn [fold_left]. unfold better_book at 2, gtb.
  rewrite ltb_irrefl.
  pose proof (fold_better_book rest [first] first Hn) as Hf.
  simpl app in Hf.
  assert (H0 : first_best [first] first).
  { exists [], []. split; [reflexivity|]. split; intros b []. }
  specialize (Hf H0). eexists. split; [reflexivity|].
  destruct Hf as (before & after & E & Hb & Ha).
  split; [rewrite E; apply in_or_app; right; left; reflexivity|].
  split; [|exists before, after; auto].
  intros b Hin. rewrite E in Hin.
  apply in_app_or in Hin as [Hin|[<-|Hin]]; auto.
  - apply num_ltb_leb, Hb, Hin.
  - apply num_not_ltb_leb; try apply ltb_irrefl;
      apply Hn; rewrite E; apply in_or_app; right; left; reflexivity.
Qed.

(** X9: for every market that [GET /markets/:id] finds, the best book
    of the market page is FanDuel at -108, which is [books[1]]: the
    value that the page shows,
    [(bestBook.odds - books[1].odds) / 100 * 100], is 0. *)
Theorem market_page_best_book Math_sin Math_cos (id : string) (w w' : World)
    market history (books : list BookOdds) :
  get_market Math_sin Math_cos id w
    = Returned (MarketFound market history books) w' ->
  exists best second,
    bestBook books = Some best /\ books !! 1%nat = Some second /\
    best = second /\ book_name best = "FanDuel"%string /\
    book_odds best = (-108)%float /\
    ((book_odds best - book_odds second) / 100 * 100)%float = 0%float.
Proof.
  intros H. pose proof (get_market_lookup Math_sin Math_cos id w) as Hl.
  destruct (kv w !! _) as [v|]; [|rewrite Hl in H; discriminate H].
  destruct Hl as (history' & books' & Hl & _ & Hb).
  rewrite Hl in H. injection H as _ _ <- _.
  destruct books' as [|b0 [|b1 [|b2 [|b3 [|b4 [|b5 l]]]]]]; try discriminate Hb.
  simpl in Hb.
  destruct b0 as [n0 o0 u0], b1 as [n1 o1 u1], b2 as [n2 o2 u2],
    b3 as [n3 o3 u3], b4 as [n4 o4 u4].
  cbn [book_name book_odds] in Hb.
  injection Hb as -> -> -> -> -> -> -> -> -> ->.
  eexists _, _. split; [vm_compute; reflexivity|].
  split; [reflexivity|]. split; [reflexivity|]. split; [reflexivity|].
  split; reflexivity.
Qed.

Lemma market_page_best_book_witness :
  exists history books w' best,
    get_market sample_wave sample_wave "market-0"
        (mkWorld sample_env (write_market ∅ (sample_market 0.9)))
      = Returned (MarketFound (JMarketState (sample_market 0.9)) history books) w' /\
    bestBook books = Some best /\ book_name best = "FanDuel"%string.
Proof.
  pose proof (get_market_lookup sample_wave sample_wave "market-0"
                (mkWorld sample_env (write_market ∅ (sample_market 0.9)))) as Hl.
  assert (E : kv (mkWorld sample_env (write_market ∅ (sample_market 0.9)))
              !! ("market:" +:+ "market-0")%string
              = Some (JMarketState (sample_market 0.9)))
    by (apply lookup_insert_eq).
  rewrite E in Hl. destruct Hl as (history & books & Hl & _).
  destruct (market_page_best_book _ _ _ _ _ _ _ _ Hl)
    as (best & second & Hb & _ & _ & Hn & _).
  exists history, books. eexists _, best. split; [exact Hl|]. auto.
Defined.

(** ** How many Signals a request generates *)

Lemma Math_min_ord a b :
  PrimFloat.is_nan (Math_min a b) = false ->
  PrimFloat.is_nan a = false /\ PrimFloat.is_nan b = false /\
  ord (Math_min a b) <= ord a /\ ord (Math_min a b) <= ord b.
Proof.
  unfold Math_min.
  destruct (PrimFloat.is_nan a) eqn:Ha; [intros H; discriminate H|].
  destruct (PrimFloat.is_nan b) eqn:Hb; [intros H; discriminate H|].
  simpl. rewrite (num_ltb_ordb a b Ha Hb), (num_ltb_ordb b a Hb Ha).
  destruct (Z.ltb_spec (ord a) (ord b)), (Z.ltb_spec (ord b) (ord a));
    try destruct (PrimFloat.get_sign a); intros _; repeat split; lia.
Qed.

Lemma number_of_nat_not_nan n : PrimFloat.is_nan (number_of_nat n) = false.
Proof. apply is_nan_false_SF, number_of_Z_not_nan. Qed.

(** A loop index that is not below [count] is not below
    [Math.min(count, length)]. *)
Lemma not_below_min k count len :
  PrimFloat.ltb (number_of_nat k) count = false ->
  PrimFloat.ltb (number_of_nat k) (Math_min count len) = false.
Proof.
  intros H.
  destruct (PrimFloat.is_nan (Math_min count len)) eqn:En;
    [apply nan_ltb_r, En|].
  destruct (Math_min_ord _ _ En) as (Hc & _ & Hle & _).
  pose proof (number_of_nat_not_nan k) as Hk.
  rewrite num_ltb_ordb in H |- * by assumption.
  apply Z.ltb_ge in H. apply Z.ltb_ge. lia.
Qed.

Section SignalCount.
Variable toString10 toString36 : number -> string.

Lemma signalLoop_length bound rest : forall i acc w signals w',
  signalLoop toString10 toString36 bound i rest acc w = Returned signals w' ->
  exists new, signals = acc ++ new /\
    (length new <= length rest)%nat /\
    (forall k, (i <= k)%nat ->
       PrimFloat.ltb (number_of_nat k) bound = false ->
       (length new <= k - i)%nat) /\
    (new = [] -> kv w' = kv w).
Proof.
  induction rest as [|m rest IH]; intros i acc w signals w'; simpl.
  - unfold pret. intros H. injection H as <- <-. exists [].
    rewrite app_nil_r. repeat split; simpl; lia.
  - destruct (PrimFloat.ltb (number_of_nat i) bound) eqn:Ei.
    + unfold pbind at 1, lift at 1.
      destruct (generateSignal toString10 toString36 m (env w)) as [[g|] e1].
      * unfold pbind at 1, set at 1. intros H.
        apply IH in H as (new & -> & Hlen & Hk & _).
        exists (g :: new). rewrite <- app_assoc. split; [reflexivity|].
        split; [simpl; lia|]. split; [|discriminate].
        intros k Hik Hf. assert (k <> i) by congruence.
        specialize (Hk k ltac:(lia) Hf). simpl. lia.
      * intros H. apply IH in H as (new & -> & Hlen & Hk & Hkv).
        exists new. split; [reflexivity|]. split; [simpl; lia|].
        split; [|exact Hkv].
        intros k Hik Hf. assert (k <> i) by congruence.
        specialize (Hk k ltac:(lia) Hf). lia.
    + unfold pret. intros H. injection H as <- <-. exists [].
      rewrite app_nil_r. repeat split; simpl; lia.
Qed.

Lemma generateActiveSignals_length count w signals w' :
  generateActiveSignals toString10 toString36 count w = Returned signals w' ->
  (length signals <= length (kv_getByPrefix "market:" (kv w)))%nat /\
  (forall k, PrimFloat.ltb (number_of_nat k) count = false ->
     (length signals <= k)%nat) /\
  (signals = [] -> kv w' = kv w).
Proof.
  unfold generateActiveSignals, pbind at 1, getByPrefix.
  unfold pbind at 1.
  destruct (parse_rows as_MarketState _ w) as [markets w1|w1|] eqn:Ep;
    try discriminate.
  apply parse_rows_Returned in Ep as [-> Hm].
  intros H. apply signalLoop_length in H as (new & -> & Hlen & Hk & Hkv).
  simpl app.
  assert (El : length (Array_sort by_volatility markets)
               = length (kv_getByPrefix "market:" (kv w))).
  { rewrite (Permutation_length (Array_sort_Permutation by_volatility markets)).
    rewrite <- (List.length_map Some), <- Hm, List.length_map. reflexivity. }
  split; [lia|]. split; [|exact Hkv].
  intros k Hf. specialize (Hk k ltac:(lia) (not_below_min _ _ _ Hf)). lia.
Qed.

End SignalCount.

(** X10: [POST /signals/generate] returns at most one Signal per stored
    market and, for every whole number [n] that the count is not above,
    at most [n] Signals: at most the count rounded up, which is 3 for
    the count 2.5. A request with no count, with a count that is no
    number or with the count 0 is answered as the request with the
    count 5 is. A count below zero generates nothing and leaves the
    store as it is. [POST /init] reports at most 15 Signals. *)
Theorem generated_signals_bounded toString10 toString36
    (requested : number) (fuel : nat) (w w' w0 w0' : World)
    (signals : list Signal.t) (nm ns : nat) :
  (post_signals_generate toString10 toString36 requested w
     = Returned (SignalsOk signals) w' ->
   (length signals <= length (kv_getByPrefix "market:" (kv w)))%nat /\
   (PrimFloat.is_nan requested || PrimFloat.is_zero requested = true ->
    post_signals_generate toString10 toString36 5 w
      = Returned (SignalsOk signals) w' /\
    (length signals <= 5)%nat) /\
   (forall n, PrimFloat.leb requested (number_of_nat n) = true ->
      PrimFloat.is_zero requested = false ->
      (length signals <= n)%nat) /\
   (PrimFloat.ltb requested 0 = true -> signals = [] /\ kv w' = kv w)) /\
  (post_init toString10 toString36 fuel w0 = Returned (InitOk nm ns) w0' ->
   (ns <= 15)%nat).
Proof.
  split.
  - intros Hreq. pose proof Hreq as H. revert H.
    unfold post_signals_generate, try_catch, pbind.
    match goal with
    | |- context [generateActiveSignals _ _ ?c w] =>
        destruct (generateActiveSignals toString10 toString36 c w)
          as [l w1|w1|] eqn:E; [|discriminate|discriminate]
    end.
    unfold pret. intros H. injection H as <- <-.
    apply generateActiveSignals_length in E as (Hm & Hk & Hkv).
    split; [exact Hm|]. split; [|split].
    + intros Hz. split.
      * unfold post_signals_generate in Hreq |- *. rewrite Hz in Hreq.
        exact Hreq.
      * rewrite Hz in Hk. apply (Hk 5%nat). reflexivity.
    + intros n Hle Hn.
      apply num_leb_ord in Hle as (Hx & Hy & Hle).
      rewrite Hx, Hn in Hk. cbn [orb] in Hk. apply Hk.
      rewrite (num_ltb_ordb _ _ Hy Hx). apply Z.ltb_ge. exact Hle.
    + intros Hneg.
      assert (Ez : PrimFloat.is_nan requested || PrimFloat.is_zero requested = false).
      { apply num_ltb_ord in Hneg as (Hn & _ & Hlt). rewrite Hn. simpl.
        destruct (PrimFloat.is_zero requested) eqn:Ez; [|reflexivity].
        unfold PrimFloat.is_zero in Ez. apply num_eqb_ord in Ez as (_ & _ & Ez).
        change (ord PrimFloat.zero) with 0 in Ez. change (ord 0) with 0 in Hlt.
        lia. }
      rewrite Ez in Hk.
      assert (Hl : (length l <= 0)%nat).
      { apply Hk. change (number_of_nat 0) with 0%float.
        apply num_ltb_asym, Hneg. }
      destruct l; [auto|simpl in Hl; lia].
  - unfold post_init, try_catch, pbind at 1.
    destruct (initializeMockMarkets fuel w0) as [markets w1|w1|];
      [|discriminate|discriminate].
    unfold pbind at 1.
    destruct (generateActiveSignals toString10 toString36 15 w1)
      as [l w2|w2|] eqn:E; [|discriminate|discriminate].
    unfold pret. intros H. injection H as _ <- _.
    apply generateActiveSignals_length in E as (_ & Hk & _).
    apply (Hk 15%nat). reflexivity.
Qed.

(** ** The order in which Signals are generated *)

Lemma by_volatility_after a b :
  sorts_after by_volatility a b =
  PrimFloat.ltb (MarketState.volatility a) (MarketState.volatility b).
Proof. unfold sorts_after, by_volatility. apply sub_positive. Qed.

Lemma by_volatility_asymmetric a b :
  sorts_after by_volatility a b = true -> sorts_after by_volatility b a = false.
Proof. rewrite !by_volatility_after. apply num_ltb_asym. Qed.

Lemma sorted_volatility_desc markets :
  Forall (fun m => PrimFloat.is_nan (MarketState.volatility m) = false) markets ->
  Sorted (fun a b => sorts_after by_volatility a b = false) markets ->
  StronglySorted volatility_desc markets.
Proof.
  intros Hn Hs. induction Hs as [|m l Hl IH Hhd]; [constructor|].
  apply Forall_cons in Hn as [Hm Hn]. specialize (IH Hn).
  constructor; [exact IH|].
  destruct Hhd as [|y l Hy]; [constructor|].
  apply Forall_cons in Hn as [Hyn Hn].
  assert (Hmy : volatility_desc m y).
  { rewrite by_volatility_after in Hy. apply num_not_ltb_leb; assumption. }
  constructor; [exact Hmy|].
  apply StronglySorted_inv in IH as [_ IH].
  eapply Forall_impl; [exact IH|].
  intros z Hz. unfold volatility_desc in *.
  eapply num_leb_trans; eassumption.
Qed.

Lemma generateSignal_labels toString10 toString36 m e g :
  fst (generateSignal toString10 toString36 m e) = Some g ->
  Signal.volatility g =
    (if gtb (MarketState.volatility m) 0.7 then Extreme
     else if gtb (MarketState.volatility m) 0.5 then Volatile else Normal) /\
  Signal.riskLabel g =
    (if gtb (MarketState.volatility m) 0.7 then High
     else if gtb (MarketState.volatility m) 0.4 then Medium else Low).
Proof.
  unfold generateSignal, bind. simpl.
  destruct (PrimFloat.ltb (MarketState.volatility m) 0.3); simpl;
    [discriminate|].
  intros H. injection H as <-. split; reflexivity.
Qed.

Lemma ord_thresholds : ord 0.4 < ord 0.5 < ord 0.7.
Proof. split; vm_compute; reflexivity. Qed.

Lemma calmer_generated toString10 toString36 m e g m' e' g' :
  volatility_desc m m' ->
  fst (generateSignal toString10 toString36 m e) = Some g ->
  fst (generateSignal toString10 toString36 m' e') = Some g' ->
  calmer g g'.
Proof.
  intros Hd Hg Hg'. unfold calmer.
  apply generateSignal_labels in Hg as [-> ->].
  apply generateSignal_labels in Hg' as [-> ->].
  unfold volatility_desc in Hd. apply num_leb_ord in Hd as (Hn' & Hn & Hd).
  pose proof ord_thresholds as [H45 H57].
  unfold gtb.
  rewrite !num_ltb_ordb by (assumption || reflexivity).
  destruct (Z.ltb_spec (ord 0.7) (ord (MarketState.volatility m))),
    (Z.ltb_spec (ord 0.5) (ord (MarketState.volatility m))),
    (Z.ltb_spec (ord 0.4) (ord (MarketState.volatility m))),
    (Z.ltb_spec (ord 0.7) (ord (MarketState.volatility m'))),
    (Z.ltb_spec (ord 0.5) (ord (MarketState.volatility m'))),
    (Z.ltb_spec (ord 0.4) (ord (MarketState.volatility m')));
    simpl; try lia.
Qed.

Section SignalOrder.
Variable toString10 toString36 : number -> string.

Lemma signalLoop_order bound rest : forall i acc w signals w',
  StronglySorted volatility_desc rest ->
  signalLoop toString10 toString36 bound i rest acc w = Returned signals w' ->
  exists new, signals = acc ++ new /\
    StronglySorted calmer new /\
    Forall (fun g => exists m e, In m rest /\
              fst (generateSignal toString10 toString36 m e) = Some g) new.
Proof.
  induction rest as [|m rest IH]; intros i acc w signals w' Hs; simpl.
  - unfold pret. intros H. injection H as <- <-. exists [].
    rewrite app_nil_r. repeat constructor.
  - apply StronglySorted_inv in Hs as [Hs Hm].
    destruct (PrimFloat.ltb (number_of_nat i) bound).
    + unfold pbind at 1, lift at 1.
      destruct (generateSignal toString10 toString36 m (env w)) as [[g|] e1] eqn:Eg.
      * unfold pbind at 1, set at 1. intros H.
        apply (IH _ _ _ _ _ Hs) in H as (new & -> & Hsorted & Hgen).
        exists (g :: new). rewrite <- app_assoc. split; [reflexivity|].
        split.
        -- constructor; [exact Hsorted|].
           eapply Forall_impl; [exact Hgen|].
           intros g' (m' & e' & Hin & Hg').
           apply (calmer_generated toString10 toString36 m (env w) g m' e' g');
             [|rewrite Eg; reflexivity|exact Hg'].
           rewrite Forall_forall in Hm. apply Hm, list_elem_of_In, Hin.
        -- constructor.
           ++ exists m, (env w). rewrite Eg. split; [left|]; reflexivity.
           ++ eapply Forall_impl; [exact Hgen|].
              intros g' (m' & e' & Hin & Hg'). exists m', e'. split; [right|]; assumption.
      * intros H. apply (IH _ _ _ _ _ Hs) in H as (new & -> & Hsorted & Hgen).
        exists new. split; [reflexivity|]. split; [exact Hsorted|].
        eapply Forall_impl; [exact Hgen|].
        intros g' (m' & e' & Hin & Hg'). exists m', e'. split; [right|]; assumption.
    + unfold pret. intros H. injection H as <- <-. exists [].
      rewrite app_nil_r. repeat constructor.
Qed.

End SignalOrder.

Lemma StronglySorted_pairs {A} (R : A -> A -> Prop) (l : list A) :
  StronglySorted R l ->
  forall i j a b, (i < j)%nat -> l !! i = Some a -> l !! j = Some b -> R a b.
Proof.
  induction 1 as [|x l Hs IH Hx]; intros i j a b Hij Ha Hb; [discriminate|].
  destruct j as [|j]; [lia|]. simpl in Hb. destruct i as [|i]; simpl in Ha.
  - injection Ha as <-. rewrite Forall_forall in Hx.
    apply Hx, list_elem_of_lookup. eauto.
  - apply (IH i j); [lia|assumption|assumption].
Qed.

(** X11: [generateActiveSignals] goes through the markets from the most
    volatile one down: in the list it returns, a later Signal never has
    a higher volatility label or risk label than an earlier one, and no
    Signal is of the label [stable]. The volatilities of the stored
    markets are in [[0, 1]]. *)
Theorem generateActiveSignals_descending toString10 toString36
    (count : number) (w w' : World) (signals : list Signal.t) :
  markets_bounded (kv w) ->
  generateActiveSignals toString10 toString36 count w = Returned signals w' ->
  (forall i j a b, (i < j)%nat ->
     signals !! i = Some a -> signals !! j = Some b -> calmer a b) /\
  (forall g, In g signals -> Signal.volatility g <> Stable).
Proof.
  intros Hb. unfold generateActiveSignals, pbind at 1, getByPrefix.
  unfold pbind at 1.
  destruct (parse_rows as_MarketState _ w) as [markets w1|w1|] eqn:Ep;
    try discriminate.
  apply parse_rows_Returned in Ep as [-> Hm].
  intros H. apply signalLoop_order in H as (new & -> & Hsorted & Hgen).
  - simpl app. split; [apply StronglySorted_pairs, Hsorted|].
    intros g Hg. rewrite Forall_forall in Hgen.
    apply list_elem_of_In, Hgen in Hg as (m & e & _ & Hg).
    apply generateSignal_labels in Hg as [-> _].
    destruct (gtb _ 0.7); [discriminate|]. destruct (gtb _ 0.5); discriminate.
  - apply sorted_volatility_desc.
    + apply Forall_forall. intros m Hin.
      apply list_elem_of_In, Array_sort_In in Hin.
      apply (parsed_In _ _ _ m Hm) in Hin as (r & Hr & Hc).
      apply kv_getByPrefix_In in Hr as [_ Hk].
      destruct (value r) as [m0| |] eqn:Ev; try discriminate.
      simpl in Hc. injection Hc as ->.
      destruct (Hb _ _ Hk) as [H0 _].
      apply num_leb_not_nan in H0 as [_ H0]. exact H0.
    + apply Array_sort_Sorted, by_volatility_asymmetric.
Qed.

Lemma sample_generate_fraction :
  match post_init sample_toString10 sample_toString36 10 (mkWorld sample_env ∅) with
  | Returned _ w1 =>
      option_map (@length Signal.t)
        (returned_signals
           (post_signals_generate sample_toString10 sample_toString36 2.5 w1))
  | _ => None
  end
  = Some 3%nat.
Proof. vm_compute. reflexivity. Qed.

Lemma generated_signals_bounded_witness :
  exists w signals w',
    post_signals_generate sample_toString10 sample_toString36 2.5 w
      = Returned (SignalsOk signals) w' /\
    PrimFloat.leb 2.5 (number_of_nat 3) = true /\
    length signals = 3%nat /\ (length signals <= 3)%nat.
Proof.
  pose proof sample_generate_fraction as H.
  remember (post_init sample_toString10 sample_toString36 10
              (mkWorld sample_env ∅)) as r eqn:Er.
  destruct r as [r0 w1| |]; try discriminate H.
  remember (post_signals_generate sample_toString10 sample_toString36 2.5 w1)
    as r2 eqn:E2.
  destruct r2 as [[signals|] w'| |]; try discriminate H.
  cbn [returned_signals option_map] in H. injection H as H.
  destruct (generated_signals_bounded sample_toString10 sample_toString36
              2.5 0 w1 w' w1 w1 signals 0 0) as [Hb _].
  destruct (Hb (eq_sym E2)) as (_ & _ & Hn & _).
  exists w1, signals, w'. split; [symmetry; exact E2|].
  split; [reflexivity|]. split; [exact H|].
  apply (Hn 3%nat); reflexivity.
Defined.

Lemma sample_active_labels :
  match post_init sample_toString10 sample_toString36 10 (mkWorld sample_env ∅) with
  | Returned _ w1 =>
      option_map (List.map Signal.volatility)
        (returned_value
           (generateActiveSignals sample_toString10 sample_toString36 25 w1))
  | _ => None
  end
  = Some [Extreme; Extreme; Extreme; Extreme; Extreme; Extreme; Extreme;
          Volatile; Volatile; Volatile; Volatile; Volatile;
          Normal; Normal; Normal; Normal; Normal].
Proof. vm_compute. reflexivity. Qed.

Lemma generateActiveSignals_descending_witness :
  exists w signals w' a b,
    markets_bounded (kv w) /\
    generateActiveSignals sample_toString10 sample_toString36 25 w
      = Returned signals w' /\
    signals !! 0%nat = Some a /\ signals !! 16%nat = Some b /\
    Signal.volatility a = Extreme /\ Signal.volatility b = Normal /\
    calmer a b.
Proof.
  pose proof sample_active_labels as H.
  remember (post_init sample_toString10 sample_toString36 10
              (mkWorld sample_env ∅)) as r eqn:Er.
  destruct r as [r0 w1| |]; try discriminate H.
  remember (generateActiveSignals sample_toString10 sample_toString36 25 w1)
    as r2 eqn:E2.
  destruct r2 as [signals w'| |]; try discriminate H.
  cbn [returned_value option_map] in H. injection H as H.
  assert (Hb : markets_bounded (kv w1)).
  { destruct (step_markets sample_toString10 sample_toString36
                (mkWorld sample_env ∅) w1) as [_ Hk].
    - apply (step_init _ _ 10 _ r0). symmetry. exact Er.
    - exact sample_env_contract.
    - intros k m Hm. destruct (Hk k m Hm) as [Hold|Hnew]; [|exact Hnew].
      cbn [kv] in Hold. rewrite lookup_empty in Hold. discriminate Hold. }
  destruct (generateActiveSignals_descending _ _ _ _ _ _ Hb (eq_sym E2))
    as [Hd _].
  pose proof (f_equal (fun l => l !! 0%nat) H) as H0.
  pose proof (f_equal (fun l => l !! 16%nat) H) as H16.
  cbv beta in H0, H16. rewrite list_lookup_fmap in H0, H16.
  destruct (signals !! 0%nat) as [a|] eqn:Ea; [|discriminate H0].
  destruct (signals !! 16%nat) as [b|] eqn:Eb; [|discriminate H16].
  simpl in H0, H16. injection H0 as H0. injection H16 as H16.
  exists w1, signals, w', a, b. split; [exact Hb|].
  split; [symmetry; exact E2|]. split; [exact Ea|]. split; [exact Eb|].
  split; [exact H0|]. split; [exact H16|].
  apply (Hd 0%nat 16%nat); [lia|exact Ea|exact Eb].
Defined.

(** ** A draw times a factor is below the factor *)

Lemma round_step_lt C a n1 M m2 :
  0 < C -> 0 <= a -> 0 <= n1 ->
  (0 < n1 -> 2 ^ (n1 - 1) < C * 2 ^ a) ->
  0 <= M <= C * (2 ^ 53 - 1) * 2 ^ a ->
  (m2 = M / 2 ^ n1 \/
   (m2 = M / 2 ^ n1 + 1 /\ 0 < n1 /\ Z.odd (M / 2 ^ (n1 - 1)) = true)) ->
  m2 * 2 ^ n1 < C * 2 ^ 53 * 2 ^ a.
Proof.
  intros HC Ha Hn Hh HM Hm2.
  pose proof (pow2_pos a Ha) as Pa.
  pose proof (pow2_pos n1 Hn) as Pn.
  destruct Hm2 as [->|(-> & Hn0 & Hodd)].
  - pose proof (Z.mul_div_le M (2 ^ n1) Pn). nia.
  - pose proof (pow2_pos (n1 - 1) ltac:(lia)) as Ph.
    assert (E2 : 2 ^ n1 = 2 * 2 ^ (n1 - 1)).
    { replace n1 with (Z.succ (n1 - 1)) at 1 by lia.
      rewrite Z.pow_succ_r by lia. reflexivity. }
    destruct (odd_div_lower (M / 2 ^ (n1 - 1)) (2 ^ (n1 - 1)) M Ph ltac:(lia)
                eq_refl Hodd) as [Hlow Hdiv].
    rewrite <- E2 in Hdiv. rewrite <- Hdiv.
    specialize (Hh Hn0). rewrite E2. nia.
Qed.

Lemma digits_ge m k :
  0 < m -> m < 2 ^ k -> Zdigits2 m = k -> 0 < k -> 2 ^ (k - 1) <= m.
Proof.
  intros Hm Hlt Hd Hk. destruct m as [|p|p]; try lia. cbn [Zdigits2] in Hd.
  pose proof (digits2_pos_bounds p) as [Hlo _]. rewrite Hd in Hlo. exact Hlo.
Qed.

(** The rounded product of a mantissa of a draw and the mantissa [C] of
    a normal factor at the exponent [ec]: below the factor. *)
Lemma round_aux_lt C ec a M E :
  2 ^ 52 <= C < 2 ^ 53 -> -1074 < ec <= 971 -> 0 <= a ->
  E = ec - 53 - a -> 0 < M -> M <= C * (2 ^ 53 - 1) * 2 ^ a ->
  match binary_round_aux prec emax false M E loc_Exact with
  | S754_zero false => True
  | S754_finite false m3 e3 => e3 <= ec /\ Z.pos m3 < C * 2 ^ (ec - e3)
  | _ => False
  end.
Proof.
  intros HC Hec Ha HE HM Hbound.
  rewrite binary_round_aux_steps. cbv zeta.
  destruct (round_first_stage M E ltac:(lia)) as [He1 Hm2].
  set (n1 := Z.max (fexp prec emax (Zdigits2 M + E) - E) 0) in *.
  set (r1 := shr_fexp prec emax M E loc_Exact) in *.
  set (m2 := round_nearest_even _ _) in *.
  pose proof (pow2_pos a Ha) as Pa.
  assert (E106 : 2 ^ (106 + a) = 2 ^ 53 * 2 ^ 53 * 2 ^ a).
  { rewrite <- !Z.pow_add_r by lia. f_equal. }
  assert (HMlt : M < 2 ^ (106 + a)) by (rewrite E106; nia).
  assert (Hd : Zdigits2 M <= 106 + a) by (apply digits_le; lia).
  assert (Hf : fexp prec emax (Zdigits2 M + E) <= ec) by (apply fexp_le; lia).
  pose proof (fexp_above_emin (Zdigits2 M + E)) as Hf'.
  assert (Hn1 : 0 <= n1 <= 53 + a) by (unfold n1; lia).
  assert (He1' : -1074 <= snd r1 <= ec) by (rewrite He1; unfold n1; lia).
  pose proof (pow2_pos n1 ltac:(lia)) as Pn1.
  assert (Hh : 0 < n1 -> 2 ^ (n1 - 1) < C * 2 ^ a).
  { intros Hpos. destruct (Z_le_gt_dec n1 (52 + a)) as [Hle|Hgt].
    - apply Z.le_lt_trans with (2 ^ (51 + a)).
      + apply Z.pow_le_mono_r; lia.
      + replace (51 + a) with (Z.succ 50 + a) by lia.
        rewrite Z.pow_add_r by lia.
        change (2 ^ Z.succ 50) with (2 ^ 51). change (2 ^ 52) with (2 * 2 ^ 51) in HC.
        nia.
    - assert (En : n1 = 53 + a) by lia.
      assert (Ed : Zdigits2 M = 106 + a).
      { unfold n1, fexp, SpecFloat.emin in En. change prec with 53 in En.
        change emax with 1024 in En. lia. }
      pose proof (digits_ge M (106 + a) HM HMlt Ed ltac:(lia)) as Hlow.
      replace (106 + a - 1) with (53 + 52 + a) in Hlow by lia.
      rewrite !Z.pow_add_r in Hlow by lia.
      rewrite En. replace (53 + a - 1) with (52 + a) by lia.
      rewrite Z.pow_add_r by lia.
      assert (2 ^ 52 < C); [|nia].
      destruct (Z.eq_dec C (2 ^ 52)) as [EC|]; [|lia].
      exfalso. rewrite EC in Hbound. nia. }
  pose proof (round_step_lt C a n1 M m2 ltac:(lia) Ha ltac:(lia) Hh
                ltac:(lia) Hm2) as Hm2lt.
  assert (Hm2pos : 0 <= m2).
  { assert (0 <= M / 2 ^ n1) by (apply Z.div_pos; lia).
    destruct Hm2 as [->|[-> _]]; lia. }
  destruct (shr_fexp_m m2 (snd r1) loc_Exact Hm2pos) as [Hm3 He3].
  set (n2 := Z.max (fexp prec emax (Zdigits2 m2 + snd r1) - snd r1) 0) in *.
  set (r2 := shr_fexp prec emax m2 (snd r1) loc_Exact) in *.
  assert (Hn2 : 0 <= n2) by (unfold n2; lia).
  pose proof (pow2_pos n2 Hn2) as Pn2.
  assert (Hm3pos : 0 <= shr_m (fst r2)) by (rewrite Hm3; apply Z.div_pos; lia).
  destruct (Z.eq_dec m2 0) as [Hz|Hnz].
  { rewrite Hm3, Hz, Z.div_0_l by lia. exact I. }
  assert (Etot : 2 ^ 53 * 2 ^ a = 2 ^ (ec - snd r1) * 2 ^ n1).
  { rewrite <- !Z.pow_add_r by lia. f_equal. lia. }
  pose proof (pow2_pos (ec - snd r1) ltac:(lia)) as Pd.
  assert (Hm2C : m2 < C * 2 ^ (ec - snd r1)).
  { apply Z.mul_lt_mono_pos_r with (2 ^ n1); [exact Pn1|].
    rewrite <- Z.mul_assoc, <- Etot. lia. }
  assert (Hd2 : Zdigits2 m2 <= 53 + (ec - snd r1)).
  { apply digits_le; [lia|lia|]. rewrite Z.pow_add_r by lia. nia. }
  assert (He3' : snd r2 <= ec).
  { rewrite He3. unfold n2.
    assert (fexp prec emax (Zdigits2 m2 + snd r1) <= ec)
      by (apply fexp_le; lia).
    lia. }
  assert (E3 : 2 ^ (ec - snd r1) = 2 ^ (ec - snd r2) * 2 ^ n2).
  { rewrite <- Z.pow_add_r by lia. f_equal. lia. }
  pose proof (pow2_pos (ec - snd r2) ltac:(lia)) as Pe3.
  pose proof (Z.mul_div_le m2 (2 ^ n2) Pn2) as Hdiv.
  rewrite <- Hm3 in Hdiv.
  assert (Hlt : shr_m (fst r2) < C * 2 ^ (ec - snd r2)).
  { apply Z.mul_lt_mono_pos_r with (2 ^ n2); [exact Pn2|].
    rewrite <- Z.mul_assoc, <- E3. lia. }
  destruct (shr_m (fst r2)) as [|p|p]; try lia.
  destruct (snd r2 <=? emax - prec) eqn:Hle.
  - split; assumption.
  - apply Z.leb_gt in Hle. change (emax - prec) with 971 in Hle. lia.
Qed.

(** [Math.random() * cf < cf] for every draw and every normal factor
    above zero, in binary64 arithmetic. *)
Lemma mul_unit_lt (r cf : number) :
  unit_interval r -> normal_factor cf ->
  PrimFloat.leb 0 (r * cf) = true /\ PrimFloat.ltb (r * cf) cf = true.
Proof.
  intros Hr (C & ec & Hcf & HC & Hec).
  split.
  { apply mul_nonneg; [apply Hr|]. unfold positive_finite. rewrite Hcf.
    reflexivity. }
  pose proof (Prim2SF_valid cf) as Vcf. rewrite Hcf in Vcf.
  apply valid_finite in Vcf as (BC & RC & _).
  pose proof (Prim2SF_valid r) as Vr.
  pose proof (Prim2SF_valid (r * cf)) as Vp.
  assert (Hcfn : PrimFloat.is_nan cf = false)
    by (apply is_nan_false_SF; rewrite Hcf; discriminate).
  apply num_ltb_ord. unfold ord.
  revert Vp. rewrite is_nan_false_SF, FloatAxioms.mul_spec, Hcf.
  destruct (unit_interval_SF r Hr) as [[s Hs]|(m & e & Hs & He & Hm)];
    rewrite Hs in *.
  - intros _. cbn [SF64mul SFmul ordinal]. split; [discriminate|].
    split; [exact Hcfn|]. cbn [cond_Zopp].
    pose proof (pow2_pos (ec + 1074) ltac:(lia)). lia.
  - apply valid_finite in Vr as (_ & Re & _).
    unfold SF64mul, SFmul. cbn [xorb].
    pose proof (round_aux_lt (Z.pos C) ec (- e - 53) (Z.pos (m * C)) (e + ec)
                  ltac:(lia) ltac:(lia) ltac:(lia) ltac:(lia) ltac:(lia)) as H.
    assert (Hb : Z.pos (m * C) <= Z.pos C * (2 ^ 53 - 1) * 2 ^ (- e - 53)).
    { rewrite Pos2Z.inj_mul.
      pose proof (pow2_pos (- e - 53) ltac:(lia)). nia. }
    specialize (H Hb).
    destruct (binary_round_aux _ _ _ _ _ _) as [[]|[]| |[] m3 e3];
      try contradiction; intros Vp.
    + split; [discriminate|]. split; [exact Hcfn|]. cbn [ordinal cond_Zopp].
      pose proof (pow2_pos (ec + 1074) ltac:(lia)). lia.
    + split; [discriminate|]. split; [exact Hcfn|]. cbn [ordinal cond_Zopp].
      destruct H as [He3 Hm3].
      apply valid_finite in Vp as (_ & Re3 & _).
      pose proof (pow2_pos (e3 + 1074) ltac:(lia)) as P3.
      replace (ec + 1074) with ((ec - e3) + (e3 + 1074)) by lia.
      rewrite (Z.pow_add_r 2 (ec - e3) (e3 + 1074)), Z.mul_assoc by lia.
      apply Z.mul_lt_mono_pos_r; [exact P3|exact Hm3].
Qed.

(** ** [Math.floor] of a draw times a whole factor *)

Lemma all_below_spec n P k :
  all_below n P = true -> 0 <= k < Z.of_nat n -> P k = true.
Proof.
  unfold all_below. rewrite forallb_forall. intros H Hk.
  specialize (H (Z.to_nat k)). rewrite Z2Nat.id in H by lia.
  apply H, in_seq. lia.
Qed.

Lemma floor_below x N n0 :
  PrimFloat.leb 0 x = true -> PrimFloat.ltb x N = true ->
  ord N = n0 * 2 ^ 1074 -> n0 <= 2 ^ 52 ->
  exists k, 0 <= k < n0 /\ whole (Math_floor x) k.
Proof.
  intros H0 Hlt HN Hn0.
  apply num_ltb_ord in Hlt as (Hx & _ & Hlt). rewrite HN in Hlt.
  apply leb_0_nonneg in H0.
  pose proof (Prim2SF_valid x) as V.
  assert (P : 0 < 2 ^ 1074) by (apply pow2_pos; lia).
  unfold ord in Hlt. unfold Math_floor, whole.
  destruct (Prim2SF x) as [s|s| |s m e] eqn:E; cbn [ordinal nonneg] in *.
  - exists 0. split; [nia|].
    destruct s; [right|left].
    + split; [reflexivity|]. apply Prim2SF_inj. rewrite E. reflexivity.
    + apply Prim2SF_inj. rewrite E. reflexivity.
  - subst s. cbn [cond_Zopp] in Hlt. exfalso.
    assert (2 ^ 2100 = 2 ^ 1026 * 2 ^ 1074) as E2
      by (rewrite <- Z.pow_add_r by lia; reflexivity).
    assert (2 ^ 52 < 2 ^ 1026) by (apply Z.pow_lt_mono_r; lia).
    rewrite E2 in Hlt. nia.
  - contradiction.
  - subst s. cbn [cond_Zopp] in Hlt |- *.
    apply valid_finite in V as (B & R & Nm).
    destruct (0 <=? e) eqn:He.
    + apply Z.leb_le in He. exfalso.
      assert (2 ^ 52 <= Z.pos m) by lia.
      assert (2 ^ 1074 <= 2 ^ (e + 1074)) by (apply Z.pow_le_mono_r; lia).
      nia.
    + apply Z.leb_gt in He.
      pose proof (pow2_pos (- e) ltac:(lia)) as Pe.
      pose proof (pow2_pos (e + 1074) ltac:(lia)) as Pz.
      assert (E2 : 2 ^ 1074 = 2 ^ (- e) * 2 ^ (e + 1074)).
      { rewrite <- Z.pow_add_r by lia. f_equal. lia. }
      pose proof (Z.mul_div_le (Z.pos m) (2 ^ (- e)) Pe) as Hdiv.
      assert (Hk : 0 <= Z.pos m / 2 ^ (- e)) by (apply Z.div_pos; lia).
      exists (Z.pos m / 2 ^ (- e)). split.
      * split; [exact Hk|].
        apply Z.mul_lt_mono_pos_r with (2 ^ 1074); [exact P|].
        rewrite E2 at 1. nia.
      * left. destruct (_ =? 0) eqn:En; [|reflexivity].
        apply Z.eqb_eq in En. rewrite En. reflexivity.
Qed.

(** [Math.floor(Math.random() * N)] is one of [0], ..., [N - 1]. *)
Lemma floor_draw r cf n0 :
  unit_interval r -> normal_factor cf ->
  ord cf = n0 * 2 ^ 1074 -> n0 <= 2 ^ 52 ->
  exists k, 0 <= k < n0 /\ whole (Math_floor (r * cf)) k.
Proof.
  intros Hr Hcf Ho Hn. destruct (mul_unit_lt r cf Hr Hcf) as [H0 Hlt].
  apply (floor_below _ cf n0 H0 Hlt Ho Hn).
Qed.

Ltac normal_factor_tac :=
  eexists _, _; split; [vm_compute; reflexivity|];
  split; [apply Z.leb_le; reflexivity|reflexivity].

Lemma integer_value_neg_zero : integer_value PrimFloat.neg_zero = Some 0.
Proof. reflexivity. Qed.

(** [arr[Math.floor(Math.random() * arr.length)]] is an element of an
    array of one to eight elements. *)
Lemma pick_defined_small {A} (arr : list A) (r : number) :
  (0 < length arr <= 8)%nat -> unit_interval r ->
  exists x, pick arr r = Some x /\ In x arr.
Proof.
  intros Hlen Hr. unfold pick, array_get.
  assert (exists k, 0 <= k < Z.of_nat (length arr) /\
            whole (Math_floor (r * number_of_nat (length arr))) k)
    as (k & Hk & Hw).
  { apply floor_draw; [exact Hr| | |lia].
    - destruct (length arr) as [|[|[|[|[|[|[|[|[|n]]]]]]]]]; try lia;
        normal_factor_tac.
    - destruct (length arr) as [|[|[|[|[|[|[|[|[|n]]]]]]]]]; try lia;
        vm_compute; reflexivity. }
  assert (Hi : integer_value (Math_floor (r * number_of_nat (length arr))) = Some k).
  { destruct Hw as [->|[-> ->]]; [|reflexivity].
    destruct (Z.eq_dec k 0) as [->|]; [reflexivity|].
    apply integer_value_small. lia. }
  rewrite Hi.
  assert ((0 <=? k) && (k <? Z.of_nat (length arr)) = true) as ->.
  { apply andb_true_iff. split; [apply Z.leb_le|apply Z.ltb_lt]; lia. }
  destruct (nth_error arr (Z.to_nat k)) as [x|] eqn:E.
  - exists x. split; [reflexivity|]. eapply nth_error_In, E.
  - apply nth_error_None in E. lia.
Qed.

(** ** The best line of a Signal *)

Section GenerateSignalLine.
Variable toString10 toString36 : number -> string.
Variable marketState : MarketState.t.
Variable e : Env.

Let draw (k : nat) : number := random_values e (k + random_calls e).

Lemma generateSignal_line s :
  fst (generateSignal toString10 toString36 marketState e) = Some s ->
  book (Signal.bestLine s) = pick books (draw 2) /\
  odds (Signal.bestLine s) = (-110 + Math_floor (draw 3 * 40))%float /\
  price (Signal.bestLine s) =
    (if gtb (odds (Signal.bestLine s)) 0
     then "+" +:+ toString10 (odds (Signal.bestLine s))
     else toString10 (odds (Signal.bestLine s)))%string /\
  to (Signal.oddsMovement s) = odds (Signal.bestLine s) /\
  from (Signal.oddsMovement s) = (odds (Signal.bestLine s) - 15)%float /\
  Signal.timeToStart s = (Math_floor (draw 9 * 180) + 30)%float.
Proof.
  unfold generateSignal, bind. simpl.
  destruct (PrimFloat.ltb (MarketState.volatility marketState) 0.3); simpl;
    [discriminate|].
  intros H. injection H as <-. simpl. repeat split.
Qed.

End GenerateSignalLine.

Lemma odds_checked : all_below 40 odds_check = true.
Proof. vm_compute. reflexivity. Qed.

Lemma start_checked : all_below 180 start_check = true.
Proof. vm_compute. reflexivity. Qed.

Lemma whole_add_l c x k :
  (c + PrimFloat.neg_zero)%float = (c + 0)%float ->
  whole x k -> (c + x)%float = (c + number_of_Z k)%float.
Proof. intros Hc [->|[-> ->]]; [reflexivity|exact Hc]. Qed.

Lemma whole_add_r c x k :
  (PrimFloat.neg_zero + c)%float = (0 + c)%float ->
  whole x k -> (x + c)%float = (number_of_Z k + c)%float.
Proof. intros Hc [->|[-> ->]]; [reflexivity|exact Hc]. Qed.

(** X12: with [Math.random] in [[0, 1)], the best line of every Signal
    that [generateSignal] returns names one of the five books and whole
    odds from -110 to -71; the odds are never above zero, so that the
    price is the odds with no plus sign; the odds movement runs from 15
    points below the odds to the odds, which is a rise; the time to
    start is a whole number of minutes from 30 to 209. *)
Theorem generateSignal_best_line toString10 toString36
    (m : MarketState.t) (e : Env) (g : Signal.t) :
  random_contract e ->
  fst (generateSignal toString10 toString36 m e) = Some g ->
  (exists x, book (Signal.bestLine g) = Some x /\ In x books) /\
  (exists n, -110 <= n <= -71 /\
     odds (Signal.bestLine g) = number_of_Z n /\
     price (Signal.bestLine g) = toString10 (number_of_Z n) /\
     to (Signal.oddsMovement g) = number_of_Z n /\
     from (Signal.oddsMovement g) = number_of_Z (n - 15) /\
     gtb (to (Signal.oddsMovement g)) (from (Signal.oddsMovement g)) = true) /\
  (exists t, 30 <= t <= 209 /\ Signal.timeToStart g = number_of_Z t).
Proof.
  intros Hc Hg.
  destruct (generateSignal_line _ _ _ _ _ Hg)
    as (Hbook & Hodds & Hprice & Hto & Hfrom & Hstart).
  split; [|split].
  - rewrite Hbook. apply pick_defined; [left; reflexivity|apply Hc].
  - destruct (floor_draw (random_values e (3 + random_calls e)) 40 40 (Hc _))
      as (k & Hk & Hw); [normal_factor_tac|vm_compute; reflexivity|lia|].
    rewrite (whole_add_l (-110)%float _ k eq_refl Hw) in Hodds.
    pose proof (all_below_spec 40 odds_check k odds_checked ltac:(lia)) as Hck.
    unfold odds_check in Hck. cbv zeta in Hck.
    apply andb_true_iff in Hck as [Hck Hup].
    apply andb_true_iff in Hck as [Hck Hneg].
    apply andb_true_iff in Hck as [Ho Hf].
    apply FloatAxioms.Leibniz.eqb_spec in Ho, Hf. apply negb_true_iff in Hneg.
    rewrite <- Hodds in Ho, Hf, Hneg, Hup.
    exists (-110 + k). split; [lia|]. split; [exact Ho|].
    unfold gtb in Hprice |- *. rewrite Hneg in Hprice.
    split; [rewrite Hprice, Ho; reflexivity|].
    split; [rewrite Hto; exact Ho|].
    split; [rewrite Hfrom; exact Hf|].
    rewrite Hto, Hfrom. exact Hup.
  - destruct (floor_draw (random_values e (9 + random_calls e)) 180 180 (Hc _))
      as (k & Hk & Hw); [normal_factor_tac|vm_compute; reflexivity|lia|].
    rewrite (whole_add_r 30%float _ k eq_refl Hw) in Hstart.
    pose proof (all_below_spec 180 start_check k start_checked ltac:(lia)) as Hck.
    apply FloatAxioms.Leibniz.eqb_spec in Hck.
    exists (k + 30). split; [lia|]. rewrite Hstart. exact Hck.
Qed.

Lemma generateSignal_best_line_witness :
  exists g,
    random_contract sample_env /\
    fst (generateSignal sample_toString10 sample_toString36
           (sample_market 0.9) sample_env) = Some g /\
    odds (Signal.bestLine g) = (-102)%float /\
    (exists n, -110 <= n <= -71 /\ odds (Signal.bestLine g) = number_of_Z n) /\
    (exists t, 30 <= t <= 209 /\ Signal.timeToStart g = number_of_Z t).
Proof.
  eexists. split; [exact sample_env_contract|].
  split; [vm_compute; reflexivity|]. split; [reflexivity|].
  match goal with
  | |- (exists n, _ /\ odds (Signal.bestLine ?s) = _) /\ _ =>
      destruct (generateSignal_best_line sample_toString10 sample_toString36
                  (sample_market 0.9) sample_env s sample_env_contract)
        as (_ & (n & Hn & Ho & _) & Ht); [vm_compute; reflexivity|]
  end.
  split; [exists n; split; [exact Hn|exact Ho]|exact Ht].
Defined.

(** ** The market type of a market, the texts of a Signal *)

Lemma mockMarket_type fuel i w m w' :
  mockMarket fuel i w = Returned m w' ->
  random_contract (env w) ->
  exists t, MarketState.marketType m = Some t /\ In t marketTypes.
Proof.
  unfold mockMarket, pbind at 1, lift at 1. cbn [Math_random env kv].
  destruct (pick sports _) as [sport|]; [|discriminate].
  destruct (teams_get teams sport) as [sportTeams|]; [|discriminate].
  unfold pbind at 1, lift at 1. cbn [Math_random env kv].
  unfold pbind at 1, lift at 1. cbn [Math_random env kv].
  unfold pbind at 1.
  match goal with
  | |- context [redraw_team2 ?f ?t ?a ?b ?w0] =>
      pose proof (redraw_team2_final f t a b w0) as Hr;
      destruct (redraw_team2 f t a b w0) as [team2 w1| |];
        [|discriminate|discriminate]
  end.
  destruct Hr as [_ [Hs _]]. cbn [env random_values] in Hs.
  cbv [pbind lift pret Math_random Date_now]. intros H Hc. injection H as <- <-.
  cbn [MarketState.marketType env random_values].
  apply pick_defined_small; [simpl; lia|]. rewrite Hs. apply Hc.
Qed.

Section GenerateSignalTexts.
Variable toString10 toString36 : number -> string.
Variable marketState : MarketState.t.
Variable e : Env.

Lemma generateSignal_draws s :
  fst (generateSignal toString10 toString36 marketState e) = Some s ->
  Signal.trigger s = pick triggers (random_values e (7 + random_calls e)) /\
  Signal.explanation s = pick explanations (random_values e (8 + random_calls e)).
Proof.
  unfold generateSignal, bind. simpl.
  destruct (PrimFloat.ltb (MarketState.volatility marketState) 0.3); simpl;
    [discriminate|].
  intros H. injection H as <-. simpl. split; reflexivity.
Qed.

End GenerateSignalTexts.

(** X13: with [Math.random] in [[0, 1)], every market that
    [initializeMockMarkets] returns has a market type, one of Moneyline,
    Spread, Total and Player Props. *)
Theorem initializeMockMarkets_types (fuel : nat) (w w' : World)
    (markets : list MarketState.t) :
  random_contract (env w) ->
  initializeMockMarkets fuel w = Returned markets w' ->
  forall j m, markets !! j = Some m ->
    exists t, MarketState.marketType m = Some t /\ In t marketTypes.
Proof.
  intros Hc H j m Hj. unfold initializeMockMarkets in H.
  destruct (marketLoop_Forall
              (fun _ m0 => exists t, MarketState.marketType m0 = Some t /\
                                     In t marketTypes)
              random_contract fuel same_sources_contract
              (fun i w0 m0 w0' => mockMarket_type fuel i w0 m0 w0')
              25 0%nat [] w markets w' H Hc) as (new & -> & Hnew).
  apply (Hnew j m Hj).
Qed.

Lemma sample_markets_types :
  option_map (fun ms => List.map MarketState.marketType (firstn 2 ms))
    (returned_value (initializeMockMarkets 10 (mkWorld sample_env ∅)))
  = Some [Some "Moneyline"; Some "Moneyline"]%string.
Proof. vm_compute. reflexivity. Qed.

Lemma initializeMockMarkets_types_witness :
  exists markets w' m,
    random_contract sample_env /\
    initializeMockMarkets 10 (mkWorld sample_env ∅) = Returned markets w' /\
    markets !! 0%nat = Some m /\
    MarketState.marketType m = Some "Moneyline"%string /\
    exists t, MarketState.marketType m = Some t /\ In t marketTypes.
Proof.
  pose proof sample_markets_types as H.
  remember (initializeMockMarkets 10 (mkWorld sample_env ∅)) as r eqn:Er.
  destruct r as [markets w'| |]; try discriminate H.
  cbn [returned_value option_map] in H. injection H as H.
  destruct markets as [|m markets]; [discriminate H|].
  simpl in H. injection H as H _.
  exists (m :: markets), w', m. split; [exact sample_env_contract|].
  split; [reflexivity|]. split; [reflexivity|]. split; [exact H|].
  apply (initializeMockMarkets_types 10 (mkWorld sample_env ∅) w'
           (m :: markets) sample_env_contract (eq_sym Er) 0%nat m eq_refl).
Defined.

(** X14: with [Math.random] in [[0, 1)], every Signal that
    [generateSignal] returns has a trigger, one of the five triggers, and
    an explanation, one of the five explanations; its event, sport and
    market type are those of the market. *)
Theorem generateSignal_texts toString10 toString36
    (m : MarketState.t) (e : Env) (g : Signal.t) :
  random_contract e ->
  fst (generateSignal toString10 toString36 m e) = Some g ->
  (exists t, Signal.trigger g = Some t /\ In t triggers) /\
  (exists x, Signal.explanation g = Some x /\ In x explanations) /\
  Signal.eventId g = MarketState.eventId m /\
  Signal.eventName g = MarketState.eventName m /\
  Signal.sport g = MarketState.sport m /\
  Signal.marketType g = MarketState.marketType m.
Proof.
  intros Hc Hg.
  destruct (generateSignal_draws _ _ _ _ _ Hg) as [Ht Hx].
  split; [rewrite Ht; apply pick_defined; [left; reflexivity|apply Hc]|].
  split; [rewrite Hx; apply pick_defined; [left; reflexivity|apply Hc]|].
  revert Hg. unfold generateSignal, bind. simpl.
  destruct (PrimFloat.ltb (MarketState.volatility m) 0.3); simpl;
    [discriminate|].
  intros H. injection H as <-. simpl. repeat split.
Qed.

Lemma generateSignal_texts_witness :
  exists g,
    random_contract sample_env /\
    fst (generateSignal sample_toString10 sample_toString36
           (sample_market 0.9) sample_env) = Some g /\
    Signal.trigger g = Some "Sharp money indicators across 3+ books"%string /\
    (exists t, Signal.trigger g = Some t /\ In t triggers) /\
    (exists x, Signal.explanation g = Some x /\ In x explanations).
Proof.
  eexists. split; [exact sample_env_contract|].
  split; [vm_compute; reflexivity|]. split; [reflexivity|].
  match goal with
  | |- (exists t, Signal.trigger ?s = _ /\ _) /\ _ =>
      destruct (generateSignal_texts sample_toString10 sample_toString36
                  (sample_market 0.9) sample_env s sample_env_contract)
        as (Ht & Hx & _); [vm_compute; reflexivity|]
  end.
  split; [exact Ht|exact Hx].
Defined.

(** ** The performance chart of [GET /analytics] *)

Lemma performanceLoop_points i : forall history e,
  exists points,
    fst (performanceLoop i history e) = history ++ points /\
    forall j p, points !! j = Some p ->
      (j <= i)%nat /\
      date p = (number_of_Z (time_values e (j + time_calls e))
                - number_of_nat (i - j) * 86400000)%float /\
      signalCount p =
        (Math_floor (random_values e (3 * j + 2 + random_calls e) * 20) + 5)%float.
Proof.
  induction i as [|i IH]; intros history e.
  - eexists [_]. split; [reflexivity|].
    intros [|j] p Hj; [|destruct j; discriminate Hj].
    injection Hj as <-. split; [lia|]. split; reflexivity.
  - cbn [performanceLoop]. unfold bind at 1.
    unfold performancePoint at 1, bind, Math_random, Date_now, ret.
    cbn [random_values random_calls time_values time_calls].
    match goal with
    | |- context [performanceLoop _ (history ++ [?p]) ?e1] =>
        destruct (IH (history ++ [p]) e1) as (points & -> & Hp);
        exists (p :: points)
    end.
    cbn [random_values random_calls time_values time_calls] in Hp.
    split; [rewrite <- app_assoc; reflexivity|].
    intros [|j] p Hj.
    + injection Hj as <-. split; [lia|]. split; reflexivity.
    + destruct (Hp j p Hj) as (Hle & Hd & Hn). split; [lia|].
      rewrite Hd, Hn.
      replace (j + S (time_calls e))%nat with (S j + time_calls e)%nat by lia.
      replace (3 * j + 2 + S (S (S (random_calls e))))%nat
        with (3 * S j + 2 + random_calls e)%nat by lia.
      split; reflexivity.
Qed.

Lemma count_checked : all_below 20 count_check = true.
Proof. vm_compute. reflexivity. Qed.

(** X15: the performance chart of [GET /analytics] runs from 30 days
    before the request to its day: the point at the index [j] is dated
    [30 - j] days of 86400000 ms before the clock's reading for that
    point. With [Math.random] in [[0, 1)] the signal count of every
    point is a whole number from 5 to 24. *)
Theorem get_analytics_chart (Object_prototype : string -> option inherited)
    (w w' : World) (data : AnalyticsData) :
  random_contract (env w) ->
  get_analytics Object_prototype w = Returned (AnalyticsOk data) w' ->
  forall j p, performanceHistory data !! j = Some p ->
    (j <= 30)%nat /\
    date p = (number_of_Z (time_values (env w) (j + time_calls (env w)))
              - number_of_nat (30 - j) * 86400000)%float /\
    exists n, 5 <= n <= 24 /\ signalCount p = number_of_Z n.
Proof.
  intros Hc. unfold get_analytics, try_catch, pbind at 1, getByPrefix.
  unfold pbind at 1.
  destruct (parse_rows as_Signal (kv_getByPrefix "signal:" (kv w)) w)
    as [allSignals w1| |] eqn:E; [|unfold pret; discriminate|discriminate].
  apply parse_rows_Returned in E as [-> _].
  unfold pbind at 1, lift at 1.
  destruct (performanceLoop_points 30 [] (env w)) as (points & Hp & Hpoints).
  destruct (performanceLoop 30 [] (env w)) as [history e1].
  cbn [fst] in Hp. subst history. unfold pret.
  intros H. injection H as <- _. cbn [performanceHistory app].
  intros j p Hj. destruct (Hpoints j p Hj) as (Hle & Hd & Hn).
  split; [exact Hle|]. split; [exact Hd|].
  destruct (floor_draw (random_values (env w) (3 * j + 2 + random_calls (env w)))
              20 20 (Hc _))
    as (k & Hk & Hw); [normal_factor_tac|vm_compute; reflexivity|lia|].
  rewrite (whole_add_r 5%float _ k eq_refl Hw) in Hn.
  pose proof (all_below_spec 20 count_check k count_checked ltac:(lia)) as Hck.
  apply FloatAxioms.Leibniz.eqb_spec in Hck.
  exists (k + 5). split; [lia|]. rewrite Hn. exact Hck.
Qed.

Lemma sample_chart_count :
  match get_analytics sample_prototype sample_world with
  | Returned (AnalyticsOk data) _ =>
      option_map signalCount (performanceHistory data !! 0%nat)
  | _ => None
  end = Some 18%float.
Proof. vm_compute. reflexivity. Qed.

Lemma get_analytics_chart_witness :
  exists data w' p,
    random_contract (env sample_world) /\
    get_analytics sample_prototype sample_world
      = Returned (AnalyticsOk data) w' /\
    performanceHistory data !! 0%nat = Some p /\
    signalCount p = 18%float /\
    exists n, 5 <= n <= 24 /\ signalCount p = number_of_Z n.
Proof.
  pose proof sample_chart_count as H.
  remember (get_analytics sample_prototype sample_world) as r eqn:Er.
  destruct r as [[data|] w'| |]; try discriminate H.
  remember (performanceHistory data !! 0%nat) as o eqn:Eo.
  destruct o as [p|]; [|discriminate H].
  exists data, w', p. split; [exact sample_env_contract|].
  split; [reflexivity|]. split; [symmetry; exact Eo|].
  split; [cbn [option_map] in H; injection H as H; exact H|].
  destruct (get_analytics_chart sample_prototype sample_world w' data
              sample_env_contract
              (eq_sym Er) 0%nat p (eq_sym Eo)) as (_ & _ & Hn).
  exact Hn.
Defined.
